(** * nav-ingestion: the NAV job feed synchroniser

    A shallow embedding of [nav_client.py], [db_writer.py] and the
    synchronisation loop of [main.py], followed by the properties of the
    design document that concern them.

    The program is dynamically typed Python working on decoded JSON.  The
    embedding keeps that: every payload is a [json] value, dictionary access
    is [dict.get] with its [AttributeError] on a non-dictionary, truthiness
    is Python's, and each function returns a [result] carrying the exception
    class it raises.  The outside world (the HTTP server, the clock, the
    scheduling of the thread pool, the standard library's ISO date parser)
    is gathered in one interface, [Env]. *)

From Stdlib Require Import List ZArith String Ascii Bool Lia DecimalString.
Import ListNotations.

Scheme All for list.
Scheme All for prod.

(* ================================================================== *)
(** * Part I: definitions *)
(* ================================================================== *)

(** ** Python values and the operations the program applies to them *)

Module Py.

Local Open Scope string_scope.

(** A decoded JSON document, as [response.json()] returns it.  Numbers are
    restricted to integers (no floating point), strings are the bytes of
    their UTF-8 encoding.  An object is the list of its bindings in
    document order; [assoc] reads the first binding of a key, so a list
    with distinct keys is exactly a Python [dict]. *)
Inductive json : Type :=
| JNull
| JBool (b : bool)
| JInt (n : Z)
| JStr (s : string)
| JArr (xs : list json)
| JObj (kvs : list (string * json)).

(** The exception classes the program can meet. *)
Inductive exn : Type :=
| AttributeError
| TypeError
| KeyError
| IndexError
| ValueError
| RequestException.

Inductive result (A : Type) : Type :=
| Ok (a : A)
| Raise (e : exn).

Arguments Ok {A} a.
Arguments Raise {A} e.

Definition bind {A B : Type} (r : result A) (k : A -> result B) : result B :=
  match r with
  | Ok a => k a
  | Raise e => Raise e
  end.

Notation "x <- e ;; k" := (bind e (fun x => k))
  (at level 100, e at next level, right associativity).

Definition is_ok {A : Type} (r : result A) : bool :=
  match r with
  | Ok _ => true
  | Raise _ => false
  end.

(** [bool(x)] *)
Definition truthy (j : json) : bool :=
  match j with
  | JNull => false
  | JBool b => b
  | JInt n => negb (n =? 0)%Z
  | JStr s => negb (s =? "")
  | JArr xs => match xs with [] => false | _ :: _ => true end
  | JObj kvs => match kvs with [] => false | _ :: _ => true end
  end.

(** [x or y] *)
Definition py_or (x y : json) : json := if truthy x then x else y.

Fixpoint assoc (k : string) (kvs : list (string * json)) : option json :=
  match kvs with
  | [] => None
  | (k', v) :: rest => if k' =? k then Some v else assoc k rest
  end.

(** [d[k] = v] on the bindings of a dictionary that holds [k]. *)
Fixpoint set_key (k : string) (v : json) (kvs : list (string * json)) : list (string * json) :=
  match kvs with
  | [] => []
  | (k', v') :: rest => if k' =? k then (k', v) :: rest else (k', v') :: set_key k v rest
  end.

(** [d.get(k, dflt)]: only a dictionary has the method. *)
Definition get_default (d : json) (k : string) (dflt : json) : result json :=
  match d with
  | JObj kvs => Ok (match assoc k kvs with Some v => v | None => dflt end)
  | _ => Raise AttributeError
  end.

(** [d.get(k)] *)
Definition get (d : json) (k : string) : result json := get_default d k JNull.

(** [d[k]] for a string key [k]: [KeyError] on a dictionary without the
    key, [TypeError] on everything else (a list or a string wants an
    integer index, the other values are not subscriptable). *)
Definition getitem (d : json) (k : string) : result json :=
  match d with
  | JObj kvs => match assoc k kvs with Some v => Ok v | None => Raise KeyError end
  | _ => Raise TypeError
  end.

(** [x[0]]; the keys of a decoded JSON object are strings, never [0]. *)
Definition getitem0 (x : json) : result json :=
  match x with
  | JArr (v :: _) => Ok v
  | JArr [] => Raise IndexError
  | JStr (String c _) => Ok (JStr (String c ""))
  | JStr EmptyString => Raise IndexError
  | JObj _ => Raise KeyError
  | _ => Raise TypeError
  end.

Fixpoint chars (s : string) : list json :=
  match s with
  | EmptyString => []
  | String c rest => JStr (String c "") :: chars rest
  end.

(** [for x in j]: the elements of a list, the keys of a dictionary, the
    characters of a string; nothing else is iterable. *)
Definition iter (j : json) : result (list json) :=
  match j with
  | JArr xs => Ok xs
  | JObj kvs => Ok (map (fun kv => JStr (fst kv)) kvs)
  | JStr s => Ok (chars s)
  | _ => Raise TypeError
  end.

(** [len(j)] *)
Definition len (j : json) : result Z :=
  match j with
  | JArr xs => Ok (Z.of_nat (List.length xs))
  | JObj kvs => Ok (Z.of_nat (List.length kvs))
  | JStr s => Ok (Z.of_nat (String.length s))
  | _ => Raise TypeError
  end.

(** [isinstance(j, dict)] *)
Definition is_dict (j : json) : bool :=
  match j with
  | JObj _ => true
  | _ => false
  end.

(** [j == s] for a string literal [s]: only a string equals a string. *)
Definition eq_str (j : json) (s : string) : bool :=
  match j with
  | JStr t => t =? s
  | _ => false
  end.

(** [hash(j)] succeeds on [None], booleans, integers and strings only. *)
Definition hashable (j : json) : bool :=
  match j with
  | JArr _ | JObj _ => false
  | _ => true
  end.

(** [a == b] on hashable values.  A boolean is an integer in Python:
    [True == 1] and [False == 0]. *)
Definition py_eq (a b : json) : bool :=
  match a, b with
  | JNull, JNull => true
  | JBool x, JBool y => Bool.eqb x y
  | JBool x, JInt n | JInt n, JBool x => ((if x then 1 else 0) =? n)%Z
  | JInt n, JInt m => (n =? m)%Z
  | JStr s, JStr t => s =? t
  | _, _ => false
  end.

(** Equality of two tuples of the same length, component by component. *)
Fixpoint tuple_eq (a b : list json) : bool :=
  match a, b with
  | [], [] => true
  | x :: a', y :: b' => py_eq x y && tuple_eq a' b'
  | _, _ => false
  end.

(** [hash(key)] for a tuple [key]: [TypeError] when a component is
    unhashable. *)
Definition hash_tuple (key : list json) : result unit :=
  if forallb hashable key then Ok tt else Raise TypeError.

(** [key in seen] for a set of tuples, kept as the list of its members. *)
Definition tuple_in (key : list json) (seen : list (list json)) : bool :=
  existsb (tuple_eq key) seen.

(** [x in seen] for a set of plain values. *)
Definition set_in (x : json) (seen : list json) : result bool :=
  if hashable x then Ok (existsb (py_eq x) seen) else Raise TypeError.

(** Structural equality, used for the comparisons the database makes on
    stored values. *)
Fixpoint json_eqb (a b : json) : bool :=
  match a, b with
  | JNull, JNull => true
  | JBool x, JBool y => Bool.eqb x y
  | JInt n, JInt m => (n =? m)%Z
  | JStr s, JStr t => s =? t
  | JArr xs, JArr ys =>
      (fix go (l1 l2 : list json) : bool :=
         match l1, l2 with
         | [], [] => true
         | x :: l1', y :: l2' => json_eqb x y && go l1' l2'
         | _, _ => false
         end) xs ys
  | JObj xs, JObj ys =>
      (fix go (l1 l2 : list (string * json)) : bool :=
         match l1, l2 with
         | [], [] => true
         | (k1, x) :: l1', (k2, y) :: l2' => (k1 =? k2) && json_eqb x y && go l1' l2'
         | _, _ => false
         end) xs ys
  | _, _ => false
  end.

(** *** [str] and [repr] *)

Definition str_of_Z (n : Z) : string := NilZero.string_of_int (Z.to_int n).

Definition squote : ascii := "039"%char.
Definition dquote : ascii := "034"%char.
Definition backslash : ascii := "092"%char.

Fixpoint has_char (c : ascii) (s : string) : bool :=
  match s with
  | EmptyString => false
  | String d rest => Ascii.eqb c d || has_char c rest
  end.

Definition hex_digit (n : nat) : ascii :=
  match n with
  | 0 => "0" | 1 => "1" | 2 => "2" | 3 => "3" | 4 => "4" | 5 => "5" | 6 => "6"
  | 7 => "7" | 8 => "8" | 9 => "9" | 10 => "a" | 11 => "b" | 12 => "c"
  | 13 => "d" | 14 => "e" | _ => "f"
  end%char.

(** One character of [repr(s)] between the quotes [q].  Bytes from 128 up
    are left as they are: they are the UTF-8 encoding of a character that
    [repr] prints unchanged when it is printable. *)
Definition repr_char (q c : ascii) : string :=
  let n := nat_of_ascii c in
  if Ascii.eqb c backslash then String backslash (String backslash "")
  else if Ascii.eqb c q then String backslash (String q "")
  else if Nat.eqb n 10 then String backslash "n"
  else if Nat.eqb n 13 then String backslash "r"
  else if Nat.eqb n 9 then String backslash "t"
  else if Nat.ltb n 32 || Nat.eqb n 127 then
    String backslash (String "x" (String (hex_digit (Nat.div n 16)) (String (hex_digit (Nat.modulo n 16)) "")))
  else String c "".

Fixpoint repr_chars (q : ascii) (s : string) : string :=
  match s with
  | EmptyString => ""
  | String c rest => repr_char q c ++ repr_chars q rest
  end.

(** [repr(s)] of a string: single quotes, unless the string holds a single
    quote and no double quote. *)
Definition repr_str (s : string) : string :=
  let q := if has_char squote s && negb (has_char dquote s) then dquote else squote in
  String q (repr_chars q s ++ String q "").

(** [repr(j)] *)
Fixpoint repr (j : json) : string :=
  match j with
  | JNull => "None"
  | JBool true => "True"
  | JBool false => "False"
  | JInt n => str_of_Z n
  | JStr s => repr_str s
  | JArr xs => "[" ++ String.concat ", " (map repr xs) ++ "]"
  | JObj kvs =>
      "{" ++ String.concat ", " (map (fun kv => repr_str (fst kv) ++ ": " ++ repr (snd kv)) kvs) ++ "}"
  end.

(** [str(j)], also what an f-string substitutes for [{j}]. *)
Definition str (j : json) : string :=
  match j with
  | JStr s => s
  | _ => repr j
  end.

(** *** Substrings *)

(** [s.startswith(sep)] *)
Fixpoint starts_with (sep s : string) : bool :=
  match sep with
  | EmptyString => true
  | String a sep' =>
      match s with
      | EmptyString => false
      | String b s' => Ascii.eqb a b && starts_with sep' s'
      end
  end.

(** [sep in s] *)
Fixpoint contains (sep s : string) : bool :=
  starts_with sep s ||
  match s with
  | EmptyString => false
  | String _ rest => contains sep rest
  end.

(** [s.split(sep)[-1]] for a non-empty [sep].  [split] scans from the left
    and matches do not overlap: [skip] counts the characters of a match
    still to be passed over, [cur] is the piece being collected. *)
Fixpoint split_last_from (sep : string) (skip : nat) (cur s : string) : string :=
  match s with
  | EmptyString => cur
  | String c rest =>
      match skip with
      | S k => split_last_from sep k cur rest
      | O =>
          if starts_with sep s
          then split_last_from sep (String.length sep - 1) "" rest
          else split_last_from sep 0 (cur ++ String c "") rest
      end
  end.

Definition split_last (sep s : string) : string := split_last_from sep 0 "" s.

End Py.

Export Py.

(** ** Dates and times *)

Module DateTime.

(** The calendar fields of a [datetime], without its time zone. *)
Record wallclock : Type := mk_wallclock {
  year : Z;
  month : Z;
  day : Z;
  hour : Z;
  minute : Z;
  second : Z;
  microsecond : Z
}.

(** A [datetime.datetime]; [tzinfo] is the UTC offset in seconds of an
    aware value and [None] for a naive one. *)
Record datetime : Type := mk_datetime {
  wall : wallclock;
  tzinfo : option Z
}.

(** [d.replace(tzinfo=None)], as a naive value. *)
Definition replace_tzinfo_none (d : datetime) : wallclock := wall d.

Fixpoint lex_lt (a b : list Z) : bool :=
  match a, b with
  | x :: a', y :: b' => (x <? y)%Z || ((x =? y)%Z && lex_lt a' b')
  | _, _ => false
  end.

Definition wall_fields (w : wallclock) : list Z :=
  [year w; month w; day w; hour w; minute w; second w; microsecond w].

(** [a < b] between two naive values. *)
Definition naive_lt (a b : wallclock) : bool :=
  lex_lt (wall_fields a) (wall_fields b).

End DateTime.

Export DateTime.

(** ** The environment of a run *)

(** Everything the program reaches outside itself.
    - [session_request url params] is the body of the [try] in
      [NavClient._make_request]: [session.request], [raise_for_status] and
      [response.json()], on the state [World] of the network.
    - [fromisoformat] is [datetime.fromisoformat] on a string, [None]
      standing for its [ValueError].
    - [datetime_now] is [datetime.now()].
    - [as_completed w fs] is the order in which
      [concurrent.futures.as_completed] hands over the futures [fs], each
      paired with the item it was submitted for. *)
Class Env : Type := {
  World : Type;
  session_request : string -> list (string * string) -> World -> result json * World;
  fromisoformat : string -> option datetime;
  datetime_now : World -> datetime * World;
  as_completed : World -> list (json * result json) -> list (json * result json)
}.

(** ** [db_writer.py] *)

Module DBWriter.

Local Open Scope string_scope.

(** *** The tables

    A table is the list of its rows in insertion order; a row holds the
    columns the program writes, each cell the value that was bound to the
    statement.  A [json] cell holding [JNull] is SQL [NULL].  The schema is
    not part of the program: the keys the database assigns to new rows
    and the errors it raises on values a column cannot take are not
    modelled. *)

Record job_row : Type := mk_job_row {
  nav_uuid : json;
  job_url : json;
  job_title : json;
  company : json;
  job_text_html : json;
  kommune : json;
  fylke : json;
  omfang : json;
  ansettelsesform : json;
  sektor : json;
  frist_dato : option datetime;
  kilde : json;
  nav_updated_at : option datetime;
  status : json;
  expires : option datetime;
  engagementtype : json;
  extent : json;
  starttime : json;
  positioncount : json;
  sector : json;
  applicationurl : json;
  created_at : datetime;
  published : option datetime;
  job_title_official : json;
  employer_orgnr : json;
  employer_description : json;
  employer_homepage : json
}.

Record location_row : Type := mk_location_row {
  loc_nav_uuid : json;
  loc_address : json;
  loc_city : json;
  loc_postal_code : json;
  loc_county : json;
  loc_municipal : json;
  loc_country : json
}.

Record contact_row : Type := mk_contact_row {
  con_nav_uuid : json;
  con_name : json;
  con_email : json;
  con_phone : json;
  con_role : json;
  con_title : json
}.

Record category_row : Type := mk_category_row {
  cat_nav_uuid : json;
  cat_category_type : json;
  cat_code : json;
  cat_name : json
}.

Record occupation_row : Type := mk_occupation_row {
  occ_nav_uuid : json;
  occ_level1 : json;
  occ_level2 : json
}.

Record feed_state_row : Type := mk_feed_state_row {
  fs_next_url : json;
  fs_last_job_date : json;
  fs_updated_at : datetime;
  fs_title : json;
  fs_home_page_url : json;
  fs_feed_url : json;
  fs_description : json
}.

Record store : Type := mk_store {
  nav_jobs : list job_row;
  nav_job_locations : list location_row;
  nav_job_contacts : list contact_row;
  nav_job_categories : list category_row;
  nav_job_occupations : list occupation_row;
  nav_feed_state : list feed_state_row
}.

(** *** The statements the writer executes *)

Inductive stmt : Type :=
| UpsertJob (params : job_row)
| DeleteLocations (uuid : json)
| InsertLocations (data : list location_row)
| DeleteContacts (uuid : json)
| InsertContacts (data : list contact_row)
| DeleteCategories (uuid : json)
| InsertCategories (data : list category_row)
| DeleteOccupations (uuid : json)
| InsertOccupations (data : list occupation_row)
| DeleteFeedState
| InsertFeedState (params : feed_state_row).

(** [ON CONFLICT (nav_uuid) DO UPDATE SET ...]: every column of the [SET]
    list takes the proposed value; [nav_uuid] and [created_at] are not in
    the list and keep the value of the stored row. *)
Definition on_conflict_update (old excluded : job_row) : job_row :=
  {| nav_uuid := nav_uuid old;
     job_url := job_url excluded;
     job_title := job_title excluded;
     company := company excluded;
     job_text_html := job_text_html excluded;
     kommune := kommune excluded;
     fylke := fylke excluded;
     omfang := omfang excluded;
     ansettelsesform := ansettelsesform excluded;
     sektor := sektor excluded;
     frist_dato := frist_dato excluded;
     kilde := kilde excluded;
     nav_updated_at := nav_updated_at excluded;
     status := status excluded;
     expires := expires excluded;
     engagementtype := engagementtype excluded;
     extent := extent excluded;
     starttime := starttime excluded;
     positioncount := positioncount excluded;
     sector := sector excluded;
     applicationurl := applicationurl excluded;
     created_at := created_at old;
     published := published excluded;
     job_title_official := job_title_official excluded;
     employer_orgnr := employer_orgnr excluded;
     employer_description := employer_description excluded;
     employer_homepage := employer_homepage excluded |}.

(** [INSERT INTO nav_jobs ... ON CONFLICT (nav_uuid) DO UPDATE ...] *)
Fixpoint upsert (r : job_row) (t : list job_row) : list job_row :=
  match t with
  | [] => [r]
  | old :: rest =>
      if json_eqb (nav_uuid old) (nav_uuid r)
      then on_conflict_update old r :: rest
      else old :: upsert r rest
  end.

(** [DELETE FROM t WHERE nav_uuid = :uuid] *)
Definition delete_where {R : Type} (key : R -> json) (uuid : json) (t : list R) : list R :=
  filter (fun r => negb (json_eqb (key r) uuid)) t.

Definition execute (q : stmt) (s : store) : store :=
  match q with
  | UpsertJob r =>
      mk_store (upsert r (nav_jobs s)) (nav_job_locations s) (nav_job_contacts s)
               (nav_job_categories s) (nav_job_occupations s) (nav_feed_state s)
  | DeleteLocations u =>
      mk_store (nav_jobs s) (delete_where loc_nav_uuid u (nav_job_locations s)) (nav_job_contacts s)
               (nav_job_categories s) (nav_job_occupations s) (nav_feed_state s)
  | InsertLocations data =>
      mk_store (nav_jobs s) (nav_job_locations s ++ data) (nav_job_contacts s)
               (nav_job_categories s) (nav_job_occupations s) (nav_feed_state s)
  | DeleteContacts u =>
      mk_store (nav_jobs s) (nav_job_locations s) (delete_where con_nav_uuid u (nav_job_contacts s))
               (nav_job_categories s) (nav_job_occupations s) (nav_feed_state s)
  | InsertContacts data =>
      mk_store (nav_jobs s) (nav_job_locations s) (nav_job_contacts s ++ data)
               (nav_job_categories s) (nav_job_occupations s) (nav_feed_state s)
  | DeleteCategories u =>
      mk_store (nav_jobs s) (nav_job_locations s) (nav_job_contacts s)
               (delete_where cat_nav_uuid u (nav_job_categories s)) (nav_job_occupations s)
               (nav_feed_state s)
  | InsertCategories data =>
      mk_store (nav_jobs s) (nav_job_locations s) (nav_job_contacts s)
               (nav_job_categories s ++ data) (nav_job_occupations s) (nav_feed_state s)
  | DeleteOccupations u =>
      mk_store (nav_jobs s) (nav_job_locations s) (nav_job_contacts s)
               (nav_job_categories s) (delete_where occ_nav_uuid u (nav_job_occupations s))
               (nav_feed_state s)
  | InsertOccupations data =>
      mk_store (nav_jobs s) (nav_job_locations s) (nav_job_contacts s)
               (nav_job_categories s) (nav_job_occupations s ++ data) (nav_feed_state s)
  | DeleteFeedState =>
      mk_store (nav_jobs s) (nav_job_locations s) (nav_job_contacts s)
               (nav_job_categories s) (nav_job_occupations s) []
  | InsertFeedState r =>
      mk_store (nav_jobs s) (nav_job_locations s) (nav_job_contacts s)
               (nav_job_categories s) (nav_job_occupations s) (nav_feed_state s ++ [r])
  end.

Definition execute_all (qs : list stmt) (s : store) : store :=
  fold_left (fun acc q => execute q acc) qs s.

(** The states a transaction goes through, one after each statement. *)
Fixpoint transaction_states (qs : list stmt) (s : store) : list store :=
  match qs with
  | [] => []
  | q :: rest => execute q s :: transaction_states rest (execute q s)
  end.

(** [with self.engine.begin() as conn]: the statements of the block are
    committed together when it ends, and rolled back when it raises. *)
Definition transaction (block : result (list stmt)) (s : store) : store :=
  match block with
  | Ok qs => execute_all qs s
  | Raise _ => s
  end.

Section Writer.

Context {E : Env}.

(** *** [_upsert_nav_job] *)

(** The helper [parse_dt]: [fromisoformat] raises [ValueError], which is
    caught, on a string it cannot read, and [TypeError], which is not, on
    anything that is not a string. *)
Definition parse_dt (dt_str : json) : result (option datetime) :=
  if negb (truthy dt_str) then Ok None
  else match dt_str with
       | JStr s => Ok (fromisoformat s)
       | _ => Raise TypeError
       end.

(** [parse_dt(a) or parse_dt(b)]: [b] is looked at only when the first
    parse gives [None]. *)
Definition parse_dt_or (a b : json) : result (option datetime) :=
  first <- parse_dt a ;;
  match first with
  | Some d => Ok (Some d)
  | None => parse_dt b
  end.

(** [try: datetime.fromisoformat(v) except (ValueError, TypeError): None] *)
Definition parse_application_due (v : json) : option datetime :=
  match v with
  | JStr s => fromisoformat s
  | _ => None
  end.

(** Employer name, organisation number, description and home page. *)
Definition employer_fields (employer : json) : result (json * json * json * json) :=
  if is_dict employer then
    employer_name <- get employer "name" ;;
    employer_orgnr <- get employer "orgnr" ;;
    employer_desc <- get employer "description" ;;
    employer_homepage <- get employer "homepage" ;;
    Ok (employer_name, employer_orgnr, employer_desc, employer_homepage)
  else
    Ok (JStr (str employer), JNull, JNull, JNull).

Definition _upsert_nav_job (now : datetime) (job : json) : result (list stmt) :=
  _ <- get_default job "ad_content" (JObj []) ;;
  uuid <- get job "uuid" ;;
  status <- get job "status" ;;
  nav_updated_at <- get job "sistEndret" ;;
  ad_content <- get job "ad_content" ;;
  let ad := py_or ad_content (JObj []) in
  employer <- get_default ad "employer" (JObj []) ;;
  emp <- employer_fields employer ;;
  let '(employer_name, employer_orgnr, employer_desc, employer_homepage) := emp in
  locations <- get_default ad "workLocations" (JArr []) ;;
  loc <- (if truthy locations then getitem0 locations else Ok (JObj [])) ;;
  link <- get ad "link" ;;
  title <- get ad "title" ;;
  description <- get ad "description" ;;
  municipal <- get loc "municipal" ;;
  county <- get loc "county" ;;
  extent <- get ad "extent" ;;
  engagementtype <- get ad "engagementtype" ;;
  sector <- get ad "sector" ;;
  source <- get ad "source" ;;
  updated <- get ad "updated" ;;
  nav_updated <- parse_dt_or nav_updated_at updated ;;
  expires_str <- get ad "expires" ;;
  expires <- parse_dt expires_str ;;
  starttime <- get ad "starttime" ;;
  positioncount <- get ad "positioncount" ;;
  applicationUrl <- get ad "applicationUrl" ;;
  published_str <- get ad "published" ;;
  published <- parse_dt published_str ;;
  jobtitle <- get ad "jobtitle" ;;
  applicationDue <- get ad "applicationDue" ;;
  Ok [UpsertJob
        {| nav_uuid := uuid;
           job_url := link;
           job_title := title;
           company := employer_name;
           job_text_html := description;
           kommune := municipal;
           fylke := county;
           omfang := extent;
           ansettelsesform := engagementtype;
           sektor := sector;
           frist_dato := parse_application_due applicationDue;
           kilde := source;
           nav_updated_at := nav_updated;
           status := status;
           expires := expires;
           engagementtype := engagementtype;
           extent := extent;
           starttime := starttime;
           positioncount := positioncount;
           sector := sector;
           applicationurl := applicationUrl;
           created_at := now;
           published := published;
           job_title_official := jobtitle;
           employer_orgnr := employer_orgnr;
           employer_description := employer_desc;
           employer_homepage := employer_homepage |}].

(** *** The child tables *)

(** The loop shared by [_insert_locations], [_insert_categories] and
    [_insert_occupations]: an entry is appended to [data] when its key is
    not yet in [seen].  [key_of] reads the key fields, [row_of] builds the
    row to insert. *)
Fixpoint insert_unique {R : Type} (key_of : json -> result (list json))
    (row_of : json -> result R) (entries : list json)
    (seen : list (list json)) (data : list R) : result (list R) :=
  match entries with
  | [] => Ok data
  | x :: rest =>
      key <- key_of x ;;
      _ <- hash_tuple key ;;
      if tuple_in key seen
      then insert_unique key_of row_of rest seen data
      else
        row <- row_of x ;;
        insert_unique key_of row_of rest (key :: seen) (data ++ [row])
  end.

Definition location_key (loc : json) : result (list json) :=
  address <- get loc "address" ;;
  city <- get loc "city" ;;
  postalCode <- get loc "postalCode" ;;
  country <- get loc "country" ;;
  municipal <- get loc "municipal" ;;
  county <- get loc "county" ;;
  Ok [address; city; postalCode; country; municipal; county].

Definition location_row_of (uuid loc : json) : result location_row :=
  address <- get loc "address" ;;
  city <- get loc "city" ;;
  postalCode <- get loc "postalCode" ;;
  county <- get loc "county" ;;
  municipal <- get loc "municipal" ;;
  country <- get loc "country" ;;
  Ok {| loc_nav_uuid := uuid;
        loc_address := address;
        loc_city := city;
        loc_postal_code := postalCode;
        loc_county := county;
        loc_municipal := municipal;
        loc_country := country |}.

Definition _insert_locations (uuid locations : json) : result (list stmt) :=
  if negb (truthy locations) then Ok []
  else
    entries <- iter locations ;;
    data <- insert_unique location_key (location_row_of uuid) entries [] [] ;;
    match data with
    | [] => Ok []
    | _ :: _ => Ok [InsertLocations data]
    end.

Definition contact_row_of (uuid c : json) : result contact_row :=
  name <- get c "name" ;;
  email <- get c "email" ;;
  phone <- get c "phone" ;;
  role <- get c "role" ;;
  title <- get c "title" ;;
  Ok {| con_nav_uuid := uuid;
        con_name := name;
        con_email := email;
        con_phone := phone;
        con_role := role;
        con_title := title |}.

(** The loop of [_insert_contacts]: every entry gives a row. *)
Fixpoint contact_rows (uuid : json) (contacts : list json) (data : list contact_row)
    : result (list contact_row) :=
  match contacts with
  | [] => Ok data
  | c :: rest =>
      row <- contact_row_of uuid c ;;
      contact_rows uuid rest (data ++ [row])
  end.

Definition _insert_contacts (uuid contacts : json) : result (list stmt) :=
  if negb (truthy contacts) then Ok []
  else
    entries <- iter contacts ;;
    data <- contact_rows uuid entries [] ;;
    match data with
    | [] => Ok []
    | _ :: _ => Ok [InsertContacts data]
    end.

Definition category_key (c : json) : result (list json) :=
  categoryType <- get c "categoryType" ;;
  code <- get c "code" ;;
  name <- get c "name" ;;
  Ok [categoryType; code; name].

Definition category_row_of (uuid c : json) : result category_row :=
  categoryType <- get c "categoryType" ;;
  code <- get c "code" ;;
  name <- get c "name" ;;
  Ok {| cat_nav_uuid := uuid;
        cat_category_type := categoryType;
        cat_code := code;
        cat_name := name |}.

Definition _insert_categories (uuid categories : json) : result (list stmt) :=
  if negb (truthy categories) then Ok []
  else
    entries <- iter categories ;;
    data <- insert_unique category_key (category_row_of uuid) entries [] [] ;;
    match data with
    | [] => Ok []
    | _ :: _ => Ok [InsertCategories data]
    end.

Definition occupation_key (o : json) : result (list json) :=
  l1 <- get o "level1" ;;
  l2 <- get o "level2" ;;
  Ok [l1; l2].

Definition occupation_row_of (uuid o : json) : result occupation_row :=
  l1 <- get o "level1" ;;
  l2 <- get o "level2" ;;
  Ok {| occ_nav_uuid := uuid; occ_level1 := l1; occ_level2 := l2 |}.

Definition _insert_occupations (uuid occupations : json) : result (list stmt) :=
  if negb (truthy occupations) then Ok []
  else
    entries <- iter occupations ;;
    data <- insert_unique occupation_key (occupation_row_of uuid) entries [] [] ;;
    match data with
    | [] => Ok []
    | _ :: _ => Ok [InsertOccupations data]
    end.

(** *** [save_job]

    The result is the list of statements of the transaction; it is empty
    when the record has no [uuid], in which case no transaction is opened. *)
Definition save_job (now : datetime) (job_data : json) : result (list stmt) :=
  uuid <- get job_data "uuid" ;;
  if negb (truthy uuid) then Ok []
  else
    job <- _upsert_nav_job now job_data ;;
    ad_content <- get_default job_data "ad_content" (JObj []) ;;
    workLocations <- get_default ad_content "workLocations" (JArr []) ;;
    locations <- _insert_locations uuid workLocations ;;
    contactList <- get_default ad_content "contactList" (JArr []) ;;
    contacts <- _insert_contacts uuid contactList ;;
    categoryList <- get_default ad_content "categoryList" (JArr []) ;;
    categories <- _insert_categories uuid categoryList ;;
    occupationCategories <- get_default ad_content "occupationCategories" (JArr []) ;;
    occupations <- _insert_occupations uuid occupationCategories ;;
    Ok (job
        ++ [DeleteLocations uuid] ++ locations
        ++ [DeleteContacts uuid] ++ contacts
        ++ [DeleteCategories uuid] ++ categories
        ++ [DeleteOccupations uuid] ++ occupations)%list.

(** *** The cursor *)

(** [SELECT next_url, last_job_date FROM nav_feed_state ORDER BY id DESC
    LIMIT 1]: the row inserted last, if any; the pair stands for the
    dictionary with the keys [next_url] and [last_job_date]. *)
Definition get_last_feed_state (s : store) : option (json * json) :=
  match rev (nav_feed_state s) with
  | [] => None
  | row :: _ => Some (fs_next_url row, fs_last_job_date row)
  end.

Definition update_feed_state (now : datetime) (next_url last_job_date metadata : json)
    : result (list stmt) :=
  let metadata := py_or metadata (JObj []) in
  title <- get metadata "title" ;;
  home_page_url <- get metadata "home_page_url" ;;
  feed_url <- get metadata "feed_url" ;;
  description <- get metadata "description" ;;
  Ok [DeleteFeedState;
      InsertFeedState
        {| fs_next_url := next_url;
           fs_last_job_date := last_job_date;
           fs_updated_at := now;
           fs_title := title;
           fs_home_page_url := home_page_url;
           fs_feed_url := feed_url;
           fs_description := description |}].

(** *** What a saved record leaves in the child tables *)

(** The key fields of a stored row, in the order of the tuple the writer
    builds for the entry. *)
Definition location_row_key (r : location_row) : list json :=
  [loc_address r; loc_city r; loc_postal_code r; loc_country r; loc_municipal r; loc_county r].

Definition category_row_key (r : category_row) : list json :=
  [cat_category_type r; cat_code r; cat_name r].

Definition occupation_row_key (r : occupation_row) : list json :=
  [occ_level1 r; occ_level2 r].

(** The rows of a table that belong to the record [uuid]. *)
Definition rows_for {R : Type} (key : R -> json) (uuid : json) (t : list R) : list R :=
  filter (fun r => json_eqb (key r) uuid) t.

(** The entries of the child collection [k] of a detail record, as
    [save_job] goes through them: none when the collection is missing or
    empty. *)
Definition entries_of (v : json) : list json :=
  if truthy v
  then match iter v with Ok entries => entries | Raise _ => [] end
  else [].

Definition child_entries (job_data : json) (k : string) : list json :=
  match (ad_content <- get_default job_data "ad_content" (JObj []) ;;
         get_default ad_content k (JArr [])) with
  | Ok v => entries_of v
  | Raise _ => []
  end.

(** [data] is [entries] deduplicated by key: each row is the row of an
    entry, no two rows have equal keys, every entry has a row with its
    key, and two entries whose keys differ have two different rows. *)
Definition deduplicated {R : Type} (key_of : json -> result (list json))
    (row_of : json -> result R) (row_key : R -> list json)
    (entries : list json) (data : list R) : Prop :=
  (forall r, In r data -> exists x, In x entries /\ row_of x = Ok r)
  /\ ForallOrdPairs (fun r1 r2 => tuple_eq (row_key r1) (row_key r2) = false) data
  /\ (forall x, In x entries ->
        exists k r, key_of x = Ok k /\ In r data /\ tuple_eq (row_key r) k = true)
  /\ (forall x y kx ky,
        In x entries -> In y entries ->
        key_of x = Ok kx -> key_of y = Ok ky -> tuple_eq kx ky = false ->
        exists rx ry,
          In rx data /\ In ry data /\ rx <> ry
          /\ tuple_eq (row_key rx) kx = true /\ tuple_eq (row_key ry) ky = true).

(** [data] holds one row for each entry, in the order of the entries. *)
Definition verbatim {R : Type} (row_of : json -> result R)
    (entries : list json) (data : list R) : Prop :=
  Forall2 (fun x r => row_of x = Ok r) entries data.

(** *** Date fields *)


(** The detail record [job] with the field [f] of its [ad_content] set to
    [None]. *)
Definition without_field (job : json) (f : string) : json :=
  match job with
  | JObj kvs =>
      match assoc "ad_content" kvs with
      | Some (JObj ad) => JObj (set_key "ad_content" (JObj (set_key f JNull ad)) kvs)
      | _ => job
      end
  | _ => job
  end.

(** A write of the cursor: the time of the call and the arguments
    [next_url], [last_job_date] and [metadata] of [update_feed_state]. *)
Definition cursor_write : Type := datetime * json * json * json.

Definition cursor_block (c : cursor_write) : result (list stmt) :=
  let '(now, next_url, last_job_date, metadata) := c in
  update_feed_state now next_url last_job_date metadata.

(** The stores that can be observed while the cursor is written again and
    again from [s]: for each write, the states inside its transaction and
    the committed one. *)
Fixpoint cursor_history (s : store) (writes : list cursor_write) : list store :=
  match writes with
  | [] => []
  | c :: rest =>
      match cursor_block c with
      | Ok q => transaction_states q s ++ cursor_history (transaction (Ok q) s) rest
      | Raise e => cursor_history (transaction (Raise e) s) rest
      end
  end.

End Writer.

End DBWriter.

Export DBWriter.

(** ** [db_writer.py]: the columns the writer makes sure of

    [_ensure_columns] works on the catalogue of the database, not on the
    rows: the catalogue is modelled on its own.  Names are compared as
    they are written (the names of the program are all in lower case,
    which PostgreSQL keeps), and a table is known by its name alone. *)

Module Schema.

Local Open Scope string_scope.

(** The columns of a table, each with its type, in the order in which
    they were added. *)
Definition columns : Type := list (string * string).

(** [information_schema.columns]: the tables and their columns. *)
Definition catalog : Type := list (string * columns).

(** What the database answers to an [ALTER TABLE] it refuses. *)
Inductive db_error : Type :=
| UndefinedTable
| DuplicateColumn.

Fixpoint table_columns (table_name : string) (c : catalog) : option columns :=
  match c with
  | [] => None
  | (t, cols) :: rest => if t =? table_name then Some cols else table_columns table_name rest
  end.

(** [SELECT column_name FROM information_schema.columns WHERE table_name
    = '...'], gathered in the set [existing]. *)
Definition existing_columns (table_name : string) (c : catalog) : list string :=
  match table_columns table_name c with
  | Some cols => map fst cols
  | None => []
  end.

(** [col in existing] *)
Definition has_name (col : string) (existing : list string) : bool :=
  existsb (String.eqb col) existing.

(** [ALTER TABLE table_name ADD COLUMN col dtype] *)
Fixpoint add_column (table_name col dtype : string) (c : catalog) : catalog + db_error :=
  match c with
  | [] => inr UndefinedTable
  | (t, cols) :: rest =>
      if t =? table_name then
        if has_name col (map fst cols) then inr DuplicateColumn
        else inl ((t, (cols ++ [(col, dtype)])%list) :: rest)
      else
        match add_column table_name col dtype rest with
        | inl rest' => inl ((t, cols) :: rest')
        | inr e => inr e
        end
  end.

(** The loop of [_ensure_columns] over [columns.items()].  [existing] is
    read once, before the loop.  Every [ALTER TABLE] is committed on its
    own, so the columns added before a failure stay. *)
Fixpoint ensure_loop (table_name : string) (existing : list string)
    (required : list (string * string)) (c : catalog) : catalog * option db_error :=
  match required with
  | [] => (c, None)
  | (col, dtype) :: rest =>
      if has_name col existing then ensure_loop table_name existing rest c
      else
        match add_column table_name col dtype c with
        | inl c' => ensure_loop table_name existing rest c'
        | inr e => (c, Some e)
        end
  end.

Definition _ensure_columns (table_name : string) (required : list (string * string))
    (c : catalog) : catalog * option db_error :=
  ensure_loop table_name (existing_columns table_name c) required c.

Definition ensure_feed_state_schema (c : catalog) : catalog * option db_error :=
  let required_columns :=
    [("title", "TEXT");
     ("home_page_url", "TEXT");
     ("feed_url", "TEXT");
     ("description", "TEXT")] in
  _ensure_columns "nav_feed_state" required_columns c.

Definition ensure_job_schema_enhancements (c : catalog) : catalog * option db_error :=
  let required_columns :=
    [("published", "TIMESTAMP");
     ("job_title_official", "TEXT");
     ("employer_orgnr", "VARCHAR(50)");
     ("employer_description", "TEXT");
     ("employer_homepage", "TEXT")] in
  _ensure_columns "nav_jobs" required_columns c.

(** The required columns that [cols] does not have yet. *)
Definition missing (cols : columns) (required : list (string * string))
    : list (string * string) :=
  filter (fun cd => negb (has_name (fst cd) (map fst cols))) required.

End Schema.

Export Schema.

(** ** [nav_client.py] *)

Module NavClient.

Local Open Scope string_scope.

Definition DEFAULT_API_URL : string := "https://pam-stilling-feed.nav.no".

(** A [NavClient] object; its session and headers belong to [Env]. *)
Record client : Type := mk_client {
  api_url : string
}.

(** [NavClient(api_token, api_url)]: [api_url or self.DEFAULT_API_URL]. *)
Definition new_client (url : option string) : client :=
  match url with
  | Some u => if u =? "" then mk_client DEFAULT_API_URL else mk_client u
  | None => mk_client DEFAULT_API_URL
  end.

Section Client.

Context {E : Env}.

(** The loop of [_make_request] with [remaining] attempts left.  Only a
    [RequestException] is caught; on the last attempt it is raised again.
    With no attempt at all the function falls off its end and returns
    [None].  The sleep between two attempts is not modelled. *)
Fixpoint attempts (url : string) (params : list (string * string)) (remaining : nat)
    (w : World) : result json * World :=
  match remaining with
  | O => (Ok JNull, w)
  | S k =>
      match session_request url params w with
      | (Ok data, w') => (Ok data, w')
      | (Raise RequestException, w') =>
          match k with
          | O => (Raise RequestException, w')
          | S _ => attempts url params k w'
          end
      | (Raise e, w') => (Raise e, w')
      end
  end.

(** Every request of the program is a [GET]; [params=None] is the empty
    list of parameters. *)
Definition _make_request (self : client) (endpoint : string) (params : list (string * string))
    (retries : nat) (w : World) : result json * World :=
  attempts (api_url self ++ endpoint) params retries w.

Definition get_feed_page (self : client) (page_id : json) (last : bool) (w : World)
    : result json * World :=
  if truthy page_id
  then _make_request self ("/api/v1/feed/" ++ str page_id) [] 3 w
  else _make_request self "/api/v1/feed" (if last then [("last", "true")] else []) 3 w.

Definition get_feed_entry (self : client) (entry_id : json) (w : World) : result json * World :=
  _make_request self ("/api/v1/feedentry/" ++ str entry_id) [] 3 w.

(** *** [fetch_feed_pages]

    The generator object: created and not yet started, suspended at its
    [yield] on the page it has just delivered, or finished. *)
Inductive generator : Type :=
| Created (start_page_id : json) (last : bool)
| Suspended (page_data : json)
| Finished.

(** [next(g)]: [Ok None] is [StopIteration].  An exception inside the
    generator leaves it finished. *)
Definition next (self : client) (g : generator) (w : World)
    : result (option json) * generator * World :=
  match g with
  | Created start_page_id last =>
      let current_page_id := start_page_id in
      let (r, w') :=
        if negb (truthy current_page_id)
        then get_feed_page self JNull last w
        else get_feed_page self current_page_id false w in
      match r with
      | Ok page_data => (Ok (Some page_data), Suspended page_data, w')
      | Raise e => (Raise e, Finished, w')
      end
  | Suspended page_data =>
      match get page_data "next_id" with
      | Raise e => (Raise e, Finished, w)
      | Ok next_id =>
          if negb (truthy next_id) then (Ok None, Finished, w)
          else
            let current_page_id := next_id in
            let (r, w') := get_feed_page self current_page_id false w in
            match r with
            | Ok page_data' => (Ok (Some page_data'), Suspended page_data', w')
            | Raise e => (Raise e, Finished, w')
            end
      end
  | Finished => (Ok None, Finished, w)
  end.

(** How a traversal that hands over at most [fuel] pages ends. *)
Inductive walk_end : Type :=
| Exhausted
| Failed (e : exn)
| Unfinished (g : generator).

(** The pages [for page in fetch_feed_pages(...)] goes through. *)
Fixpoint walk (self : client) (fuel : nat) (g : generator) (w : World)
    : list json * walk_end * World :=
  match fuel with
  | O => ([], Unfinished g, w)
  | S k =>
      match next self g w with
      | (Ok (Some page), g', w') =>
          let '(pages, e, w'') := walk self k g' w' in (page :: pages, e, w'')
      | (Ok None, _, w') => ([], Exhausted, w')
      | (Raise e, _, w') => ([], Failed e, w')
      end
  end.

(** The page [p] has no next pointer. *)
Definition no_next (p : json) : Prop :=
  exists next_id, get p "next_id" = Ok next_id /\ truthy next_id = false.

(** [q] is the page the next pointer of [p] leads to. *)
Definition follows (self : client) (p q : json) : Prop :=
  exists next_id w w',
    get p "next_id" = Ok next_id
    /\ truthy next_id = true
    /\ get_feed_page self next_id false w = (Ok q, w').

(** Each page of [rest] follows the one before it, the first one [p]. *)
Fixpoint linked (self : client) (p : json) (rest : list json) : Prop :=
  match rest with
  | [] => True
  | q :: rest' => follows self p q /\ linked self q rest'
  end.

End Client.

End NavClient.

Export NavClient.

(** ** [main.py] *)

Module Main.

Local Open Scope string_scope.
Local Open Scope Z_scope.

(** The command line, already parsed.  [filter_date] is the naive midnight
    [datetime.strptime(args.start_date, "%Y-%m-%d")] gives, when
    [--start-date] is present. *)
Record args : Type := mk_args {
  limit : option Z;
  reset : bool;
  start_from_beginning : bool;
  filter_date : option wallclock;
  start_page_id : option string
}.

(** What the run writes to its logger.  The progress messages at level
    [info] other than the closing summary are left out. *)
Inductive log_entry : Type :=
| ErrorProcessingItem (item_id : json) (e : exn)
| SyncComplete (fetched skipped : Z)
| AnErrorOccurred (e : exn).

(** How the [for page in page_iterator] loop ends. *)
Inductive loop_end : Type :=
| FeedExhausted
| LimitReached (page : json)
| OutOfFuel.

Section Sync.

Context {E : Env}.

(** The mutable state of a run: the network, the database, the two
    counters of [main] and the log. *)
Record run_state : Type := mk_run_state {
  world : World;
  db : store;
  fetched_count : Z;
  skipped_count : Z;
  log : list log_entry
}.

(** Computations on the state of the run that may raise.  The state
    survives an exception: nothing but a database transaction is undone. *)
Definition M (A : Type) : Type := run_state -> result A * run_state.

Definition ret {A : Type} (a : A) : M A := fun st => (Ok a, st).

Definition mbind {A B : Type} (m : M A) (k : A -> M B) : M B :=
  fun st =>
    match m st with
    | (Ok a, st') => k a st'
    | (Raise e, st') => (Raise e, st')
    end.

Definition lift {A : Type} (r : result A) : M A := fun st => (r, st).

Notation "x <~ m ;; k" := (mbind m (fun x => k))
  (at level 100, m at next level, right associativity).

Definition set_world (w : World) (st : run_state) : run_state :=
  mk_run_state w (db st) (fetched_count st) (skipped_count st) (log st).

Definition set_db (s : store) (st : run_state) : run_state :=
  mk_run_state (world st) s (fetched_count st) (skipped_count st) (log st).

Definition add_log (l : log_entry) (st : run_state) : run_state :=
  mk_run_state (world st) (db st) (fetched_count st) (skipped_count st) (log st ++ [l]).

(** [skipped_count += 1] *)
Definition incr_skipped : M unit :=
  fun st => (Ok tt, mk_run_state (world st) (db st) (fetched_count st) (skipped_count st + 1) (log st)).

(** [fetched_count += 1] *)
Definition incr_fetched : M unit :=
  fun st => (Ok tt, mk_run_state (world st) (db st) (fetched_count st + 1) (skipped_count st) (log st)).

(** [db.save_job(details)]: the clock is read for [created_at], the
    transaction runs. *)
Definition db_save_job (details : json) : M unit :=
  fun st =>
    let (now, w) := datetime_now (world st) in
    let block := save_job now details in
    match block with
    | Ok _ => (Ok tt, set_world w (set_db (transaction block (db st)) st))
    | Raise e => (Raise e, set_world w st)
    end.

(** [db.update_feed_state(next_url=..., metadata=...)] *)
Definition db_update_feed_state (next_url metadata : json) : M unit :=
  fun st =>
    let (now, w) := datetime_now (world st) in
    let block := update_feed_state now next_url JNull metadata in
    match block with
    | Ok _ => (Ok tt, set_world w (set_db (transaction block (db st)) st))
    | Raise e => (Raise e, set_world w st)
    end.

(** [args.limit and fetched_count >= args.limit] *)
Definition limit_reached (a : args) (fetched : Z) : bool :=
  match limit a with
  | Some n => negb (n =? 0) && (n <=? fetched)
  | None => false
  end.

(** *** Choosing the start *)

(** ["/feed/" in x] *)
Definition feed_in (x : json) : result bool :=
  match x with
  | JStr s => Ok (contains "/feed/" s)
  | JArr xs => Ok (existsb (fun v => eq_str v "/feed/") xs)
  | JObj kvs => Ok (existsb (fun kv => fst kv =? "/feed/")%string kvs)
  | _ => Raise TypeError
  end.

(** [x.split("/feed/")[-1]] *)
Definition after_feed (x : json) : result json :=
  match x with
  | JStr s => Ok (JStr (split_last "/feed/" s))
  | _ => Raise AttributeError
  end.

(** Lines 73 to 95: the generator the run iterates over.  [state] is the
    result of [get_last_feed_state]. *)
Definition resolve_start (a : args) (state : option (json * json)) : result generator :=
  let anchor :=
    if start_from_beginning a && reset a
    then Ok (Created JNull false)
    else Ok (Created JNull true) in
  let from_state :=
    match state with
    | Some (next_url, _) =>
        if truthy next_url then
          has_feed <- feed_in next_url ;;
          if has_feed
          then id <- after_feed next_url ;; Ok (Created id false)
          else Ok (Created next_url false)
        else anchor
    | None => anchor
    end in
  match start_page_id a with
  | Some id => if truthy (JStr id) then Ok (Created (JStr id) false) else from_state
  | None => from_state
  end.

(** *** One page *)

(** The test of lines 123 to 132: is the date of the feed summary before
    the threshold?  A [ValueError] of the parser is caught; its
    [TypeError] on a value that is not a string is not. *)
Definition summary_older (a : args) (item : json) : result bool :=
  match filter_date a with
  | None => Ok false
  | Some fd =>
      summary_date_str <- get item "date_modified" ;;
      if truthy summary_date_str then
        match summary_date_str with
        | JStr s =>
            match fromisoformat s with
            | Some d => Ok (naive_lt (replace_tzinfo_none d) fd)
            | None => Ok false
            end
        | _ => Raise TypeError
        end
      else Ok false
  end.

(** The loop of lines 116 to 133 over the items still to look at. *)
Fixpoint prefilter (a : args) (items seen_ids_in_batch items_to_fetch : list json)
    : M (list json) :=
  match items with
  | [] => ret items_to_fetch
  | item :: rest =>
      item_id <~ lift (get item "id") ;;
      dup <~ lift (set_in item_id seen_ids_in_batch) ;;
      if dup then prefilter a rest seen_ids_in_batch items_to_fetch
      else
        older <~ lift (summary_older a item) ;;
        if older
        then _ <~ incr_skipped ;; prefilter a rest (item_id :: seen_ids_in_batch) items_to_fetch
        else prefilter a rest (item_id :: seen_ids_in_batch) (items_to_fetch ++ [item])
  end.

(** [[i["id"] for i in items_to_fetch]] *)
Fixpoint fetch_ids (items_to_fetch : list json) : result (list json) :=
  match items_to_fetch with
  | [] => Ok []
  | i :: rest =>
      id <- getitem i "id" ;;
      ids <- fetch_ids rest ;;
      Ok (id :: ids)
  end.

(** The thread pool: [client.get_feed_entry] is run for every submitted
    item.  The requests are taken in the order of submission; the order
    in which the results are handed over is that of [as_completed]. *)
Fixpoint submit_all (self : client) (items : list (json * json)) (w : World)
    : list (json * result json) * World :=
  match items with
  | [] => ([], w)
  | (item, id) :: rest =>
      let (r, w1) := get_feed_entry self id w in
      let (futures, w2) := submit_all self rest w1 in
      ((item, r) :: futures, w2)
  end.

Definition run_pool (self : client) (items : list (json * json)) : M (list (json * result json)) :=
  fun st =>
    let (futures, w) := submit_all self items (world st) in
    (Ok (as_completed w futures), set_world w st).

(** The test of lines 174 to 184: is the date of the detail record before
    the threshold?  The bare [except] swallows every exception of the
    parser. *)
Definition detail_older (a : args) (details : json) : result bool :=
  match filter_date a with
  | None => Ok false
  | Some fd =>
      ad <- get_default details "ad_content" (JObj []) ;;
      published <- get ad "published" ;;
      updated <- get ad "updated" ;;
      let date_str := py_or published updated in
      if truthy date_str then
        match date_str with
        | JStr s =>
            match fromisoformat s with
            | Some d => Ok (naive_lt (replace_tzinfo_none d) fd)
            | None => Ok false
            end
        | _ => Ok false
        end
      else Ok false
  end.

(** The body of the [try] of lines 158 to 196 for one completed future.
    The result tells whether the loop is left by [break]. *)
Definition process_future (a : args) (future : result json) : M bool :=
  details <~ lift future ;;
  if negb (truthy details) then _ <~ incr_skipped ;; ret false
  else
    status <~ lift (get details "status") ;;
    ad_content <~ lift (get details "ad_content") ;;
    if eq_str status "INACTIVE" || negb (truthy ad_content)
    then _ <~ incr_skipped ;; ret false
    else
      older <~ lift (detail_older a details) ;;
      if older then _ <~ incr_skipped ;; ret false
      else
        _ <~ db_save_job details ;;
        _ <~ incr_fetched ;;
        fun st => (Ok (limit_reached a (fetched_count st)), st).

(** [item_ref.get('id')] in the handler; [item_ref] is a dictionary. *)
Definition item_id_of (item_ref : json) : json :=
  match get item_ref "id" with
  | Ok v => v
  | Raise _ => JNull
  end.

(** The loop of lines 156 to 199 over the completed futures: an exception
    of the body is logged with the item and the loop goes on. *)
Fixpoint process_completed (a : args) (done : list (json * result json)) : M unit :=
  match done with
  | [] => ret tt
  | (item_ref, future) :: rest =>
      fun st =>
        match process_future a future st with
        | (Ok true, st') => (Ok tt, st')
        | (Ok false, st') => process_completed a rest st'
        | (Raise e, st') =>
            process_completed a rest (add_log (ErrorProcessingItem (item_id_of item_ref) e) st')
        end
  end.

(** The metadata dictionary built from the page. *)
Definition page_metadata (page : json) : result json :=
  title <- get page "title" ;;
  description <- get page "description" ;;
  Ok (JObj [("title", title); ("description", description)]).

(** The body of [for page in page_iterator]; the result tells whether the
    loop is left by [break]. *)
Definition process_page (self : client) (a : args) (page : json) : M bool :=
  items <~ lift (get_default page "items" (JArr [])) ;;
  _ <~ lift (len items) ;;
  entries <~ lift (iter items) ;;
  items_to_fetch <~ prefilter a entries [] [] ;;
  match items_to_fetch with
  | [] =>
      next_url <~ lift (get page "next_url") ;;
      _ <~ (if truthy next_url then db_update_feed_state next_url JNull else ret tt) ;;
      ret false
  | _ :: _ =>
      ids <~ lift (fetch_ids items_to_fetch) ;;
      done <~ run_pool self (combine items_to_fetch ids) ;;
      _ <~ process_completed a done ;;
      fun st =>
        if limit_reached a (fetched_count st) then
          (current_id <~ lift (get page "id") ;;
           _ <~ (if truthy current_id then
                   metadata <~ lift (page_metadata page) ;;
                   db_update_feed_state (JStr ("/api/v1/feed/" ++ str current_id)) metadata
                 else ret tt) ;;
           ret true) st
        else
          (next_url <~ lift (get page "next_url") ;;
           current_id <~ lift (get page "id") ;;
           let next_url :=
             if negb (truthy next_url) && truthy current_id
             then JStr ("/api/v1/feed/" ++ str current_id)
             else next_url in
           _ <~ (if truthy next_url then
                   metadata <~ lift (page_metadata page) ;;
                   db_update_feed_state next_url metadata
                 else ret tt) ;;
           ret false) st
  end.

(** *** Why an item is skipped *)

(** The four tests that add to [skipped_count]. *)
Inductive skip_reason : Type :=
| SummaryBeforeThreshold
| NoDetails
| InactiveOrNoContent
| DetailBeforeThreshold.

(** The test of the [try] body a fetched detail record fails, if any. *)
Definition skip_reason_of (a : args) (details : json) : option skip_reason :=
  if negb (truthy details) then Some NoDetails
  else
    match get details "status", get details "ad_content" with
    | Ok status, Ok ad_content =>
        if eq_str status "INACTIVE" || negb (truthy ad_content)
        then Some InactiveOrNoContent
        else
          match detail_older a details with
          | Ok true => Some DetailBeforeThreshold
          | _ => None
          end
    | _, _ => None
    end.

(** The items of a page the loop of lines 116 to 133 skips for the date
    of their summary, [seen] being the identifiers met before. *)
Fixpoint summary_skipped (a : args) (items seen : list json) : list json :=
  match items with
  | [] => []
  | item :: rest =>
      match get item "id" with
      | Ok item_id =>
          match set_in item_id seen with
          | Ok false =>
              match summary_older a item with
              | Ok true => item :: summary_skipped a rest (item_id :: seen)
              | _ => summary_skipped a rest (item_id :: seen)
              end
          | _ => summary_skipped a rest seen
          end
      | Raise _ => []
      end
  end.

(** *** The run *)

(** [next(page_iterator)] on the network of the run. *)
Definition next_page (self : client) (g : generator) : M (option json * generator) :=
  fun st =>
    match next self g (world st) with
    | (Ok p, g', w) => (Ok (p, g'), set_world w st)
    | (Raise e, _, w) => (Raise e, set_world w st)
    end.

(** The loop over the pages, for at most [fuel] pages. *)
Fixpoint sync_loop (self : client) (a : args) (fuel : nat) (g : generator) : M loop_end :=
  match fuel with
  | O => ret OutOfFuel
  | S k =>
      nx <~ next_page self g ;;
      match nx with
      | (None, _) => ret FeedExhausted
      | (Some page, g') =>
          brk <~ process_page self a page ;;
          if brk then ret (LimitReached page) else sync_loop self a k g'
      end
  end.

(** The state in which the loop is entered: [main] sets both counters to
    [0] before it (lines 97 and 98); [w] and [s] are the network and the
    database at that point. *)
Definition initial_state (w : World) (s : store) : run_state :=
  mk_run_state w s 0 0 [].

End Sync.

(** *** [main]

    How [main] ends. *)
Inductive main_end : Type :=
| MissingApiToken
| MissingDatabaseUrl
| DatabaseError (e : db_error)
| Uncaught (e : exn).

(** [if not v] for a value of [os.getenv]. *)
Definition unset (v : option string) : bool :=
  match v with
  | Some s => (s =? "")%string
  | None => true
  end.

(** [main], as far as it gets.  [api_token] and [db_url] are what
    [os.getenv] gives for the two environment variables, [c] is the
    catalogue of the database; the client and the writer are built in
    between, without a request or a connection.  [DBWriter] has no method
    [ensure_materialized_views]: the attribute lookup of line 41 raises
    [AttributeError] outside the [try], and [main] ends there whenever
    the two schema calls before it have gone through.  Nothing after
    that line is reached through [main]: the handling of [--reset], the
    choice of the start and the loop over the pages are embedded above,
    in [resolve_start], [process_page] and [sync_loop], and the
    properties of the run are stated on those. *)
Definition main (api_token db_url : option string) (c : catalog) : main_end * catalog :=
  if unset api_token then (MissingApiToken, c)
  else if unset db_url then (MissingDatabaseUrl, c)
  else
    let (c1, r1) := ensure_feed_state_schema c in
    match r1 with
    | Some e => (DatabaseError e, c1)
    | None =>
        let (c2, r2) := ensure_job_schema_enhancements c1 in
        match r2 with
        | Some e => (DatabaseError e, c2)
        | None => (Uncaught AttributeError, c2)
        end
    end.

End Main.

Export Main.

(** ** A sample environment

    A small server, clock and date reader on which the program can be run
    inside Rocq.  They serve the examples only: every general statement
    below holds for all environments. *)

Module Samples.

Local Open Scope string_scope.
Local Open Scope Z_scope.

Definition digit (c : ascii) : option Z :=
  let n := nat_of_ascii c in
  if (48 <=? n)%nat && (n <=? 57)%nat then Some (Z.of_nat (n - 48)) else None.

Definition number (cs : list ascii) : option Z :=
  fold_left
    (fun acc c =>
       match acc, digit c with
       | Some n, Some d => Some (10 * n + d)
       | _, _ => None
       end)
    cs (Some 0).

Definition leap (y : Z) : bool :=
  ((y mod 4 =? 0) && negb (y mod 100 =? 0)) || (y mod 400 =? 0).

Definition days_in_month (y m : Z) : Z :=
  if m =? 2 then (if leap y then 29 else 28)
  else if (m =? 4) || (m =? 6) || (m =? 9) || (m =? 11) then 30
  else 31.

(** The calendar form [YYYY-MM-DD], which [datetime.fromisoformat] reads
    as the naive midnight of that day; this reader refuses every other
    string. *)
Definition iso_date (s : string) : option datetime :=
  match list_ascii_of_string s with
  | [y1; y2; y3; y4; sep1; m1; m2; sep2; d1; d2] =>
      if Ascii.eqb sep1 "-" && Ascii.eqb sep2 "-" then
        match number [y1; y2; y3; y4], number [m1; m2], number [d1; d2] with
        | Some y, Some m, Some d =>
            if (1 <=? y) && (1 <=? m) && (m <=? 12) && (1 <=? d) && (d <=? days_in_month y m)
            then Some (mk_datetime (mk_wallclock y m d 0 0 0 0) None)
            else None
        | _, _, _ => None
        end
      else None
  | _ => None
  end.

(** A server that answers each address of [routes] with the response
    listed for it and fails on every other address. *)
Fixpoint route (routes : list (string * result json)) (url : string) : result json :=
  match routes with
  | [] => Raise RequestException
  | (u, r) :: rest => if (u =? url)%string then r else route rest url
  end.

(** The state of the sample world is the number of requests and clock
    readings made so far.  Futures complete in the order of submission,
    or in the reverse order when [reversed] is set. *)
Definition sample_env (routes : list (string * result json)) (reversed : bool) : Env :=
  {| World := nat;
     session_request := fun url _ w => (route routes url, S w);
     fromisoformat := iso_date;
     datetime_now := fun w => (mk_datetime (mk_wallclock 2025 1 1 0 0 (Z.of_nat w) 0) None, S w);
     as_completed := fun _ fs => if reversed then rev fs else fs |}.

Definition empty_store : store := mk_store [] [] [] [] [] [].

Definition no_args : args := mk_args None false false None None.

Definition base : string := "https://pam-stilling-feed.nav.no".

(** A detail record with two identical work locations. *)
Definition job_a : json :=
  JObj [("uuid", JStr "a");
        ("status", JStr "ACTIVE");
        ("sistEndret", JStr "2024-07-02");
        ("ad_content",
         JObj [("title", JStr "Kokk");
               ("published", JStr "2024-07-01");
               ("applicationDue", JStr "Snarest");
               ("employer", JObj [("name", JStr "Kafe AS"); ("orgnr", JStr "911")]);
               ("workLocations",
                JArr [JObj [("city", JStr "Oslo"); ("postalCode", JStr "0150")];
                      JObj [("city", JStr "Oslo"); ("postalCode", JStr "0150")]]);
               ("contactList",
                JArr [JObj [("name", JStr "Kari")]; JObj [("name", JStr "Kari")]])])].

Definition job_b : json :=
  JObj [("uuid", JStr "b"); ("status", JStr "INACTIVE")].

Definition job_c : json :=
  JObj [("uuid", JStr "c");
        ("status", JStr "ACTIVE");
        ("ad_content", JObj [("title", JStr "Servitor"); ("updated", JStr "2024-08-01")])].



(** A time of the clock. *)
Definition noon : datetime := mk_datetime (mk_wallclock 2025 1 1 12 0 0 0) None.

Definition evening : datetime := mk_datetime (mk_wallclock 2025 1 1 20 0 0 0) None.


(** A detail record with an empty identity. *)
Definition job_without_uuid : json :=
  JObj [("uuid", JStr ""); ("status", JStr "ACTIVE"); ("ad_content", JObj [("title", JStr "Ukjent")])].

Definition item_a : json := JObj [("id", JStr "a"); ("date_modified", JStr "2024-01-01")].

Definition item_b : json := JObj [("id", JStr "b"); ("date_modified", JStr "2024-07-03")].

Definition item_x : json := JObj [("id", JStr "x"); ("date_modified", JStr "2024-07-04")].

Definition page_1 : json :=
  JObj [("id", JStr "p1");
        ("next_id", JStr "p2");
        ("next_url", JStr "/api/v1/feed/p2");
        ("title", JStr "Stillinger");
        ("items", JArr [item_a; item_b])].

Definition page_2 : json :=
  JObj [("id", JStr "p2");
        ("title", JStr "Stillinger");
        ("items", JArr [JObj [("id", JStr "c"); ("date_modified", JStr "2024-08-01")]])].

Definition feed : list (string * result json) :=
  [(base ++ "/api/v1/feed", Ok page_1);
   (base ++ "/api/v1/feed/p1", Ok page_1);
   (base ++ "/api/v1/feed/p2", Ok page_2);
   (base ++ "/api/v1/feedentry/a", Ok job_a);
   (base ++ "/api/v1/feedentry/b", Ok job_b);
   (base ++ "/api/v1/feedentry/c", Ok job_c)]%string.

(** A page with an item whose detail record the server does not have. *)
Definition page_x : json :=
  JObj [("id", JStr "px");
        ("title", JStr "Stillinger");
        ("items", JArr [item_x; item_a])].

Definition feed_x : list (string * result json) :=
  [(base ++ "/api/v1/feed/px", Ok page_x);
   (base ++ "/api/v1/feedentry/a", Ok job_a)]%string.

(** The environments of the examples. *)
Definition env : Env := sample_env feed false.

Definition env_x : Env := sample_env feed_x false.

(** The threshold 1 June 2024. *)
Definition june : wallclock := mk_wallclock 2024 6 1 0 0 0 0.

(** [--start-page-id p1 --start-date 2024-06-01] *)
Definition args_since_june : args := mk_args None false false (Some june) (Some "p1").


(** [--start-page-id px] *)
Definition args_px : args := mk_args None false false None (Some "px").

End Samples.

(** ** Notions used to state the further properties *)

Module Notions.

Local Open Scope string_scope.
Local Open Scope list_scope.

Section Notions.

Context {E : Env}.

(** The identities held by [nav_jobs], in the order of the rows. *)
Definition job_ids (s : store) : list json := map nav_uuid (nav_jobs s).

(** Every child row belongs to a row of [nav_jobs]. *)
Definition children_have_parent (s : store) : Prop :=
  (forall r, In r (nav_job_locations s) -> In (loc_nav_uuid r) (job_ids s))
  /\ (forall r, In r (nav_job_contacts s) -> In (con_nav_uuid r) (job_ids s))
  /\ (forall r, In r (nav_job_categories s) -> In (cat_nav_uuid r) (job_ids s))
  /\ (forall r, In r (nav_job_occupations s) -> In (occ_nav_uuid r) (job_ids s)).

(** [l] is the beginning of [l']. *)
Definition prefix_of {A : Type} (l l' : list A) : Prop := exists rest, l' = l ++ rest.

(** The [uuid] of a detail record, [None] when it has none. *)
Definition uuid_of (details : json) : json :=
  match get details "uuid" with
  | Ok uuid => uuid
  | Raise _ => JNull
  end.

(** The identities [nav_jobs] holds once the records [ds] have been saved
    one after the other on a table that held [ids]: a record without
    identity adds none, a record whose [uuid] the table holds already
    adds none, every other record adds its [uuid] at the end. *)
Fixpoint ids_after (ids : list json) (ds : list json) : list json :=
  match ds with
  | [] => ids
  | d :: rest =>
      let u := uuid_of d in
      ids_after
        (if truthy u && negb (existsb (fun x => json_eqb x u) ids) then ids ++ [u] else ids)
        rest
  end.

(** [written a s ds s']: the store [s'] comes from [s] by the transactions
    a run with the arguments [a] can commit.  Each one is either
    [save_job] going through on a detail record that none of the tests of
    the run skips, or a write of the cursor; [ds] lists the records of the
    former, in the order of the calls. *)
Inductive written (a : args) (s : store) : list json -> store -> Prop :=
| written_nothing : written a s [] s
| written_job (ds : list json) (s' : store) (now : datetime) (details : json) :
    written a s ds s' ->
    skip_reason_of a details = None ->
    is_ok (save_job now details) = true ->
    written a s (ds ++ [details]) (transaction (save_job now details) s')
| written_cursor (ds : list json) (s' : store) (now : datetime) (next_url metadata : json)
    (q : list stmt) :
    written a s ds s' ->
    update_feed_state now next_url JNull metadata = Ok q ->
    written a s ds (transaction (Ok q) s').

(** The state [st'] of a run comes from [st] by such transactions, and
    [fetched_count] has grown by the number of records saved. *)
Definition run_step (a : args) (st st' : run_state) : Prop :=
  exists ds : list json,
    written a (db st) ds (db st')
    /\ fetched_count st' = (fetched_count st + Z.of_nat (List.length ds))%Z.



(** Whatever the outcome of the computation [m], the state it ends in is
    related by [R] to the state it started from. *)
Definition always {A : Type} (R : run_state -> run_state -> Prop) (m : M A) : Prop :=
  forall (st st' : run_state) (r : result A), m st = (r, st') -> R st st'.

(** Lines 60 to 65 of [main.py]: the cursor table is emptied under
    [--reset]. *)
Definition after_reset (a : args) (s : store) : store :=
  if reset a then transaction (Ok [DeleteFeedState]) s else s.

(** [l] is [l'] with some of its elements left out. *)
Inductive subsequence {A : Type} : list A -> list A -> Prop :=
| subsequence_nil : subsequence [] []
| subsequence_skip (x : A) (l l' : list A) : subsequence l l' -> subsequence l (x :: l')
| subsequence_keep (x : A) (l l' : list A) : subsequence l l' -> subsequence (x :: l) (x :: l').

(** No two items of [l] have equal identifiers, as Python compares them. *)
Definition distinct_ids (l : list json) : Prop :=
  ForallOrdPairs (fun x y => py_eq (item_id_of x) (item_id_of y) = false) l.

(** The status of a stored row is not [INACTIVE]. *)
Definition not_inactive (r : job_row) : Prop := eq_str (status r) "INACTIVE" = false.

(** The network after [n] requests for [url] made one after the other
    from [w]. *)
Fixpoint after_requests (url : string) (params : list (string * string)) (n : nat)
    (w : World) : World :=
  match n with
  | O => w
  | S k => after_requests url params k (snd (session_request url params w))
  end.

End Notions.

End Notions.

Export Notions.

(** ** [fast_forward.py] *)

Module FastForward.

Local Open Scope string_scope.

(** How the search ends. *)
Inductive outcome : Type :=
| Found (page_id : json)
| EndOfFeed
| OutOfFuel.

(** The local variables of [main] that live across the turns of the
    loop. *)
Record locals : Type := mk_locals {
  page : json;
  current_id : json;
  page_count : Z
}.

(** How one turn of the [while True] loop ends when it does not raise. *)
Inductive turn : Type :=
| Return (page_id : json)
| Break
| Continue.

Fixpoint last_char (c : ascii) (s : string) : ascii :=
  match s with
  | EmptyString => c
  | String d rest => last_char d rest
  end.

(** [x[-1]] *)
Definition getitem_last (x : json) : result json :=
  match x with
  | JArr [] => Raise IndexError
  | JArr (v :: rest) => Ok (List.last rest v)
  | JStr EmptyString => Raise IndexError
  | JStr (String c rest) => Ok (JStr (String (last_char c rest) ""))
  | JObj _ => Raise KeyError
  | _ => Raise TypeError
  end.

(** [x >= s] for a string [s].  Python orders text by code points, which
    is the order of the bytes of the UTF-8 encoding; a value that is not
    text cannot be compared with text. *)
Definition ge_text (x : json) (s : string) : result bool :=
  match x with
  | JStr t => Ok (String.leb s t)
  | _ => Raise TypeError
  end.

(** Lines 38 to 46: is the last item of the page dated at or after the
    target? *)
Definition reached (target_date_iso : string) (items : json) : result bool :=
  if truthy items then
    last_item <- getitem_last items ;;
    date_str <- get last_item "date_modified" ;;
    if truthy date_str then ge_text date_str target_date_iso else Ok false
  else Ok false.

Section Seek.

Context {E : Env}.

(** The page a turn of the loop works on: the one already held on the
    first turn, the one requested by [current_id] on the later ones. *)
Definition turn_page (self : client) (l : locals) (w : World) : result json * World :=
  if (0 <? page_count l)%Z
  then get_feed_page self (current_id l) false w
  else (Ok (page l), w).

(** The body of the [try]: the outcome of the turn, the local variables
    after it and the network.  An exception leaves the variables as the
    assignments made before it left them.  The progress message of every
    500th page is left out: it changes no variable, and an exception it
    raises is caught like the others. *)
Definition turn_body (self : client) (target_date_iso : string) (l : locals) (w : World)
    : result turn * locals * World :=
  let (fetched, w1) := turn_page self l w in
  match fetched with
  | Raise e => (Raise e, l, w1)
  | Ok page' =>
      let l1 := mk_locals page' (current_id l) (page_count l) in
      match (items <- get_default page' "items" (JArr []) ;;
             next_id <- get page' "next_id" ;;
             found <- reached target_date_iso items ;;
             if found then
               id <- get page' "id" ;;
               Ok (Return id, l1)
             else if negb (truthy next_id) then Ok (Break, l1)
             else Ok (Continue, mk_locals page' next_id (page_count l + 1)%Z)) with
      | Ok (t, l2) => (Ok t, l2, w1)
      | Raise e => (Raise e, l1, w1)
      end
  end.

(** The [while True] loop, for at most [fuel] turns.  An exception of the
    body is logged and, after a second, the loop goes on. *)
Fixpoint seek (self : client) (target_date_iso : string) (fuel : nat) (l : locals) (w : World)
    : outcome * World :=
  match fuel with
  | O => (OutOfFuel, w)
  | S k =>
      match turn_body self target_date_iso l w with
      | (Ok (Return id), _, w') => (Found id, w')
      | (Ok Break, _, w') => (EndOfFeed, w')
      | (Ok Continue, l', w') => seek self target_date_iso k l' w'
      | (Raise _, l', w') => seek self target_date_iso k l' w'
      end
  end.

(** [main]: the first request and the reading of its [id] are outside
    the [try]. *)
Definition main (target_date : string) (fuel : nat) (w : World) : result outcome * World :=
  let client := new_client None in
  let target_date_iso := target_date ++ "T00:00:00" in
  let (first, w1) := get_feed_page client JNull false w in
  match first with
  | Raise e => (Raise e, w1)
  | Ok page =>
      match get page "id" with
      | Raise e => (Raise e, w1)
      | Ok current_id =>
          let (o, w2) := seek client target_date_iso fuel (mk_locals page current_id 0) w1 in
          (Ok o, w2)
      end
  end.

(** The server answers the request for the page [id] with [p], whatever
    the state of the network. *)
Definition always_answers (self : client) (id p : json) : Prop :=
  forall w : World, exists w' : World, get_feed_page self id false w = (Ok p, w').

(** The pages [rest] follow [p] in the feed, each one answered by the
    server under the [next_id] of the one before. *)
Fixpoint chain (self : client) (p : json) (rest : list json) : Prop :=
  match rest with
  | [] => True
  | q :: rest' =>
      exists next_id,
        get p "next_id" = Ok next_id
        /\ truthy next_id = true
        /\ always_answers self next_id q
        /\ chain self q rest'
  end.

(** The test of the loop on the page [p]. *)
Definition page_reached (target_date_iso : string) (p : json) : result bool :=
  items <- get_default p "items" (JArr []) ;;
  reached target_date_iso items.

End Seek.

End FastForward.

(** ** More sample data *)

Module Cases.

Import Samples.

Local Open Scope string_scope.
Local Open Scope Z_scope.

(** A later version of the record [a]: another title, one location, no
    contact. *)
Definition job_a_later : json :=
  JObj [("uuid", JStr "a");
        ("status", JStr "ACTIVE");
        ("sistEndret", JStr "2024-09-01");
        ("ad_content",
         JObj [("title", JStr "Kjokkensjef");
               ("published", JStr "2024-07-01");
               ("workLocations",
                JArr [JObj [("city", JStr "Bergen"); ("municipal", JStr "BERGEN");
                            ("county", JStr "VESTLAND")]])])].

(** A detail record published at a number. *)
Definition job_f : json :=
  JObj [("uuid", JStr "f");
        ("status", JStr "ACTIVE");
        ("ad_content", JObj [("title", JStr "Maler"); ("published", JInt 1700000000)])].

(** The bindings of the [ad_content] of [job_f]. *)
Definition ad_f : list (string * json) :=
  [("title", JStr "Maler"); ("published", JInt 1700000000)].

(** A store that holds the record [c]. *)
Definition store_c : store :=
  transaction (save_job (E := env) noon job_c) empty_store.

(** A store that holds a cursor. *)
Definition store_with_cursor : store :=
  transaction (update_feed_state noon (JStr "/api/v1/feed/p2") JNull JNull) empty_store.

(** [--start-page-id p1] *)
Definition args_p1 : args := mk_args None false false None (Some "p1").

(** [--start-page-id p1 --start-from-beginning] *)
Definition args_p1_beginning : args := mk_args None false true None (Some "p1").

(** [--start-page-id p1 --limit 0] *)
Definition args_limit_0 : args := mk_args (Some 0) false false None (Some "p1").

(** [--reset] *)
Definition args_reset : args := mk_args None true false None None.

(** [--start-from-beginning] *)
Definition args_beginning : args := mk_args None false true None None.








(** A page all of whose items are dated before June 2024, the last of
    its feed. *)
Definition page_old : json :=
  JObj [("id", JStr "po"); ("title", JStr "Stillinger"); ("items", JArr [item_a])].

(** A page one of whose items is a string. *)
Definition page_bad : json :=
  JObj [("id", JStr "pb"); ("items", JArr [item_a; JStr "oops"])].

(** A database whose tables lack some of the columns. *)
Definition old_catalog : catalog :=
  [("nav_jobs", [("nav_uuid", "TEXT"); ("published", "TEXT")]);
   ("nav_feed_state", [("next_url", "TEXT"); ("title", "TEXT")])]%string.

(** The local variables of [fast_forward] at its second turn, on a page
    the sample server does not have. *)
Definition at_missing_page : FastForward.locals :=
  FastForward.mk_locals page_1 (JStr "zz") 1.

End Cases.

(* ================================================================== *)
(** * Part II: properties *)
(* ================================================================== *)

Local Open Scope string_scope.
Local Open Scope list_scope.

(** ** Python values *)

Lemma json_eqb_refl : forall j : json, json_eqb j j = true.
Proof.
  induction j as [| b | n | s | xs IH | kvs IH]; simpl.
  - reflexivity.
  - apply Bool.eqb_reflx.
  - apply Z.eqb_refl.
  - apply String.eqb_refl.
  - induction IH as [| x Hx xs' _ IHxs]; [reflexivity |].
    rewrite Hx. exact IHxs.
  - induction IH as [| [k v] Hkv kvs' _ IHkvs]; [reflexivity |].
    inversion Hkv as [a b Hu Hv]. rewrite String.eqb_refl, Hv. exact IHkvs.
Qed.

Lemma bind_ok {A B : Type} (r : result A) (k : A -> result B) (b : B) :
  bind r k = Ok b -> exists a, r = Ok a /\ k a = Ok b.
Proof.
  destruct r as [a | e]; simpl; intros H; [eauto | discriminate].
Qed.

(** Splits a hypothesis [x <- e ;; k = Ok b] into [e = Ok x] and
    [k x = Ok b]. *)
Ltac bind_inv H :=
  let x := fresh "x" in
  let Hx := fresh "Hx" in
  apply bind_ok in H; destruct H as [x [Hx H]].

Lemma get_dict (d : json) (k : string) (v : json) :
  get d k = Ok v -> exists kvs, d = JObj kvs.
Proof.
  destruct d; simpl; try discriminate. eauto.
Qed.

Lemma get_default_dict (d : json) (k : string) (dflt v : json) :
  get_default d k dflt = Ok v -> exists kvs, d = JObj kvs.
Proof.
  destruct d; simpl; try discriminate. eauto.
Qed.

(** ** The writer: records without identity (C9) *)

Section WriterFacts.

Context {E : Env}.

(** C9.  A record whose [uuid] is missing or empty (anything Python holds
    to be false) is turned away by [save_job] before any statement is
    executed: the transaction is empty, the store is the same afterwards,
    also when [save_job] is called from the run. *)
Theorem save_job_without_uuid_writes_nothing (now : datetime) (job_data uuid : json) :
  get job_data "uuid" = Ok uuid ->
  truthy uuid = false ->
  save_job now job_data = Ok []
  /\ (forall s : store, transaction (save_job now job_data) s = s)
  /\ (forall st : run_state, db (snd (db_save_job job_data st)) = db st).
Proof.
  intros Hget Hfalse.
  assert (Hsave : forall t, save_job t job_data = Ok []).
  { intros t. unfold save_job. rewrite Hget. simpl. rewrite Hfalse. reflexivity. }
  split; [apply Hsave |]. split.
  - intros s. rewrite Hsave. reflexivity.
  - intros st. unfold db_save_job.
    destruct (datetime_now (world st)) as [t w]. rewrite Hsave. reflexivity.
Qed.

(** ** The writer: an employer that is not an object (C10) *)



End WriterFacts.

(** ** The cursor (C6) *)

Section CursorFacts.

Context {E : Env}.

Lemma update_feed_state_shape (now : datetime) (next_url last_job_date metadata : json)
    (q : list stmt) :
  update_feed_state now next_url last_job_date metadata = Ok q ->
  exists r : feed_state_row,
    q = [DeleteFeedState; InsertFeedState r]
    /\ fs_next_url r = next_url
    /\ fs_last_job_date r = last_job_date.
Proof.
  unfold update_feed_state. intros H. repeat bind_inv H.
  injection H as <-. eexists. repeat split.
Qed.

Lemma cursor_history_bounded (writes : list cursor_write) :
  forall s : store,
    Forall (fun s' => (List.length (nav_feed_state s') <= 1)%nat) (cursor_history s writes).
Proof.
  induction writes as [| [[[now next_url] last_job_date] metadata] rest IH]; intros s; simpl.
  - constructor.
  - destruct (update_feed_state now next_url last_job_date metadata) as [q | e] eqn:Hq.
    + apply update_feed_state_shape in Hq. destruct Hq as [r [-> _]].
      simpl. repeat constructor; simpl; auto.
    + apply IH.
Qed.

(** C6.  Writing the cursor is one transaction made of the deletion of
    every row of [nav_feed_state] followed by the insertion of the new
    one.  Whatever the table held before, it holds exactly the new row
    once the write is committed; and along any sequence of writes no
    store with two cursor rows can be observed, not even between the two
    statements of a transaction. *)
Theorem cursor_write_keeps_one_row (now : datetime) (next_url last_job_date metadata : json)
    (q : list stmt) (s : store) :
  update_feed_state now next_url last_job_date metadata = Ok q ->
  (exists r : feed_state_row,
      q = [DeleteFeedState; InsertFeedState r]
      /\ nav_feed_state (transaction (Ok q) s) = [r]
      /\ fs_next_url r = next_url)
  /\ get_last_feed_state (transaction (Ok q) s) = Some (next_url, last_job_date)
  /\ (forall (writes : list cursor_write) (s0 : store),
         Forall (fun s' => (List.length (nav_feed_state s') <= 1)%nat)
                (cursor_history s0 writes)).
Proof.
  intros Hq. apply update_feed_state_shape in Hq.
  destruct Hq as [r [-> [Hnext Hlast]]]. split; [| split].
  - exists r. repeat split; auto.
  - unfold get_last_feed_state. simpl. rewrite Hnext, Hlast. reflexivity.
  - intros writes s0. apply cursor_history_bounded.
Qed.

End CursorFacts.

(** ** The child tables: deduplication (C7) *)

Lemma py_eq_sym (a b : json) : py_eq a b = py_eq b a.
Proof.
  destruct a, b; simpl; try reflexivity.
  - destruct b, b0; reflexivity.
  - apply Z.eqb_sym.
  - apply String.eqb_sym.
Qed.

Lemma py_eq_trans (a b c : json) :
  py_eq a b = true -> py_eq b c = true -> py_eq a c = true.
Proof.
  destruct a as [| x | n | s | |], b as [| y | m | t | |], c as [| z | p | u | |];
    simpl; try discriminate; try reflexivity;
    rewrite ?Z.eqb_eq, ?String.eqb_eq, ?Bool.eqb_true_iff;
    try congruence;
    try (destruct x); try (destruct y); try (destruct z); intros; subst;
    try reflexivity; try discriminate; try lia.
Qed.

Lemma tuple_eq_sym (a : list json) : forall b, tuple_eq a b = tuple_eq b a.
Proof.
  induction a as [| x a IH]; intros [| y b]; simpl; try reflexivity.
  rewrite py_eq_sym, IH. reflexivity.
Qed.

Lemma tuple_eq_trans (a : list json) :
  forall b c, tuple_eq a b = true -> tuple_eq b c = true -> tuple_eq a c = true.
Proof.
  induction a as [| x a IH]; intros [| y b] [| z c]; simpl; try discriminate; auto.
  intros H1 H2.
  apply andb_true_iff in H1. destruct H1 as [Hxy Hab].
  apply andb_true_iff in H2. destruct H2 as [Hyz Hbc].
  rewrite (py_eq_trans x y z Hxy Hyz), (IH b c Hab Hbc). reflexivity.
Qed.

Lemma ForallOrdPairs_snoc {A : Type} (R : A -> A -> Prop) (l : list A) (x : A) :
  ForallOrdPairs R l -> Forall (fun y => R y x) l -> ForallOrdPairs R (l ++ [x]).
Proof.
  induction 1 as [| a l Ha Hl IH]; intros Hx; simpl.
  - constructor; constructor.
  - inversion Hx as [| ? ? Hax Hlx]; subst. constructor.
    + apply Forall_app. split; [exact Ha | constructor; [exact Hax | constructor]].
    + apply IH. exact Hlx.
Qed.

Lemma tuple_in_false (key : list json) (seen : list (list json)) :
  tuple_in key seen = false -> forall k, In k seen -> tuple_eq key k = false.
Proof.
  unfold tuple_in. intros H k Hk.
  destruct (tuple_eq key k) eqn:Heq; [| reflexivity].
  assert (existsb (tuple_eq key) seen = true) by (apply existsb_exists; eauto).
  congruence.
Qed.

Section InsertUnique.

Variable R : Type.
Variable key_of : json -> result (list json).
Variable row_of : json -> result R.
Variable row_key : R -> list json.

Hypothesis row_key_of :
  forall x k r, key_of x = Ok k -> row_of x = Ok r -> row_key r = k.

Lemma insert_unique_invariant (entries : list json) :
  forall (pre : list json) (seen : list (list json)) (data out : list R),
    insert_unique key_of row_of entries seen data = Ok out ->
    map row_key data = rev seen ->
    (forall r, In r data -> exists x, In x pre /\ row_of x = Ok r) ->
    ForallOrdPairs (fun r1 r2 => tuple_eq (row_key r1) (row_key r2) = false) data ->
    (forall x, In x pre ->
       exists k r, key_of x = Ok k /\ In r data /\ tuple_eq (row_key r) k = true) ->
    (forall r, In r out -> exists x, In x (pre ++ entries) /\ row_of x = Ok r)
    /\ ForallOrdPairs (fun r1 r2 => tuple_eq (row_key r1) (row_key r2) = false) out
    /\ (forall x, In x (pre ++ entries) ->
          exists k r, key_of x = Ok k /\ In r out /\ tuple_eq (row_key r) k = true).
Proof.
  induction entries as [| x rest IH]; intros pre seen data out Hrun Hseen Hsrc Hfop Hall.
  - simpl in Hrun. injection Hrun as <-. rewrite app_nil_r. auto.
  - simpl in Hrun. bind_inv Hrun. rename x0 into key. bind_inv Hrun.
    assert (Hstep : pre ++ x :: rest = (pre ++ [x]) ++ rest)
      by (rewrite <- app_assoc; reflexivity).
    rewrite Hstep.
    destruct (tuple_in key seen) eqn:Hin.
    + (* the key is already in [seen]: the entry is dropped *)
      apply (IH (pre ++ [x]) seen data out Hrun Hseen); auto.
      * intros r Hr. destruct (Hsrc r Hr) as [y [Hy Hrow]].
        exists y. split; [apply in_or_app; left; exact Hy | exact Hrow].
      * intros y Hy. apply in_app_or in Hy. destruct Hy as [Hy | [<- | []]].
        -- apply Hall. exact Hy.
        -- unfold tuple_in in Hin. apply existsb_exists in Hin.
           destruct Hin as [k [Hk Heq]].
           assert (Hk' : In k (map row_key data)) by (rewrite Hseen; apply -> in_rev; exact Hk).
           apply in_map_iff in Hk'. destruct Hk' as [r [Hrk Hr]].
           exists key, r. split; [exact Hx |]. split; [exact Hr |].
           rewrite Hrk, tuple_eq_sym. exact Heq.
    + (* a new key: the row is appended *)
      bind_inv Hrun. rename x1 into row.
      assert (Hkey : row_key row = key) by (apply (row_key_of x); assumption).
      apply (IH (pre ++ [x]) (key :: seen) (data ++ [row]) out Hrun).
      * rewrite map_app. simpl. rewrite Hseen, Hkey. reflexivity.
      * intros r Hr. apply in_app_or in Hr. destruct Hr as [Hr | [<- | []]].
        -- destruct (Hsrc r Hr) as [y [Hy Hrow]].
           exists y. split; [apply in_or_app; left; exact Hy | exact Hrow].
        -- exists x. split; [apply in_or_app; right; left; reflexivity | exact Hx1].
      * apply ForallOrdPairs_snoc; [exact Hfop |].
        apply Forall_forall. intros r Hr.
        rewrite Hkey, tuple_eq_sym.
        apply (tuple_in_false key seen Hin).
        apply <- in_rev. rewrite <- Hseen. apply in_map. exact Hr.
      * intros y Hy. apply in_app_or in Hy. destruct Hy as [Hy | [<- | []]].
        -- destruct (Hall y Hy) as [k [r [Hk [Hr Heq]]]].
           exists k, r. split; [exact Hk |]. split; [apply in_or_app; left; exact Hr | exact Heq].
        -- exists key, row. split; [exact Hx |].
           split; [apply in_or_app; right; left; reflexivity |].
           rewrite Hkey. clear - Hx0. unfold hash_tuple in Hx0.
           induction key as [| v key IHk]; [reflexivity |].
           simpl in *. destruct (hashable v) eqn:Hv; [| discriminate].
           simpl in Hx0. rewrite (IHk Hx0), andb_true_r.
           destruct v; simpl in *; try discriminate; try reflexivity.
           ++ apply Bool.eqb_reflx.
           ++ apply Z.eqb_refl.
           ++ apply String.eqb_refl.
Qed.

Lemma insert_unique_deduplicated (entries : list json) (out : list R) :
  insert_unique key_of row_of entries [] [] = Ok out ->
  deduplicated key_of row_of row_key entries out.
Proof.
  intros Hrun.
  assert (Hinv := insert_unique_invariant entries [] [] [] out Hrun).
  destruct Hinv as [Hsrc [Hfop Hall]].
  { reflexivity. }
  { intros r []. }
  { constructor. }
  { intros x []. }
  simpl in *. unfold deduplicated. repeat split; auto.
  intros x y kx ky Hx Hy Hkx Hky Hdiff.
  destruct (Hall x Hx) as [kx' [rx [Hkx' [Hrx Hex]]]].
  destruct (Hall y Hy) as [ky' [ry [Hky' [Hry Hey]]]].
  rewrite Hkx in Hkx'. injection Hkx' as <-.
  rewrite Hky in Hky'. injection Hky' as <-.
  exists rx, ry. repeat split; auto.
  intros ->.
  assert (tuple_eq kx ky = true).
  { apply (tuple_eq_trans kx (row_key ry) ky); [rewrite tuple_eq_sym; exact Hex | exact Hey]. }
  congruence.
Qed.

End InsertUnique.

Lemma location_row_key_of (uuid x : json) (k : list json) (r : location_row) :
  location_key x = Ok k -> location_row_of uuid x = Ok r -> location_row_key r = k.
Proof.
  unfold location_key, location_row_of. destruct x; try discriminate.
  simpl. intros Hk Hr. injection Hk as <-. injection Hr as <-. reflexivity.
Qed.

Lemma category_row_key_of (uuid x : json) (k : list json) (r : category_row) :
  category_key x = Ok k -> category_row_of uuid x = Ok r -> category_row_key r = k.
Proof.
  unfold category_key, category_row_of. destruct x; try discriminate.
  simpl. intros Hk Hr. injection Hk as <-. injection Hr as <-. reflexivity.
Qed.

Lemma occupation_row_key_of (uuid x : json) (k : list json) (r : occupation_row) :
  occupation_key x = Ok k -> occupation_row_of uuid x = Ok r -> occupation_row_key r = k.
Proof.
  unfold occupation_key, occupation_row_of. destruct x; try discriminate.
  simpl. intros Hk Hr. injection Hk as <-. injection Hr as <-. reflexivity.
Qed.

Lemma location_row_of_uuid (uuid x : json) (r : location_row) :
  location_row_of uuid x = Ok r -> loc_nav_uuid r = uuid.
Proof.
  unfold location_row_of. intros H. repeat bind_inv H. injection H as <-. reflexivity.
Qed.

Lemma contact_row_of_uuid (uuid x : json) (r : contact_row) :
  contact_row_of uuid x = Ok r -> con_nav_uuid r = uuid.
Proof.
  unfold contact_row_of. intros H. repeat bind_inv H. injection H as <-. reflexivity.
Qed.

Lemma category_row_of_uuid (uuid x : json) (r : category_row) :
  category_row_of uuid x = Ok r -> cat_nav_uuid r = uuid.
Proof.
  unfold category_row_of. intros H. repeat bind_inv H. injection H as <-. reflexivity.
Qed.

Lemma occupation_row_of_uuid (uuid x : json) (r : occupation_row) :
  occupation_row_of uuid x = Ok r -> occ_nav_uuid r = uuid.
Proof.
  unfold occupation_row_of. intros H. repeat bind_inv H. injection H as <-. reflexivity.
Qed.

Lemma contact_rows_verbatim (uuid : json) (entries : list json) :
  forall data out : list contact_row,
    contact_rows uuid entries data = Ok out ->
    exists rows, out = data ++ rows /\ verbatim (contact_row_of uuid) entries rows.
Proof.
  induction entries as [| c rest IH]; intros data out H; simpl in H.
  - injection H as <-. exists []. rewrite app_nil_r. split; [reflexivity | constructor].
  - bind_inv H. destruct (IH _ _ H) as [rows [-> Hrows]].
    exists (x :: rows). rewrite <- app_assoc. split; [reflexivity |].
    constructor; assumption.
Qed.

(** The statement list of an insertion: nothing is executed for an empty
    [data]. *)
Lemma insert_shape (v : json) {R : Type} (rows : list json -> result (list R))
    (ins : list R -> stmt) (q : list stmt) :
  (if negb (truthy v) then Ok []
   else entries <- iter v ;;
        data <- rows entries ;;
        match data with [] => Ok [] | _ :: _ => Ok [ins data] end) = Ok q ->
  rows [] = Ok [] ->
  exists data,
    rows (entries_of v) = Ok data
    /\ q = match data with [] => [] | _ :: _ => [ins data] end.
Proof.
  intros H Hnil. unfold entries_of. destruct (truthy v); simpl in H.
  - bind_inv H. bind_inv H. rewrite Hx. exists x0. split; [exact Hx0 |].
    destruct x0; injection H as <-; reflexivity.
  - injection H as <-. exists []. split; [exact Hnil | reflexivity].
Qed.

Lemma execute_optional_insert {R : Type} (ins : list R -> stmt) (data : list R) (s : store) :
  (forall s', execute (ins []) s' = s') ->
  execute_all (match data with [] => [] | _ :: _ => [ins data] end) s = execute (ins data) s.
Proof.
  intros Hnil. destruct data; simpl; [symmetry; apply Hnil | reflexivity].
Qed.

Lemma execute_all_app (q1 q2 : list stmt) (s : store) :
  execute_all (q1 ++ q2) s = execute_all q2 (execute_all q1 s).
Proof.
  unfold execute_all. apply fold_left_app.
Qed.

(** ** The writer: the statements of [save_job] and their effect *)

Section SaveJobFacts.

Context {E : Env}.

(** The row [_upsert_nav_job] proposes depends on the time of the call
    through [created_at] only, which [ON CONFLICT] leaves out. *)
Lemma upsert_nav_job_shape (now : datetime) (job : json) (q : list stmt) :
  _upsert_nav_job now job = Ok q ->
  exists r : job_row,
    q = [UpsertJob r]
    /\ get job "uuid" = Ok (nav_uuid r)
    /\ forall now' : datetime,
         exists r' : job_row,
           _upsert_nav_job now' job = Ok [UpsertJob r']
           /\ nav_uuid r' = nav_uuid r
           /\ forall old, on_conflict_update old r' = on_conflict_update old r.
Proof.
  intros H. unfold _upsert_nav_job in H.
  do 7 bind_inv H. destruct x5 as [[[employer_name orgnr] desc] homepage].
  repeat bind_inv H. injection H as <-.
  eexists. split; [reflexivity |]. split; [exact Hx0 |].
  intros now'. unfold _upsert_nav_job.
  repeat match goal with
         | Heq : ?e = Ok _ |- context [bind ?e _] => rewrite Heq; simpl
         end.
  eexists. split; [reflexivity |]. split; reflexivity.
Qed.

Lemma on_conflict_update_same (old r : job_row) :
  on_conflict_update (on_conflict_update old r) r = on_conflict_update old r.
Proof. reflexivity. Qed.

Lemma on_conflict_update_self (r : job_row) : on_conflict_update r r = r.
Proof. destruct r. reflexivity. Qed.

Lemma upsert_twice (r r' : job_row) (t : list job_row) :
  nav_uuid r' = nav_uuid r ->
  (forall old, on_conflict_update old r' = on_conflict_update old r) ->
  upsert r' (upsert r t) = upsert r t.
Proof.
  intros Hu Hc. induction t as [| old rest IH]; simpl.
  - rewrite Hu, json_eqb_refl, Hc, on_conflict_update_self. reflexivity.
  - destruct (json_eqb (nav_uuid old) (nav_uuid r)) eqn:Heq; simpl.
    + rewrite Hu, Heq, Hc. reflexivity.
    + rewrite Hu, Heq, IH. reflexivity.
Qed.


Lemma delete_where_twice {R : Type} (key : R -> json) (uuid : json) (t d : list R) :
  Forall (fun r => key r = uuid) d ->
  delete_where key uuid (delete_where key uuid t ++ d) ++ d = delete_where key uuid t ++ d.
Proof.
  intros Hd. unfold delete_where. rewrite filter_app. f_equal.
  assert (Hnone : filter (fun r => negb (json_eqb (key r) uuid)) d = []).
  { induction Hd as [| r d Hr _ IH]; simpl; [reflexivity |].
    rewrite Hr, json_eqb_refl. exact IH. }
  rewrite Hnone, app_nil_r.
  induction t as [| r t IH]; simpl; [reflexivity |].
  destruct (negb (json_eqb (key r) uuid)) eqn:Hr; simpl; [rewrite Hr, IH |]; auto.
Qed.

Lemma rows_for_after_replace {R : Type} (key : R -> json) (uuid : json) (t d : list R) :
  Forall (fun r => key r = uuid) d ->
  rows_for key uuid (delete_where key uuid t ++ d) = d.
Proof.
  intros Hd. unfold rows_for, delete_where. rewrite filter_app.
  assert (Hnone : filter (fun r => json_eqb (key r) uuid)
                    (filter (fun r => negb (json_eqb (key r) uuid)) t) = []).
  { induction t as [| r t IH]; simpl; [reflexivity |].
    destruct (json_eqb (key r) uuid) eqn:Hr; simpl; [| rewrite Hr]; exact IH. }
  rewrite Hnone. simpl.
  induction Hd as [| r d Hr _ IH]; simpl; [reflexivity |].
  rewrite Hr, json_eqb_refl, IH. reflexivity.
Qed.

Lemma save_job_effect (now : datetime) (job uuid : json) (q : list stmt) :
  save_job now job = Ok q ->
  get job "uuid" = Ok uuid ->
  truthy uuid = true ->
  exists (r : job_row) (dl : list location_row) (dc : list contact_row)
         (dg : list category_row) (d_o : list occupation_row),
    _upsert_nav_job now job = Ok [UpsertJob r]
    /\ insert_unique location_key (location_row_of uuid)
         (child_entries job "workLocations") [] [] = Ok dl
    /\ contact_rows uuid (child_entries job "contactList") [] = Ok dc
    /\ insert_unique category_key (category_row_of uuid)
         (child_entries job "categoryList") [] [] = Ok dg
    /\ insert_unique occupation_key (occupation_row_of uuid)
         (child_entries job "occupationCategories") [] [] = Ok d_o
    /\ forall s : store,
         execute_all q s =
         mk_store (upsert r (nav_jobs s))
                  (delete_where loc_nav_uuid uuid (nav_job_locations s) ++ dl)
                  (delete_where con_nav_uuid uuid (nav_job_contacts s) ++ dc)
                  (delete_where cat_nav_uuid uuid (nav_job_categories s) ++ dg)
                  (delete_where occ_nav_uuid uuid (nav_job_occupations s) ++ d_o)
                  (nav_feed_state s).
Proof.
  intros Hsave Hget Htrue. unfold save_job in Hsave.
  rewrite Hget in Hsave. simpl in Hsave. rewrite Htrue in Hsave. simpl in Hsave.
  bind_inv Hsave. rename x into qj, Hx into Hjob.
  bind_inv Hsave. rename x into ad, Hx into Had.
  bind_inv Hsave. rename x into wl, Hx into Hwl.
  bind_inv Hsave. rename x into ql, Hx into Hql.
  bind_inv Hsave. rename x into cl, Hx into Hcl.
  bind_inv Hsave. rename x into qc, Hx into Hqc.
  bind_inv Hsave. rename x into gl, Hx into Hgl.
  bind_inv Hsave. rename x into qg, Hx into Hqg.
  bind_inv Hsave. rename x into ol, Hx into Hol.
  bind_inv Hsave. rename x into qo, Hx into Hqo.
  injection Hsave as <-.
  destruct (upsert_nav_job_shape _ _ _ Hjob) as [r [-> _]].
  apply insert_shape in Hql; [| reflexivity]. destruct Hql as [dl [Hdl ->]].
  apply insert_shape in Hqc; [| reflexivity]. destruct Hqc as [dc [Hdc ->]].
  apply insert_shape in Hqg; [| reflexivity]. destruct Hqg as [dg [Hdg ->]].
  apply insert_shape in Hqo; [| reflexivity]. destruct Hqo as [d_o [Hdo ->]].
  exists r, dl, dc, dg, d_o.
  unfold child_entries. rewrite Had. simpl. rewrite Hwl, Hcl, Hgl, Hol.
  repeat (split; [assumption |]).
  intros s. destruct dl, dc, dg, d_o; simpl; rewrite ?app_nil_r; reflexivity.
Qed.

End SaveJobFacts.

(** ** The writer: deduplication (C7) and idempotence (C2) *)

Section SavedRecordFacts.

Context {E : Env}.

Lemma deduplicated_rows_uuid {R : Type} (key_of : json -> result (list json))
    (row_of : json -> result R) (row_key : R -> list json) (nav : R -> json)
    (uuid : json) (entries : list json) (data : list R) :
  (forall x r, row_of x = Ok r -> nav r = uuid) ->
  deduplicated key_of row_of row_key entries data ->
  Forall (fun r => nav r = uuid) data.
Proof.
  intros Hnav [Hsrc _]. apply Forall_forall. intros r Hr.
  destruct (Hsrc r Hr) as [x [_ Hrow]]. exact (Hnav x r Hrow).
Qed.

Lemma verbatim_rows_uuid (uuid : json) (entries : list json) (data : list contact_row) :
  verbatim (contact_row_of uuid) entries data ->
  Forall (fun r => con_nav_uuid r = uuid) data.
Proof.
  induction 1 as [| x r entries data Hrow _ IH]; constructor.
  - exact (contact_row_of_uuid uuid x r Hrow).
  - exact IH.
Qed.


(** The child rows of a record after [save_job], table by table. *)
Lemma saved_children (now : datetime) (job uuid : json) (q : list stmt) (s : store) :
  save_job now job = Ok q ->
  get job "uuid" = Ok uuid ->
  truthy uuid = true ->
  deduplicated location_key (location_row_of uuid) location_row_key
    (child_entries job "workLocations")
    (rows_for loc_nav_uuid uuid (nav_job_locations (execute_all q s)))
  /\ deduplicated category_key (category_row_of uuid) category_row_key
       (child_entries job "categoryList")
       (rows_for cat_nav_uuid uuid (nav_job_categories (execute_all q s)))
  /\ deduplicated occupation_key (occupation_row_of uuid) occupation_row_key
       (child_entries job "occupationCategories")
       (rows_for occ_nav_uuid uuid (nav_job_occupations (execute_all q s)))
  /\ verbatim (contact_row_of uuid)
       (child_entries job "contactList")
       (rows_for con_nav_uuid uuid (nav_job_contacts (execute_all q s))).
Proof.
  intros Hsave Hget Htrue.
  destruct (save_job_effect now job uuid q Hsave Hget Htrue)
    as [r [dl [dc [dg [d_o [_ [Hdl [Hdc [Hdg [Hdo Heff]]]]]]]]]].
  rewrite Heff. simpl.
  apply insert_unique_deduplicated with (row_key := location_row_key) in Hdl;
    [| apply location_row_key_of].
  apply insert_unique_deduplicated with (row_key := category_row_key) in Hdg;
    [| apply category_row_key_of].
  apply insert_unique_deduplicated with (row_key := occupation_row_key) in Hdo;
    [| apply occupation_row_key_of].
  apply contact_rows_verbatim in Hdc. destruct Hdc as [rows [-> Hdc]]. simpl.
  rewrite !rows_for_after_replace.
  - auto.
  - exact (verbatim_rows_uuid uuid _ _ Hdc).
  - exact (deduplicated_rows_uuid _ _ _ occ_nav_uuid uuid _ _ (occupation_row_of_uuid uuid) Hdo).
  - exact (deduplicated_rows_uuid _ _ _ cat_nav_uuid uuid _ _ (category_row_of_uuid uuid) Hdg).
  - exact (deduplicated_rows_uuid _ _ _ loc_nav_uuid uuid _ _ (location_row_of_uuid uuid) Hdl).
Qed.


(** A second [save_job] of the same record succeeds when the first did,
    and changes nothing. *)
Lemma save_job_again (now now' : datetime) (job uuid : json) (q : list stmt) :
  save_job now job = Ok q ->
  get job "uuid" = Ok uuid ->
  truthy uuid = true ->
  exists q' : list stmt,
    save_job now' job = Ok q'
    /\ forall s : store, execute_all q' (execute_all q s) = execute_all q s.
Proof.
  intros Hsave Hget Htrue.
  destruct (save_job_effect now job uuid q Hsave Hget Htrue)
    as [r [dl [dc [dg [d_o [Hjob [Hdl [Hdc [Hdg [Hdo Heff]]]]]]]]]].
  destruct (upsert_nav_job_shape now job _ Hjob) as [r0 [Hr0 [_ Hnow]]].
  injection Hr0 as <-.
  destruct (Hnow now') as [r' [Hjob' [Hu Hc]]].
  assert (Hsave' : exists q', save_job now' job = Ok q').
  { unfold save_job in *. rewrite Hget in *. simpl in *. rewrite Htrue in *. simpl in *.
    rewrite Hjob in Hsave. rewrite Hjob'. simpl in *.
    repeat bind_inv Hsave.
    repeat match goal with
           | Heq : ?e = Ok _ |- context [bind ?e _] => rewrite Heq; simpl
           end.
    eauto. }
  destruct Hsave' as [q' Hsave']. exists q'. split; [exact Hsave' |].
  destruct (save_job_effect now' job uuid q' Hsave' Hget Htrue)
    as [r1 [dl' [dc' [dg' [d_o' [Hjob1 [Hdl' [Hdc' [Hdg' [Hdo' Heff']]]]]]]]]].
  rewrite Hjob' in Hjob1. injection Hjob1 as <-.
  rewrite Hdl in Hdl'. injection Hdl' as <-.
  rewrite Hdc in Hdc'. injection Hdc' as <-.
  rewrite Hdg in Hdg'. injection Hdg' as <-.
  rewrite Hdo in Hdo'. injection Hdo' as <-.
  intros s. rewrite Heff', Heff. simpl.
  apply insert_unique_deduplicated with (row_key := location_row_key) in Hdl;
    [| apply location_row_key_of].
  apply insert_unique_deduplicated with (row_key := category_row_key) in Hdg;
    [| apply category_row_key_of].
  apply insert_unique_deduplicated with (row_key := occupation_row_key) in Hdo;
    [| apply occupation_row_key_of].
  apply contact_rows_verbatim in Hdc. destruct Hdc as [rows [-> Hdc]]. simpl in *.
  rewrite (upsert_twice r r' _ Hu Hc).
  rewrite !delete_where_twice.
  - reflexivity.
  - exact (deduplicated_rows_uuid _ _ _ occ_nav_uuid uuid _ _ (occupation_row_of_uuid uuid) Hdo).
  - exact (deduplicated_rows_uuid _ _ _ cat_nav_uuid uuid _ _ (category_row_of_uuid uuid) Hdg).
  - exact (verbatim_rows_uuid uuid _ _ Hdc).
  - exact (deduplicated_rows_uuid _ _ _ loc_nav_uuid uuid _ _ (location_row_of_uuid uuid) Hdl).
Qed.

(** C2.  Saving a record with an identity a second time, at a later time
    of the clock, leaves the whole store as the first call left it: the
    row of [nav_jobs] keeps every field, [created_at] included, and each
    child table keeps exactly the rows of the first call.  When the save
    goes through, the rows of the record in the three keyed child tables
    are free of duplicates and its contacts are as many as the entries of
    [contactList]: the second call adds no copy. *)
Theorem save_job_twice_is_save_job_once (now1 now2 : datetime) (job uuid : json) (s : store) :
  get job "uuid" = Ok uuid ->
  truthy uuid = true ->
  let s1 := transaction (save_job now1 job) s in
  let s2 := transaction (save_job now2 job) s1 in
  s2 = s1
  /\ (is_ok (save_job now1 job) = true ->
      ForallOrdPairs (fun r1 r2 => tuple_eq (location_row_key r1) (location_row_key r2) = false)
        (rows_for loc_nav_uuid uuid (nav_job_locations s2))
      /\ ForallOrdPairs (fun r1 r2 => tuple_eq (category_row_key r1) (category_row_key r2) = false)
           (rows_for cat_nav_uuid uuid (nav_job_categories s2))
      /\ ForallOrdPairs (fun r1 r2 => tuple_eq (occupation_row_key r1) (occupation_row_key r2) = false)
           (rows_for occ_nav_uuid uuid (nav_job_occupations s2))
      /\ List.length (rows_for con_nav_uuid uuid (nav_job_contacts s2))
         = List.length (child_entries job "contactList")).
Proof.
  intros Hget Htrue s1 s2.
  assert (Hsame : s2 = s1).
  { subst s1 s2. destruct (save_job now1 job) as [q1 | e1] eqn:H1.
    - destruct (save_job_again now1 now2 job uuid q1 H1 Hget Htrue) as [q2 [H2 Hq]].
      rewrite H2. simpl. apply Hq.
    - simpl. destruct (save_job now2 job) as [q2 | e2] eqn:H2; [| reflexivity].
      destruct (save_job_again now2 now1 job uuid q2 H2 Hget Htrue) as [q1 [H1' _]].
      congruence. }
  split; [exact Hsame |].
  intros Hok. rewrite Hsame. subst s1.
  destruct (save_job now1 job) as [q1 | e1] eqn:H1; [| discriminate].
  simpl.
  destruct (saved_children now1 job uuid q1 s H1 Hget Htrue)
    as [[_ [Hl _]] [[_ [Hg _]] [[_ [Ho _]] Hc]]].
  repeat split; auto.
  symmetry. exact (Forall2_length Hc).
Qed.

End SavedRecordFacts.

(** ** The writer: dates that cannot be read (C8) *)

Lemma assoc_set_key (k' k : string) (v : json) (kvs : list (string * json)) :
  assoc k' (set_key k v kvs) =
  if (k' =? k)%string
  then match assoc k kvs with Some _ => Some v | None => None end
  else assoc k' kvs.
Proof.
  induction kvs as [| [k0 v0] rest IH]; simpl.
  - destruct (k' =? k)%string; reflexivity.
  - destruct (k0 =? k)%string eqn:H0; simpl.
    + apply String.eqb_eq in H0. subst k0.
      rewrite (String.eqb_sym k k'). destruct (k' =? k)%string; reflexivity.
    + rewrite IH. destruct (k' =? k)%string eqn:H1.
      * apply String.eqb_eq in H1. subst k'. rewrite H0. reflexivity.
      * reflexivity.
Qed.

Lemma truthy_set_key (k : string) (v : json) (kvs : list (string * json)) :
  truthy (JObj (set_key k v kvs)) = truthy (JObj kvs).
Proof.
  destruct kvs as [| [k0 v0] rest]; simpl; [reflexivity |].
  destruct (k0 =? k)%string; reflexivity.
Qed.

(** Evaluates the comparisons of two string literals in the goal. *)
Ltac eval_string_eqb :=
  repeat match goal with
         | |- context [(?a =? ?b)%string] =>
             let r := eval vm_compute in (a =? b)%string in
             change (a =? b)%string with r
         end;
  cbv iota.

Section DateFacts.

Context {E : Env}.


Lemma ad_content_binding (kvs ad : list (string * json)) :
  get (JObj kvs) "ad_content" = Ok (JObj ad) -> assoc "ad_content" kvs = Some (JObj ad).
Proof.
  simpl. destruct (assoc "ad_content" kvs); [congruence | discriminate].
Qed.




End DateFacts.

(** ** The feed walker (C5) *)

Lemma split_last_without_sep (sep : string) (s : string) :
  forall cur : string,
    contains sep s = false -> split_last_from sep 0 cur s = (cur ++ s)%string.
Proof.
  induction s as [| c rest IH]; intros cur H; simpl.
  - clear H. induction cur as [| d cur IHc]; simpl; [reflexivity | rewrite <- IHc; reflexivity].
  - simpl in H. apply orb_false_iff in H. destruct H as [Hp Hrest].
    rewrite Hp, (IH _ Hrest).
    clear. induction cur as [| d cur IHc]; simpl; [reflexivity | rewrite IHc; reflexivity].
Qed.

(** The locator written for the page [L] is read back as [L]. *)
Lemma after_feed_of_locator (L : string) :
  contains "/feed/" L = false ->
  feed_in (JStr ("/api/v1/feed/" ++ L)) = Ok true
  /\ after_feed (JStr ("/api/v1/feed/" ++ L)) = Ok (JStr L).
Proof.
  intros H. split.
  - reflexivity.
  - unfold after_feed, split_last. simpl.
    rewrite (split_last_without_sep "/feed/" L "" H). reflexivity.
Qed.

Lemma resolve_start_explicit (a : args) (state : option (json * json)) (L : string) :
  start_page_id a = Some L -> L <> "" ->
  resolve_start a state = Ok (Created (JStr L) false).
Proof.
  intros Ha HL. unfold resolve_start. rewrite Ha. simpl.
  destruct (L =? "")%string eqn:Heq; [apply String.eqb_eq in Heq; contradiction | reflexivity].
Qed.

Lemma resolve_start_resumes (a : args) (L : string) (last_job_date : json) :
  start_page_id a = None -> contains "/feed/" L = false ->
  resolve_start a (Some (JStr ("/api/v1/feed/" ++ L), last_job_date))
  = Ok (Created (JStr L) false).
Proof.
  intros Ha HL. unfold resolve_start. rewrite Ha.
  destruct (after_feed_of_locator L HL) as [Hin Hafter].
  assert (Ht : truthy (JStr ("/api/v1/feed/" ++ L)) = true) by reflexivity.
  rewrite Ht, Hin. unfold bind. rewrite Hafter. reflexivity.
Qed.

Lemma last_cons {A : Type} (l : list A) :
  forall x d : A, List.last (x :: l) d = List.last l x.
Proof.
  induction l as [| y l IH]; intros x d; [reflexivity |].
  change (List.last (x :: y :: l) d) with (List.last (y :: l) d).
  rewrite (IH y d), (IH y x). reflexivity.
Qed.

Section WalkerFacts.

Context {E : Env}.

Lemma next_created (self : client) (L : json) (last : bool) (w : World) :
  truthy L = true ->
  next self (Created L last) w =
  match get_feed_page self L false w with
  | (Ok p, w') => (Ok (Some p), Suspended p, w')
  | (Raise e, w') => (Raise e, Finished, w')
  end.
Proof.
  intros H. simpl. rewrite H. simpl.
  destruct (get_feed_page self L false w) as [[p | e] w']; reflexivity.
Qed.

Lemma next_suspended (self : client) (p next_id : json) (w : World) :
  get p "next_id" = Ok next_id ->
  truthy next_id = true ->
  next self (Suspended p) w =
  match get_feed_page self next_id false w with
  | (Ok q, w') => (Ok (Some q), Suspended q, w')
  | (Raise e, w') => (Raise e, Finished, w')
  end.
Proof.
  intros Hn Ht. simpl. rewrite Hn, Ht. simpl.
  destruct (get_feed_page self next_id false w) as [[q | e] w']; reflexivity.
Qed.

Lemma next_stops (self : client) (p : json) (w : World) :
  fst (fst (next self (Suspended p) w)) = Ok None <-> no_next p.
Proof.
  unfold no_next. simpl. destruct (get p "next_id") as [n | e] eqn:Hn.
  - destruct (truthy n) eqn:Ht; simpl.
    + destruct (get_feed_page self n false w) as [[q | e] w']; simpl;
        (split; [discriminate | intros [m [Hm Hf]]; congruence]).
    + split; [eauto | reflexivity].
  - simpl. split; [discriminate | intros [m [Hm _]]; discriminate].
Qed.

(** The pages handed over after [p] are linked to it, and the generator
    is exhausted only after a page without next pointer. *)
Lemma walk_suspended (self : client) (fuel : nat) :
  forall (p : json) (w : World),
    let '(pages, e, _) := walk self fuel (Suspended p) w in
    linked self p pages /\ (e = Exhausted -> no_next (List.last pages p)).
Proof.
  induction fuel as [| k IH]; intros p w.
  - simpl. split; [exact I | discriminate].
  - cbn [walk].
    destruct (next self (Suspended p) w) as [[r g'] w'] eqn:Hnext.
    destruct r as [[q |] | e].
    + (* a further page [q] *)
      assert (Hq : follows self p q /\ g' = Suspended q).
      { simpl in Hnext. destruct (get p "next_id") as [n | e] eqn:Hn; [| discriminate].
        destruct (truthy n) eqn:Ht; simpl in Hnext; [| discriminate].
        destruct (get_feed_page self n false w) as [[q' | e] w1] eqn:Hpage; [| discriminate].
        injection Hnext as <- <- <-. split; [| reflexivity].
        exists n, w, w1. auto. }
      destruct Hq as [Hfol ->]. specialize (IH q w').
      destruct (walk self k (Suspended q) w') as [[pages e] w''].
      destruct IH as [Hlinked Hend]. split.
      * simpl. auto.
      * intros He. specialize (Hend He).
        rewrite last_cons. exact Hend.
    + split; [exact I |]. intros _. simpl.
      apply (next_stops self p w). rewrite Hnext. reflexivity.
    + split; [exact I | discriminate].
Qed.

(** C5.  Started from a locator [L], the walker first asks for the page
    at [L] and for nothing else; resumed after a page, it asks for the
    page its [next_id] names; it stops, without any request, exactly when
    the page it delivered last has no [next_id].  So the pages of a
    traversal begin with the page at [L], each one follows the one
    before, and the traversal is exhausted only after a page without next
    pointer.  The run starts the walker at the locator given on the
    command line or, without one, at the locator the cursor holds. *)
Theorem walker_starts_at_locator_and_follows_next (self : client) (L : json) (last : bool)
    (fuel : nat) (w : World) :
  truthy L = true ->
  next self (Created L last) w =
    match _make_request self ("/api/v1/feed/" ++ str L) [] 3 w with
    | (Ok p, w') => (Ok (Some p), Suspended p, w')
    | (Raise e, w') => (Raise e, Finished, w')
    end
  /\ (forall (p next_id : json) (w1 : World),
        get p "next_id" = Ok next_id -> truthy next_id = true ->
        next self (Suspended p) w1 =
          match _make_request self ("/api/v1/feed/" ++ str next_id) [] 3 w1 with
          | (Ok q, w') => (Ok (Some q), Suspended q, w')
          | (Raise e, w') => (Raise e, Finished, w')
          end)
  /\ (forall (p : json) (w1 : World),
        (fst (fst (next self (Suspended p) w1)) = Ok None <-> no_next p)
        /\ (no_next p -> next self (Suspended p) w1 = (Ok None, Finished, w1)))
  /\ (let '(pages, e, _) := walk self fuel (Created L last) w in
      match pages with
      | [] => e <> Exhausted
      | p0 :: rest =>
          fst (_make_request self ("/api/v1/feed/" ++ str L) [] 3 w) = Ok p0
          /\ linked self p0 rest
          /\ (e = Exhausted -> no_next (List.last rest p0))
      end)
  /\ (forall (a : args) (state : option (json * json)) (id : string),
        start_page_id a = Some id -> id <> "" ->
        resolve_start a state = Ok (Created (JStr id) false))
  /\ (forall (a : args) (id : string) (last_job_date : json),
        start_page_id a = None -> contains "/feed/" id = false ->
        resolve_start a (Some (JStr ("/api/v1/feed/" ++ id), last_job_date))
        = Ok (Created (JStr id) false)).
Proof.
  intros HL.
  assert (Hpage : forall (id : json) (w0 : World), truthy id = true ->
            get_feed_page self id false w0
            = _make_request self ("/api/v1/feed/" ++ str id) [] 3 w0).
  { intros id w0 Hid. unfold get_feed_page. rewrite Hid. reflexivity. }
  split; [| split; [| split; [| split; [| split]]]].
  - rewrite (next_created self L last w HL), (Hpage L w HL). reflexivity.
  - intros p n w1 Hn Ht.
    rewrite (next_suspended self p n w1 Hn Ht), (Hpage n w1 Ht). reflexivity.
  - intros p w1. split; [apply next_stops |].
    intros [n [Hn Hf]]. simpl. rewrite Hn, Hf. reflexivity.
  - destruct fuel as [| k]; [simpl; discriminate |].
    cbn [walk]. rewrite (next_created self L last w HL), (Hpage L w HL).
    destruct (_make_request self ("/api/v1/feed/" ++ str L) [] 3 w) as [[p0 | e] w'].
    + assert (Hw := walk_suspended self k p0 w').
      destruct (walk self k (Suspended p0) w') as [[pages e] w''].
      destruct Hw as [Hlinked Hend]. simpl. auto.
    + discriminate.
  - intros a state id. apply resolve_start_explicit.
  - intros a id d. apply resolve_start_resumes.
Qed.

End WalkerFacts.

(** ** The run: one future *)

Section RunFacts.

Context {E : Env}.


(** What [process_future] does to the state, case by case: it raises and
    leaves counters, store and log alone; or it skips the record for one
    of the tests of [skip_reason_of]; or it commits the record and counts
    it. *)
Lemma process_future_cases (a : args) (future : result json) (st : run_state) :
  let '(r, st') := process_future a future st in
  log st' = log st
  /\ match r with
     | Raise e =>
         fetched_count st' = fetched_count st
         /\ skipped_count st' = skipped_count st
         /\ db st' = db st
     | Ok b =>
         (skipped_count st' = skipped_count st + 1
          /\ fetched_count st' = fetched_count st
          /\ db st' = db st
          /\ b = false
          /\ exists details why, future = Ok details /\ skip_reason_of a details = Some why)
         \/ (skipped_count st' = skipped_count st
             /\ fetched_count st' = fetched_count st + 1
             /\ b = limit_reached a (fetched_count st')
             /\ exists details now,
                  future = Ok details
                  /\ skip_reason_of a details = None
                  /\ is_ok (save_job now details) = true
                  /\ db st' = transaction (save_job now details) (db st))
     end%Z.
Proof.
  unfold process_future, skip_reason_of, mbind, lift, ret, incr_skipped, incr_fetched, db_save_job.
  destruct future as [details | e]; [| simpl; auto].
  destruct (truthy details) eqn:Ht; simpl.
  2: { split; [reflexivity |]. left. repeat split. exists details, NoDetails.
       rewrite Ht. auto. }
  destruct (get details "status") as [status | e] eqn:Hstatus; [| simpl; auto].
  destruct (get details "ad_content") as [adc | e] eqn:Hadc; [| simpl; auto].
  destruct (eq_str status "INACTIVE" || negb (truthy adc)) eqn:Hst; simpl.
  { split; [reflexivity |]. left. repeat split. exists details, InactiveOrNoContent.
    rewrite Ht, Hstatus, Hadc, Hst. auto. }
  destruct (detail_older a details) as [[|] | e] eqn:Hold; simpl.
  - split; [reflexivity |]. left. repeat split. exists details, DetailBeforeThreshold.
    rewrite Ht, Hstatus, Hadc, Hst, Hold. auto.
  - destruct (datetime_now (world st)) as [now w].
    destruct (save_job now details) as [q | e] eqn:Hsave; simpl.
    + split; [reflexivity |]. right. repeat split.
      exists details, now. rewrite Ht, Hstatus, Hadc, Hst, Hold, Hsave. auto.
    + auto.
  - auto.
Qed.

(** ** The run: pages and the limit *)

Lemma mbind_inv {A B : Type} (m : M A) (k : A -> M B) (st st' : run_state) (r : result B) :
  mbind m k st = (r, st') ->
  (exists a st1, m st = (Ok a, st1) /\ k a st1 = (r, st'))
  \/ (exists e, m st = (Raise e, st') /\ r = Raise e).
Proof.
  unfold mbind. destruct (m st) as [[a | e] st1]; intros H.
  - left. eauto.
  - right. injection H as <- <-. eauto.
Qed.

Lemma lift_inv {A : Type} (x : result A) (st st' : run_state) (r : result A) :
  lift x st = (r, st') -> r = x /\ st' = st.
Proof.
  unfold lift. intros H. injection H as <- <-. auto.
Qed.


(** The pre-filter touches nothing but [skipped_count], which it raises
    by one for each item of [summary_skipped]; what it adds to
    [items_to_fetch] are items whose summary is not older than the
    threshold. *)
Lemma prefilter_cases (a : args) (items : list json) :
  forall (seen acc : list json) (st st' : run_state) (r : result (list json)),
    prefilter a items seen acc st = (r, st') ->
    world st' = world st /\ db st' = db st
    /\ fetched_count st' = fetched_count st /\ log st' = log st
    /\ (skipped_count st <= skipped_count st')%Z
    /\ forall out, r = Ok out ->
         skipped_count st' = (skipped_count st + Z.of_nat (List.length (summary_skipped a items seen)))%Z
         /\ forall item, In item out ->
              In item acc \/ (In item items /\ summary_older a item = Ok false).
Proof.
  induction items as [| item rest IH]; intros seen acc st st' r H; simpl in H.
  - unfold ret in H. injection H as <- <-.
    repeat (split; [first [reflexivity | lia] |]).
    intros out Hout. injection Hout as <-. split; [simpl; lia | auto].
  - simpl summary_skipped.
    apply mbind_inv in H. destruct H as [[item_id [st1 [H1 H]]] | [e [H1 ->]]];
      apply lift_inv in H1; destruct H1 as [H1 ->].
    2: { repeat (split; [first [reflexivity | lia] |]). intros out Hout. discriminate. }
    rewrite <- H1.
    apply mbind_inv in H. destruct H as [[dup [st1 [H2 H]]] | [e [H2 ->]]];
      apply lift_inv in H2; destruct H2 as [H2 ->].
    2: { repeat (split; [first [reflexivity | lia] |]). intros out Hout. discriminate. }
    rewrite <- H2. destruct dup.
    + destruct (IH _ _ _ _ _ H) as [Hw [Hd [Hf [Hl [Hs Hout]]]]].
      repeat (split; [assumption |]).
      intros out Hr. destruct (Hout out Hr) as [Hcount Hin]. split; [exact Hcount |].
      intros it Hit.
      destruct (Hin it Hit) as [? | [? ?]]; [left | right; split; [right |]]; assumption.
    + apply mbind_inv in H. destruct H as [[older [st1 [H3 H]]] | [e [H3 ->]]];
        apply lift_inv in H3; destruct H3 as [H3 ->].
      2: { repeat (split; [first [reflexivity | lia] |]). intros out Hout. discriminate. }
      rewrite <- H3. destruct older.
      * apply mbind_inv in H. destruct H as [[u [st1 [H4 H]]] | [e [H4 _]]];
          [| discriminate H4].
        unfold incr_skipped in H4. injection H4 as _ <-.
        destruct (IH _ _ _ _ _ H) as [Hw [Hd [Hf [Hl [Hs Hout]]]]]. simpl in *.
        repeat (split; [first [assumption | lia] |]).
        intros out Hr. destruct (Hout out Hr) as [Hcount Hin]. split; [lia |].
        intros it Hit.
        destruct (Hin it Hit) as [? | [? ?]]; [left | right; split; [right |]]; assumption.
      * destruct (IH _ _ _ _ _ H) as [Hw [Hd [Hf [Hl [Hs Hout]]]]].
        repeat (split; [assumption |]).
        intros out Hr. destruct (Hout out Hr) as [Hcount Hin]. split; [exact Hcount |].
        intros it Hit. destruct (Hin it Hit) as [Hacc | [? ?]].
        -- apply in_app_or in Hacc. destruct Hacc as [? | [<- | []]].
           ++ left. assumption.
           ++ right. split; [left; reflexivity | symmetry; exact H3].
        -- right. split; [right |]; assumption.
Qed.







(** ** The run: errors and skips (C4) *)

(** The loop over the completed futures never raises. *)
Lemma process_completed_total (a : args) (done : list (json * result json)) :
  forall st : run_state, fst (process_completed a done st) = Ok tt.
Proof.
  induction done as [| [item_ref future] rest IH]; intros st; simpl; [reflexivity |].
  destruct (process_future a future st) as [[[|] | e] st1]; simpl; auto.
Qed.

(** C4, as the code has it.  When the processing of one record raises,
    be it the fetch (the future holds the exception) or the commit, the
    failure is logged with the identifier of the item and the exception,
    and the loop goes on with the other records of the page; the loop
    itself never raises.  The failure is counted neither as saved nor as
    skipped: counters and store are as before.  [skipped_count] only
    moves by one for an item that fails one of the four tests of
    [skip_reason]: a fetched record under [skip_reason_of], an item of the
    page under [summary_skipped]. *)
Theorem failure_is_logged_and_the_page_goes_on (a : args) (item_ref : json)
    (future : result json) (rest : list (json * result json)) (st st1 : run_state) (e : exn) :
  process_future a future st = (Raise e, st1) ->
  process_completed a ((item_ref, future) :: rest) st
    = process_completed a rest (add_log (ErrorProcessingItem (item_id_of item_ref) e) st1)
  /\ fst (process_completed a ((item_ref, future) :: rest) st) = Ok tt
  /\ fetched_count st1 = fetched_count st
  /\ skipped_count st1 = skipped_count st
  /\ db st1 = db st
  /\ log st1 = log st
  /\ (forall (e' : exn) (st' : run_state), process_future a (Raise e') st' = (Raise e', st'))
  /\ (forall (future' : result json) (st' : run_state),
        let '(r, st'') := process_future a future' st' in
        skipped_count st'' = skipped_count st'
        \/ (skipped_count st'' = skipped_count st' + 1
            /\ exists details why,
                 future' = Ok details /\ skip_reason_of a details = Some why))%Z
  /\ (forall (items seen acc out : list json) (st' st'' : run_state),
        prefilter a items seen acc st' = (Ok out, st'') ->
        skipped_count st''
        = skipped_count st' + Z.of_nat (List.length (summary_skipped a items seen)))%Z.
Proof.
  intros H.
  assert (Hc := process_future_cases a future st). rewrite H in Hc.
  destruct Hc as [Hlog [Hf [Hs Hd]]].
  split; [simpl; rewrite H; reflexivity |].
  split; [apply process_completed_total |].
  repeat (split; [assumption |]).
  split; [reflexivity |]. split.
  - intros future' st'. assert (Hc := process_future_cases a future' st').
    destruct (process_future a future' st') as [[b | e'] st''].
    + destruct Hc as [_ [[Hs' [_ [_ [_ Hwhy]]]] | [Hs' _]]]; [right | left]; auto.
    + destruct Hc as [_ [_ [Hs' _]]]. left. exact Hs'.
  - intros items seen acc out st' st'' Hp.
    destruct (prefilter_cases a items seen acc st' st'' _ Hp) as [_ [_ [_ [_ [_ Hout]]]]].
    destruct (Hout out eq_refl) as [Hcount _]. exact Hcount.
Qed.

(** ** The run: the date threshold (C1) *)



End RunFacts.

(* ================================================================== *)
(** * Part III: the properties on the sample environment *)
(* ================================================================== *)

Import Samples.



(** C2 on the record [a], saved at noon and again in the evening. *)
Lemma save_job_twice_is_save_job_once_witness :
  get job_a "uuid" = Ok (JStr "a")
  /\ truthy (JStr "a") = true
  /\ transaction (save_job (E := env) evening job_a)
       (transaction (save_job (E := env) noon job_a) empty_store)
     = transaction (save_job (E := env) noon job_a) empty_store.
Proof.
  split; [reflexivity |]. split; [reflexivity |].
  exact (proj1 (save_job_twice_is_save_job_once (E := env) noon evening job_a (JStr "a")
                  empty_store eq_refl eq_refl)).
Defined.

(** C4, refuted as stated.  The server has no detail record for the item
    [x] of page [px]: its fetch fails after three attempts.  In the loop
    over the completed futures the failure is logged with the item and
    the other record of the page is saved; the skipped count, which is
    what the summary line of the run reports, stays at [0].  The same
    holds of the whole page. *)
Lemma failed_record_is_not_counted_as_skipped :
  fst (get_feed_entry (E := env_x) (new_client None) (JStr "x") (O : @World env_x))
  = Raise RequestException
  /\ log (snd (process_completed (E := env_x) args_px
                 [(item_x, Raise RequestException); (item_a, Ok job_a)]
                 (initial_state (O : @World env_x) empty_store)))
     = [ErrorProcessingItem (JStr "x") RequestException]
  /\ skipped_count (snd (process_completed (E := env_x) args_px
                           [(item_x, Raise RequestException); (item_a, Ok job_a)]
                           (initial_state (O : @World env_x) empty_store))) = 0%Z
  /\ fetched_count (snd (process_completed (E := env_x) args_px
                           [(item_x, Raise RequestException); (item_a, Ok job_a)]
                           (initial_state (O : @World env_x) empty_store))) = 1%Z
  /\ fst (process_page (E := env_x) (new_client None) args_px page_x
            (initial_state (O : @World env_x) empty_store)) = Ok false
  /\ log (snd (process_page (E := env_x) (new_client None) args_px page_x
                 (initial_state (O : @World env_x) empty_store)))
     = [ErrorProcessingItem (JStr "x") RequestException]
  /\ skipped_count (snd (process_page (E := env_x) (new_client None) args_px page_x
                           (initial_state (O : @World env_x) empty_store))) = 0%Z
  /\ map nav_uuid (nav_jobs (db (snd (process_page (E := env_x) (new_client None) args_px page_x
                                       (initial_state (O : @World env_x) empty_store)))))
     = [JStr "a"].
Proof.
  repeat split; vm_compute; reflexivity.
Qed.

(** C4 on page [px]: the fetch of [x] has failed. *)
Lemma failure_is_logged_and_the_page_goes_on_witness :
  process_future (E := env_x) args_px (Raise RequestException)
    (initial_state (O : @World env_x) empty_store)
  = (Raise RequestException, initial_state (O : @World env_x) empty_store)
  /\ fst (process_completed (E := env_x) args_px
            [(item_x, Raise RequestException); (item_a, Ok job_a)]
            (initial_state (O : @World env_x) empty_store))
     = Ok tt.
Proof.
  split; [reflexivity |].
  exact (proj1 (proj2 (failure_is_logged_and_the_page_goes_on (E := env_x) args_px item_x
                         (Raise RequestException) [(item_a, Ok job_a)]
                         (initial_state (O : @World env_x) empty_store)
                         (initial_state (O : @World env_x) empty_store)
                         RequestException eq_refl))).
Defined.

(** C5 on the sample feed, started at [p1]. *)
Lemma walker_starts_at_locator_witness :
  truthy (JStr "p1") = true
  /\ next (E := env) (new_client None) (Created (JStr "p1") false) (O : @World env)
     = (Ok (Some page_1), Suspended page_1, 1%nat).
Proof.
  split; [reflexivity |].
  exact (eq_trans
           (proj1 (walker_starts_at_locator_and_follows_next (E := env) (new_client None)
                     (JStr "p1") false 5 (O : @World env) eq_refl))
           eq_refl).
Defined.

(** C6 on an empty store. *)
Lemma cursor_write_keeps_one_row_witness :
  exists q : list stmt,
    update_feed_state noon (JStr "/api/v1/feed/p2") JNull JNull = Ok q
    /\ get_last_feed_state (transaction (Ok q) empty_store)
       = Some (JStr "/api/v1/feed/p2", JNull).
Proof.
  refine (ex_intro _ _ (conj eq_refl _)).
  exact (proj1 (proj2 (cursor_write_keeps_one_row noon (JStr "/api/v1/feed/p2")
                         JNull JNull _ empty_store eq_refl))).
Defined.




(** C9 on a record whose [uuid] is the empty string. *)
Lemma save_job_without_uuid_witness :
  get job_without_uuid "uuid" = Ok (JStr "")
  /\ truthy (JStr "") = false
  /\ save_job (E := env) noon job_without_uuid = Ok [].
Proof.
  split; [reflexivity |]. split; [reflexivity |].
  exact (proj1 (save_job_without_uuid_writes_nothing (E := env) noon job_without_uuid
                  (JStr "") eq_refl eq_refl)).
Defined.




(* ================================================================== *)
(** * Part IV: further properties of the program *)
(* ================================================================== *)

(** ** Stored values *)

Lemma json_eqb_eq : forall a b : json, json_eqb a b = true -> a = b.
Proof.
  induction a as [| x | n | s | xs IH | kvs IH]; intros [| y | m | t | ys | kys]; simpl;
    try discriminate; intros H.
  - reflexivity.
  - apply Bool.eqb_prop in H. congruence.
  - apply Z.eqb_eq in H. congruence.
  - apply String.eqb_eq in H. congruence.
  - f_equal. revert ys H.
    induction IH as [| x Hx xs' _ IHxs]; intros [| y ys] H; try discriminate; [reflexivity |].
    apply andb_prop in H. destruct H as [H1 H2].
    f_equal; [apply Hx; exact H1 | apply IHxs; exact H2].
  - f_equal. revert kys H.
    induction IH as [| [k v] Hkv kvs' _ IHkvs]; intros [| [k' v'] kys] H; try discriminate;
      [reflexivity |].
    inversion Hkv as [a b Hu Hv].
    apply andb_prop in H. destruct H as [Hkv' Hrest].
    apply andb_prop in Hkv'. destruct Hkv' as [Hk Hval].
    apply String.eqb_eq in Hk. subst k'.
    f_equal; [f_equal; apply Hv; exact Hval | apply IHkvs; exact Hrest].
Qed.

Lemma json_eqb_neq (a b : json) : a <> b -> json_eqb a b = false.
Proof.
  intros Hne. destruct (json_eqb a b) eqn:H; [| reflexivity].
  apply json_eqb_eq in H. contradiction.
Qed.

(** ** The writer: what [save_job] does to the other records *)

Lemma existsb_ids (u : json) (t : list job_row) :
  existsb (fun old => json_eqb (nav_uuid old) u) t = true <-> In u (map nav_uuid t).
Proof.
  rewrite existsb_exists, in_map_iff. split.
  - intros [old [Hin Heq]]. apply json_eqb_eq in Heq. eauto.
  - intros [old [Heq Hin]]. exists old. split; [exact Hin |]. rewrite Heq. apply json_eqb_refl.
Qed.

Lemma upsert_ids (r : job_row) (t : list job_row) :
  map nav_uuid (upsert r t)
  = map nav_uuid t
    ++ (if existsb (fun old => json_eqb (nav_uuid old) (nav_uuid r)) t then [] else [nav_uuid r]).
Proof.
  induction t as [| old rest IH]; simpl; [reflexivity |].
  destruct (json_eqb (nav_uuid old) (nav_uuid r)) eqn:Heq; simpl.
  - rewrite app_nil_r. reflexivity.
  - rewrite IH. reflexivity.
Qed.

Lemma upsert_ids_cases (r : job_row) (t : list job_row) :
  (In (nav_uuid r) (map nav_uuid t) /\ map nav_uuid (upsert r t) = map nav_uuid t)
  \/ (~ In (nav_uuid r) (map nav_uuid t)
      /\ map nav_uuid (upsert r t) = map nav_uuid t ++ [nav_uuid r]).
Proof.
  rewrite upsert_ids.
  destruct (existsb (fun old => json_eqb (nav_uuid old) (nav_uuid r)) t) eqn:Hex.
  - left. split; [apply existsb_ids; exact Hex | apply app_nil_r].
  - right. split; [| reflexivity].
    intros Hin. apply existsb_ids in Hin. congruence.
Qed.

Lemma rows_for_upsert_other (r : job_row) (u' : json) (t : list job_row) :
  u' <> nav_uuid r ->
  rows_for nav_uuid u' (upsert r t) = rows_for nav_uuid u' t.
Proof.
  intros Hne. unfold rows_for.
  induction t as [| old rest IH]; simpl.
  - rewrite json_eqb_neq; [reflexivity | congruence].
  - destruct (json_eqb (nav_uuid old) (nav_uuid r)) eqn:Heq; simpl.
    + apply json_eqb_eq in Heq. rewrite Heq.
      rewrite json_eqb_neq; [reflexivity | congruence].
    + rewrite IH. reflexivity.
Qed.

Lemma rows_for_replace_other {R : Type} (key : R -> json) (uuid u' : json) (t d : list R) :
  u' <> uuid ->
  Forall (fun r => key r = uuid) d ->
  rows_for key u' (delete_where key uuid t ++ d) = rows_for key u' t.
Proof.
  intros Hne Hd. unfold rows_for, delete_where. rewrite filter_app.
  assert (Hnone : filter (fun r => json_eqb (key r) u') d = []).
  { induction Hd as [| r d Hr _ IH]; simpl; [reflexivity |].
    rewrite Hr, json_eqb_neq; [exact IH | congruence]. }
  rewrite Hnone, app_nil_r.
  induction t as [| r t IH]; simpl; [reflexivity |].
  destruct (json_eqb (key r) uuid) eqn:Hr; simpl.
  - apply json_eqb_eq in Hr. rewrite Hr, json_eqb_neq; [exact IH | congruence].
  - rewrite IH. reflexivity.
Qed.

Section SaveJobFrame.

Context {E : Env}.

Lemma upsert_nav_job_created_at (now : datetime) (job : json) (r : job_row) :
  _upsert_nav_job now job = Ok [UpsertJob r] ->
  created_at r = now /\ get job "uuid" = Ok (nav_uuid r) /\ get job "status" = Ok (status r).
Proof.
  intros H. unfold _upsert_nav_job in H.
  do 7 bind_inv H. destruct x5 as [[[employer_name orgnr] desc] homepage].
  repeat bind_inv H. injection H as <-. simpl. auto.
Qed.

(** The effect of a [save_job] that goes through, with what is known of
    the rows it writes: all of them carry the identity of the record. *)
Lemma save_job_rows (now : datetime) (job uuid : json) (q : list stmt) :
  save_job now job = Ok q ->
  get job "uuid" = Ok uuid ->
  truthy uuid = true ->
  exists (r : job_row) (dl : list location_row) (dc : list contact_row)
         (dg : list category_row) (d_o : list occupation_row),
    _upsert_nav_job now job = Ok [UpsertJob r]
    /\ nav_uuid r = uuid
    /\ Forall (fun x => loc_nav_uuid x = uuid) dl
    /\ Forall (fun x => con_nav_uuid x = uuid) dc
    /\ Forall (fun x => cat_nav_uuid x = uuid) dg
    /\ Forall (fun x => occ_nav_uuid x = uuid) d_o
    /\ (forall now' q', save_job now' job = Ok q' ->
          exists r', _upsert_nav_job now' job = Ok [UpsertJob r']
            /\ forall s : store,
                 execute_all q' s =
                 mk_store (upsert r' (nav_jobs s))
                   (delete_where loc_nav_uuid uuid (nav_job_locations s) ++ dl)
                   (delete_where con_nav_uuid uuid (nav_job_contacts s) ++ dc)
                   (delete_where cat_nav_uuid uuid (nav_job_categories s) ++ dg)
                   (delete_where occ_nav_uuid uuid (nav_job_occupations s) ++ d_o)
                   (nav_feed_state s)).
Proof.
  intros Hsave Hget Htrue.
  destruct (save_job_effect now job uuid q Hsave Hget Htrue)
    as [r [dl [dc [dg [d_o [Hjob [Hdl [Hdc [Hdg [Hdo Heff]]]]]]]]]].
  exists r, dl, dc, dg, d_o.
  split; [exact Hjob |].
  split.
  { destruct (upsert_nav_job_created_at now job r Hjob) as [_ [Hu _]]. congruence. }
  split.
  { apply insert_unique_deduplicated with (row_key := location_row_key) in Hdl;
      [| apply location_row_key_of].
    exact (deduplicated_rows_uuid _ _ _ loc_nav_uuid uuid _ _ (location_row_of_uuid uuid) Hdl). }
  split.
  { apply contact_rows_verbatim in Hdc. destruct Hdc as [rows [Heq Hdc]].
    simpl in Heq. subst rows. exact (verbatim_rows_uuid uuid _ _ Hdc). }
  split.
  { apply insert_unique_deduplicated with (row_key := category_row_key) in Hdg;
      [| apply category_row_key_of].
    exact (deduplicated_rows_uuid _ _ _ cat_nav_uuid uuid _ _ (category_row_of_uuid uuid) Hdg). }
  split.
  { apply insert_unique_deduplicated with (row_key := occupation_row_key) in Hdo;
      [| apply occupation_row_key_of].
    exact (deduplicated_rows_uuid _ _ _ occ_nav_uuid uuid _ _ (occupation_row_of_uuid uuid) Hdo). }
  intros now' q' Hsave'.
  destruct (save_job_effect now' job uuid q' Hsave' Hget Htrue)
    as [r' [dl' [dc' [dg' [d_o' [Hjob' [Hdl' [Hdc' [Hdg' [Hdo' Heff']]]]]]]]]].
  rewrite Hdl in Hdl'. injection Hdl' as <-.
  rewrite Hdc in Hdc'. injection Hdc' as <-.
  rewrite Hdg in Hdg'. injection Hdg' as <-.
  rewrite Hdo in Hdo'. injection Hdo' as <-.
  exists r'. split; [exact Hjob' | exact Heff'].
Qed.

(** A [save_job] that writes nothing: the record has no identity. *)
Lemma save_job_no_uuid (now : datetime) (job uuid : json) (q : list stmt) :
  save_job now job = Ok q ->
  get job "uuid" = Ok uuid ->
  truthy uuid = false ->
  q = [].
Proof.
  intros Hsave Hget Ht. unfold save_job in Hsave.
  rewrite Hget in Hsave. simpl in Hsave. rewrite Ht in Hsave. simpl in Hsave. congruence.
Qed.

Lemma save_job_get_uuid (now : datetime) (job : json) (q : list stmt) :
  save_job now job = Ok q -> exists uuid, get job "uuid" = Ok uuid.
Proof.
  intros Hsave. unfold save_job in Hsave. bind_inv Hsave. eauto.
Qed.

(** X1.  [save_job] touches the rows of its own record only: for every
    other identity the rows of the five tables are after the call what
    they were before it, and the cursor is left alone, whether the call
    goes through or fails. *)
Theorem save_job_leaves_other_records_alone (now : datetime) (job uuid other : json)
    (s : store) :
  get job "uuid" = Ok uuid ->
  other <> uuid ->
  let s' := transaction (save_job now job) s in
  rows_for nav_uuid other (nav_jobs s') = rows_for nav_uuid other (nav_jobs s)
  /\ rows_for loc_nav_uuid other (nav_job_locations s')
     = rows_for loc_nav_uuid other (nav_job_locations s)
  /\ rows_for con_nav_uuid other (nav_job_contacts s')
     = rows_for con_nav_uuid other (nav_job_contacts s)
  /\ rows_for cat_nav_uuid other (nav_job_categories s')
     = rows_for cat_nav_uuid other (nav_job_categories s)
  /\ rows_for occ_nav_uuid other (nav_job_occupations s')
     = rows_for occ_nav_uuid other (nav_job_occupations s)
  /\ nav_feed_state s' = nav_feed_state s.
Proof.
  intros Hget Hne s'. subst s'.
  destruct (save_job now job) as [q | e] eqn:Hsave; simpl; [| repeat split].
  destruct (truthy uuid) eqn:Ht.
  - destruct (save_job_rows now job uuid q Hsave Hget Ht)
      as [r [dl [dc [dg [d_o [Hjob [Hu [Hl [Hc [Hg [Ho Heff]]]]]]]]]]].
    destruct (Heff now q Hsave) as [r' [Hjob' Hs]].
    rewrite Hjob in Hjob'. injection Hjob' as <-.
    rewrite Hs. simpl.
    rewrite rows_for_upsert_other by congruence.
    rewrite !rows_for_replace_other by assumption.
    repeat split.
  - rewrite (save_job_no_uuid now job uuid q Hsave Hget Ht). simpl. repeat split.
Qed.

End SaveJobFrame.


(** ** The writer: the identities of [nav_jobs] *)



Section SaveJobInvariants.

Context {E : Env}.

Lemma save_job_job_ids (now : datetime) (job : json) (s : store) :
  job_ids (transaction (save_job now job) s) = job_ids s
  \/ exists uuid,
       get job "uuid" = Ok uuid /\ truthy uuid = true
       /\ is_ok (save_job now job) = true
       /\ ~ In uuid (job_ids s)
       /\ job_ids (transaction (save_job now job) s) = job_ids s ++ [uuid].
Proof.
  destruct (save_job now job) as [q | e] eqn:Hsave; simpl; [| left; reflexivity].
  destruct (save_job_get_uuid now job q Hsave) as [uuid Hget].
  destruct (truthy uuid) eqn:Ht.
  - destruct (save_job_rows now job uuid q Hsave Hget Ht)
      as [r [dl [dc [dg [d_o [Hjob [Hu [_ [_ [_ [_ Heff]]]]]]]]]]].
    destruct (Heff now q Hsave) as [r' [Hjob' Hs]].
    rewrite Hjob in Hjob'. injection Hjob' as <-.
    rewrite Hs. unfold job_ids. simpl.
    destruct (upsert_ids_cases r (nav_jobs s)) as [[_ Hsame] | [Hnew Happ]].
    + left. exact Hsame.
    + right. exists uuid. rewrite Hu in *. auto.
  - rewrite (save_job_no_uuid now job uuid q Hsave Hget Ht). left. reflexivity.
Qed.

(** X2.  [save_job] never removes a row of [nav_jobs] and never moves
    one: the identities held before the call are the beginning of those
    held after it, at most one identity is added, and it is the [uuid]
    of the record.  If no two rows shared an identity before the call,
    none do after it. *)
Theorem save_job_keeps_the_job_rows_in_place (now : datetime) (job : json) (s : store) :
  let s' := transaction (save_job now job) s in
  prefix_of (job_ids s) (job_ids s')
  /\ (forall u, In u (job_ids s') -> In u (job_ids s) \/ get job "uuid" = Ok u)
  /\ (NoDup (job_ids s) -> NoDup (job_ids s')).
Proof.
  intros s'. subst s'.
  destruct (save_job_job_ids now job s) as [Hsame | [uuid [Hget [_ [_ [Hnew Happ]]]]]].
  - rewrite Hsame. split; [exists []; symmetry; apply app_nil_r |]. split; auto.
  - rewrite Happ. split; [exists [uuid]; reflexivity |]. split.
    + intros u Hin. apply in_app_or in Hin. destruct Hin as [Hin | [<- | []]]; auto.
    + intros Hnd. apply NoDup_app; [exact Hnd | repeat constructor; simpl; tauto |].
      intros x Hx [<- | []]. contradiction.
Qed.


Lemma in_delete_where {R : Type} (key : R -> json) (uuid : json) (t : list R) (r : R) :
  In r (delete_where key uuid t) -> In r t.
Proof.
  unfold delete_where. intros H. apply filter_In in H. tauto.
Qed.

Lemma children_after_replace {R : Type} (key : R -> json) (uuid : json) (t d : list R)
    (ids ids' : list json) :
  (forall r, In r t -> In (key r) ids) ->
  (forall u, In u ids -> In u ids') ->
  In uuid ids' ->
  Forall (fun r => key r = uuid) d ->
  forall r, In r (delete_where key uuid t ++ d) -> In (key r) ids'.
Proof.
  intros Ht Hsub Hu Hd r Hin. apply in_app_or in Hin. destruct Hin as [Hin | Hin].
  - apply Hsub, Ht. exact (in_delete_where key uuid t r Hin).
  - rewrite Forall_forall in Hd. rewrite (Hd r Hin). exact Hu.
Qed.

Lemma save_job_children (now : datetime) (job : json) (s : store) :
  children_have_parent s ->
  children_have_parent (transaction (save_job now job) s).
Proof.
  intros [Hl [Hc [Hg Ho]]].
  destruct (save_job now job) as [q | e] eqn:Hsave; simpl; [| repeat split; assumption].
  destruct (save_job_get_uuid now job q Hsave) as [uuid Hget].
  destruct (truthy uuid) eqn:Ht.
  - destruct (save_job_rows now job uuid q Hsave Hget Ht)
      as [r [dl [dc [dg [d_o [Hjob [Hu [Fl [Fc [Fg [Fo Heff]]]]]]]]]]].
    destruct (Heff now q Hsave) as [r' [Hjob' Hs]].
    rewrite Hjob in Hjob'. injection Hjob' as <-.
    rewrite Hs. unfold children_have_parent, job_ids. simpl.
    assert (Hsub : forall u, In u (job_ids s) -> In u (map nav_uuid (upsert r (nav_jobs s)))).
    { intros u Hin. rewrite upsert_ids. apply in_or_app. left. exact Hin. }
    assert (Hin : In uuid (map nav_uuid (upsert r (nav_jobs s)))).
    { rewrite upsert_ids.
      destruct (existsb (fun old => json_eqb (nav_uuid old) (nav_uuid r)) (nav_jobs s)) eqn:Hex.
      - rewrite app_nil_r. apply existsb_ids in Hex. rewrite <- Hu. exact Hex.
      - apply in_or_app. right. left. exact Hu. }
    repeat split; eapply children_after_replace; eassumption.
  - rewrite (save_job_no_uuid now job uuid q Hsave Hget Ht). simpl. repeat split; assumption.
Qed.

(** X4.  [save_job] keeps the child tables consistent with [nav_jobs]:
    if every row of the four child tables belongs to a row of
    [nav_jobs] before the call, the same holds after it, whether the
    call goes through or fails. *)
Theorem save_job_keeps_children_with_their_parent (now : datetime) (job : json) (s : store) :
  children_have_parent s ->
  children_have_parent (transaction (save_job now job) s).
Proof.
  exact (save_job_children now job s).
Qed.

(** The outcome of [save_job] does not depend on the time of the call. *)
Lemma save_job_at (now now' : datetime) (job uuid : json) (q : list stmt) :
  save_job now job = Ok q ->
  get job "uuid" = Ok uuid ->
  truthy uuid = true ->
  exists q', save_job now' job = Ok q'.
Proof.
  intros Hsave Hget Htrue.
  destruct (save_job_effect now job uuid q Hsave Hget Htrue)
    as [r [dl [dc [dg [d_o [Hjob _]]]]]].
  destruct (upsert_nav_job_shape now job _ Hjob) as [r0 [Hr0 [_ Hnow]]].
  destruct (Hnow now') as [r' [Hjob' _]].
  unfold save_job in *. rewrite Hget in *. simpl in *. rewrite Htrue in *. simpl in *.
  rewrite Hjob in Hsave. rewrite Hjob'. simpl in *.
  repeat bind_inv Hsave.
  repeat match goal with
         | Heq : ?e = Ok _ |- context [bind ?e _] => rewrite Heq; simpl
         end.
  eauto.
Qed.

Lemma upsert_over (r1 r2 r : job_row) (t : list job_row) :
  nav_uuid r2 = nav_uuid r1 ->
  nav_uuid r = nav_uuid r1 ->
  created_at r = created_at r1 ->
  (forall old, on_conflict_update old r2 = on_conflict_update old r) ->
  upsert r2 (upsert r1 t) = upsert r t.
Proof.
  intros Hu2 Hu Hc Hsame. induction t as [| old rest IH]; simpl.
  - rewrite Hu2, json_eqb_refl, Hsame.
    destruct r, r1; simpl in *; subst; reflexivity.
  - rewrite Hu. destruct (json_eqb (nav_uuid old) (nav_uuid r1)) eqn:Heq; simpl.
    + rewrite Hu2, Heq, Hsame. reflexivity.
    + rewrite Hu2, Heq, IH. reflexivity.
Qed.

Lemma delete_where_over {R : Type} (key : R -> json) (uuid : json) (t d1 d2 : list R) :
  Forall (fun r => key r = uuid) d1 ->
  delete_where key uuid (delete_where key uuid t ++ d1) ++ d2 = delete_where key uuid t ++ d2.
Proof.
  intros Hd. unfold delete_where. rewrite filter_app. f_equal.
  assert (Hnone : filter (fun r => negb (json_eqb (key r) uuid)) d1 = []).
  { induction Hd as [| r d Hr _ IH]; simpl; [reflexivity |].
    rewrite Hr, json_eqb_refl. exact IH. }
  rewrite Hnone, app_nil_r.
  induction t as [| r t IH]; simpl; [reflexivity |].
  destruct (negb (json_eqb (key r) uuid)) eqn:Hr; simpl; [rewrite Hr, IH |]; auto.
Qed.

(** X5.  The last write wins.  When a version of a record is saved and
    later another version with the same [uuid], the store is the one a
    single save of the later version, made at the time of the earlier
    call, would have left: nothing of the earlier version survives in any
    table, and [created_at] remains the time of the first save. *)
Theorem later_version_replaces_the_earlier (now1 now2 : datetime) (job1 job2 uuid : json)
    (s : store) :
  get job1 "uuid" = Ok uuid ->
  get job2 "uuid" = Ok uuid ->
  truthy uuid = true ->
  is_ok (save_job now1 job1) = true ->
  is_ok (save_job now2 job2) = true ->
  transaction (save_job now2 job2) (transaction (save_job now1 job1) s)
  = transaction (save_job now1 job2) s.
Proof.
  intros Hget1 Hget2 Ht Hok1 Hok2.
  destruct (save_job now1 job1) as [q1 | e] eqn:Hsave1; [| discriminate].
  destruct (save_job now2 job2) as [q2 | e] eqn:Hsave2; [| discriminate].
  destruct (save_job_at now2 now1 job2 uuid q2 Hsave2 Hget2 Ht) as [q Hsave].
  rewrite Hsave. simpl.
  destruct (save_job_rows now1 job1 uuid q1 Hsave1 Hget1 Ht)
    as [r1 [dl1 [dc1 [dg1 [do1 [Hjob1 [Hu1 [Fl1 [Fc1 [Fg1 [Fo1 Heff1]]]]]]]]]]].
  destruct (Heff1 now1 q1 Hsave1) as [r1' [Hjob1' Hs1]].
  rewrite Hjob1 in Hjob1'. injection Hjob1' as <-.
  destruct (save_job_rows now2 job2 uuid q2 Hsave2 Hget2 Ht)
    as [r2 [dl2 [dc2 [dg2 [do2 [Hjob2 [Hu2 [_ [_ [_ [_ Heff2]]]]]]]]]]].
  destruct (Heff2 now2 q2 Hsave2) as [r2' [Hjob2' Hs2]].
  rewrite Hjob2 in Hjob2'. injection Hjob2' as <-.
  destruct (Heff2 now1 q Hsave) as [r [Hjob Hs]].
  destruct (upsert_nav_job_shape now2 job2 _ Hjob2) as [r0 [Hr0 [_ Hnow]]].
  injection Hr0 as <-.
  destruct (Hnow now1) as [r0 [Hjob0 [Hu0 Hsame]]].
  rewrite Hjob in Hjob0. injection Hjob0 as <-.
  destruct (upsert_nav_job_created_at now1 job1 r1 Hjob1) as [Hc1 _].
  destruct (upsert_nav_job_created_at now1 job2 r Hjob) as [Hc _].
  rewrite Hs2, Hs1, Hs. simpl.
  assert (Hup : upsert r2 (upsert r1 (nav_jobs s)) = upsert r (nav_jobs s)).
  { apply upsert_over; first [congruence | intros old; symmetry; apply Hsame]. }
  rewrite Hup, !delete_where_over by assumption. reflexivity.
Qed.

End SaveJobInvariants.

(** ** The run: what holds from one end of the page loop to the other *)

Section RunRelation.

Context {E : Env}.

Variable a : args.
Variable R : run_state -> run_state -> Prop.

Hypothesis R_refl : forall st, R st st.
Hypothesis R_trans : forall st1 st2 st3, R st1 st2 -> R st2 st3 -> R st1 st3.
Hypothesis R_world : forall st w, R st (set_world w st).
Hypothesis R_log : forall st l, R st (add_log l st).
Hypothesis R_skipped : always R incr_skipped.
Hypothesis R_future : forall future, always R (process_future a future).
Hypothesis R_cursor : forall next_url metadata, always R (db_update_feed_state next_url metadata).

Lemma always_ret {A : Type} (x : A) : always R (ret x).
Proof.
  intros st st' r H. unfold ret in H. injection H as _ <-. apply R_refl.
Qed.

Lemma always_lift {A : Type} (x : result A) : always R (lift x).
Proof.
  intros st st' r H. unfold lift in H. injection H as _ <-. apply R_refl.
Qed.

Lemma always_bind {A B : Type} (m : M A) (k : A -> M B) :
  always R m -> (forall x, always R (k x)) -> always R (mbind m k).
Proof.
  intros Hm Hk st st' r H.
  apply mbind_inv in H. destruct H as [[x [st1 [H1 H2]]] | [e [H1 _]]].
  - exact (R_trans _ _ _ (Hm _ _ _ H1) (Hk x _ _ _ H2)).
  - exact (Hm _ _ _ H1).
Qed.

Lemma always_prefilter (items : list json) :
  forall seen acc, always R (prefilter a items seen acc).
Proof.
  induction items as [| item rest IH]; intros seen acc; simpl.
  - apply always_ret.
  - apply always_bind; [apply always_lift |]. intros item_id.
    apply always_bind; [apply always_lift |]. intros [|]; [apply IH |].
    apply always_bind; [apply always_lift |]. intros [|]; [| apply IH].
    apply always_bind; [exact R_skipped |]. intros _. apply IH.
Qed.

Lemma always_run_pool (self : client) (items : list (json * json)) :
  always R (run_pool self items).
Proof.
  intros st st' r H. unfold run_pool in H.
  destruct (submit_all self items (world st)) as [futures w].
  injection H as _ <-. apply R_world.
Qed.

Lemma always_process_completed (done : list (json * result json)) :
  always R (process_completed a done).
Proof.
  induction done as [| [item_ref future] rest IH]; simpl.
  - apply always_ret.
  - intros st st' r H.
    destruct (process_future a future st) as [[[|] | e] st1] eqn:Hf.
    + injection H as _ <-. exact (R_future _ _ _ _ Hf).
    + exact (R_trans _ _ _ (R_future _ _ _ _ Hf) (IH _ _ _ H)).
    + refine (R_trans _ _ _ (R_future _ _ _ _ Hf) _).
      exact (R_trans _ _ _ (R_log _ _) (IH _ _ _ H)).
Qed.

Lemma always_process_page (self : client) (page : json) :
  always R (process_page self a page).
Proof.
  unfold process_page.
  apply always_bind; [apply always_lift |]. intros items.
  apply always_bind; [apply always_lift |]. intros _.
  apply always_bind; [apply always_lift |]. intros entries.
  apply always_bind; [apply always_prefilter |]. intros [| i0 others].
  - apply always_bind; [apply always_lift |]. intros next_url.
    apply always_bind; [| intros _; apply always_ret].
    destruct (truthy next_url); [apply R_cursor | apply always_ret].
  - apply always_bind; [apply always_lift |]. intros ids.
    apply always_bind; [apply always_run_pool |]. intros done.
    apply always_bind; [apply always_process_completed |]. intros _.
    intros st st' r. destruct (limit_reached a (fetched_count st)).
    + revert st st' r.
      apply always_bind; [apply always_lift |]. intros current_id.
      apply always_bind; [| intros _; apply always_ret].
      destruct (truthy current_id); [| apply always_ret].
      apply always_bind; [apply always_lift |]. intros metadata. apply R_cursor.
    + revert st st' r.
      apply always_bind; [apply always_lift |]. intros next_url.
      apply always_bind; [apply always_lift |]. intros current_id.
      apply always_bind; [| intros _; apply always_ret].
      match goal with |- context [if ?c then _ else _] => destruct c end; [| apply always_ret].
      apply always_bind; [apply always_lift |]. intros metadata. apply R_cursor.
Qed.

Lemma always_next_page (self : client) (g : generator) : always R (next_page self g).
Proof.
  intros st st' r H. unfold next_page in H.
  destruct (next self g (world st)) as [[[p | e] g'] w]; injection H as _ <-; apply R_world.
Qed.

Lemma always_sync_loop (self : client) (fuel : nat) :
  forall g, always R (sync_loop self a fuel g).
Proof.
  induction fuel as [| k IH]; intros g; simpl.
  - apply always_ret.
  - apply always_bind; [apply always_next_page |]. intros [[page |] g'].
    + apply always_bind; [apply always_process_page |]. intros [|]; [apply always_ret | apply IH].
    + apply always_ret.
Qed.

End RunRelation.

Section RunWrites.

Context {E : Env}.

Lemma written_trans (a : args) (s s1 s2 : store) (ds1 ds2 : list json) :
  written a s ds1 s1 -> written a s1 ds2 s2 -> written a s (ds1 ++ ds2) s2.
Proof.
  intros H1 H2. induction H2 as [| ds2 s2 now details _ IH Hskip Hok
                                  | ds2 s2 now next_url metadata q _ IH Hq].
  - rewrite app_nil_r. exact H1.
  - rewrite app_assoc. apply written_job; assumption.
  - eapply written_cursor; eassumption.
Qed.

Lemma run_step_refl (a : args) (st : run_state) : run_step a st st.
Proof.
  exists []. split; [constructor | simpl; lia].
Qed.

Lemma run_step_trans (a : args) (st1 st2 st3 : run_state) :
  run_step a st1 st2 -> run_step a st2 st3 -> run_step a st1 st3.
Proof.
  intros [ds1 [H1 Hf1]] [ds2 [H2 Hf2]]. exists (ds1 ++ ds2).
  split; [exact (written_trans a _ _ _ _ _ H1 H2) |].
  rewrite length_app. lia.
Qed.

Lemma run_step_future (a : args) (future : result json) :
  always (run_step a) (process_future a future).
Proof.
  intros st st' r H. assert (Hc := process_future_cases a future st). rewrite H in Hc.
  destruct Hc as [_ Hc]. destruct r as [b | e].
  - destruct Hc as [[_ [Hf [Hd _]]] | [_ [Hf [_ [details [now [_ [Hskip [Hok Hd]]]]]]]]].
    + exists []. rewrite Hd, Hf. split; [constructor | simpl; lia].
    + exists [details]. rewrite Hd, Hf. split; [| simpl; lia].
      apply (written_job a (db st) [] (db st) now details); [constructor | exact Hskip | exact Hok].
  - destruct Hc as [Hf [_ Hd]]. exists []. rewrite Hd, Hf. split; [constructor | simpl; lia].
Qed.

Lemma run_step_cursor (a : args) (next_url metadata : json) :
  always (run_step a) (db_update_feed_state next_url metadata).
Proof.
  intros st st' r H. unfold db_update_feed_state in H.
  destruct (datetime_now (world st)) as [now w].
  destruct (update_feed_state now next_url JNull metadata) as [q | e] eqn:Hq;
    injection H as _ <-; exists []; simpl.
  - split; [| lia]. eapply written_cursor; [constructor | exact Hq].
  - split; [constructor | lia].
Qed.

(** The relation [run_step] holds across each step of the run. *)
Lemma run_step_always (a : args) :
  (forall st w, run_step a st (set_world w st))
  /\ (forall st l, run_step a st (add_log l st))
  /\ always (run_step a) incr_skipped.
Proof.
  split; [| split].
  - intros st w. exists []. split; [constructor | simpl; lia].
  - intros st l. exists []. split; [constructor | simpl; lia].
  - intros st st' r H. unfold incr_skipped in H. injection H as _ <-.
    exists []. split; [constructor | simpl; lia].
Qed.

Lemma process_page_written (self : client) (a : args) (page : json) :
  always (run_step a) (process_page self a page).
Proof.
  destruct (run_step_always a) as [Hw [Hl Hs]].
  apply always_process_page; first
    [ exact Hw | exact Hl | exact Hs | exact (run_step_refl a) | exact (run_step_trans a)
    | exact (run_step_future a) | exact (run_step_cursor a) ].
Qed.

Lemma sync_loop_written (self : client) (a : args) (fuel : nat) (g : generator) :
  always (run_step a) (sync_loop self a fuel g).
Proof.
  destruct (run_step_always a) as [Hw [Hl Hs]].
  apply always_sync_loop; first
    [ exact Hw | exact Hl | exact Hs | exact (run_step_refl a) | exact (run_step_trans a)
    | exact (run_step_future a) | exact (run_step_cursor a) ].
Qed.

End RunWrites.

Section RunInvariants.

Context {E : Env}.

(** A property of the store that is kept by [save_job] on the records a
    run saves, and by a write of the cursor, is kept by every sequence of
    transactions of the run. *)
Lemma written_invariant (a : args) (P : store -> Prop) :
  (forall now details s,
      skip_reason_of a details = None -> is_ok (save_job now details) = true ->
      P s -> P (transaction (save_job now details) s)) ->
  (forall s r, P s -> P (execute_all [DeleteFeedState; InsertFeedState r] s)) ->
  forall s ds s', written a s ds s' -> P s -> P s'.
Proof.
  intros Hsave Hcursor s ds s' Hw H0.
  induction Hw as [| ds s' now details _ IH Hskip Hok | ds s' now next_url metadata q _ IH Hq].
  - exact H0.
  - apply Hsave; assumption.
  - apply update_feed_state_shape in Hq. destruct Hq as [r [-> _]].
    apply Hcursor. exact IH.
Qed.

Lemma prefix_of_trans {A : Type} (l1 l2 l3 : list A) :
  prefix_of l1 l2 -> prefix_of l2 l3 -> prefix_of l1 l3.
Proof.
  intros [r1 ->] [r2 ->]. exists (r1 ++ r2). rewrite app_assoc. reflexivity.
Qed.

Lemma save_job_prefix (now : datetime) (job : json) (s : store) :
  prefix_of (job_ids s) (job_ids (transaction (save_job now job) s)).
Proof.
  destruct (save_job_job_ids now job s) as [Hsame | [uuid [_ [_ [_ [_ Happ]]]]]].
  - rewrite Hsame. exists []. symmetry. apply app_nil_r.
  - rewrite Happ. exists [uuid]. reflexivity.
Qed.

Lemma save_job_nodup (now : datetime) (job : json) (s : store) :
  NoDup (job_ids s) -> NoDup (job_ids (transaction (save_job now job) s)).
Proof.
  intros Hnd.
  destruct (save_job_job_ids now job s) as [Hsame | [uuid [_ [_ [_ [Hnew Happ]]]]]].
  - rewrite Hsame. exact Hnd.
  - rewrite Happ. apply NoDup_app; [exact Hnd | repeat constructor; simpl; tauto |].
    intros x Hx [<- | []]. contradiction.
Qed.

(** *** The identities of the saved records *)

Lemma ids_after_app (ds1 ds2 : list json) :
  forall ids, ids_after ids (ds1 ++ ds2) = ids_after (ids_after ids ds1) ds2.
Proof.
  induction ds1 as [| d rest IH]; intros ids; simpl; [reflexivity | apply IH].
Qed.

Lemma ids_after_length (ds : list json) :
  forall ids, (List.length (ids_after ids ds) <= List.length ids + List.length ds)%nat.
Proof.
  induction ds as [| d rest IH]; intros ids; simpl; [lia |].
  match goal with
  | |- context [ids_after ?l rest] =>
      assert (Hl : (List.length l <= S (List.length ids))%nat);
        [| specialize (IH l); lia]
  end.
  destruct (truthy (uuid_of d) && negb (existsb (fun x => json_eqb x (uuid_of d)) ids));
    [rewrite length_app; simpl; lia | lia].
Qed.

Lemma existsb_in_ids (u : json) (ids : list json) :
  existsb (fun x => json_eqb x u) ids = true <-> In u ids.
Proof.
  rewrite existsb_exists. split.
  - intros [x [Hin Heq]]. apply json_eqb_eq in Heq. subst. exact Hin.
  - intros Hin. exists u. split; [exact Hin | apply json_eqb_refl].
Qed.


Lemma ids_after_keeps (ds : list json) :
  forall ids u, In u ids -> In u (ids_after ids ds).
Proof.
  induction ds as [| d rest IH]; intros ids u Hin; simpl; [exact Hin |].
  apply IH.
  destruct (truthy (uuid_of d) && negb (existsb (fun x => json_eqb x (uuid_of d)) ids));
    [apply in_or_app; left |]; exact Hin.
Qed.

Lemma ids_after_holds (ds : list json) :
  forall ids d, In d ds -> truthy (uuid_of d) = true -> In (uuid_of d) (ids_after ids ds).
Proof.
  induction ds as [| d0 rest IH]; intros ids d Hin Ht; [destruct Hin |].
  simpl. destruct Hin as [-> | Hin]; [| apply IH; assumption].
  apply ids_after_keeps. rewrite Ht. simpl.
  destruct (existsb (fun x => json_eqb x (uuid_of d)) ids) eqn:Hex; simpl.
  - apply existsb_in_ids. exact Hex.
  - apply in_or_app. right. left. reflexivity.
Qed.

Lemma save_job_uuid_of (now : datetime) (d uuid : json) :
  get d "uuid" = Ok uuid -> uuid_of d = uuid.
Proof.
  intros H. unfold uuid_of. rewrite H. reflexivity.
Qed.

Lemma save_job_ids_after (now : datetime) (d : json) (s : store) :
  is_ok (save_job now d) = true ->
  job_ids (transaction (save_job now d) s) = ids_after (job_ids s) [d].
Proof.
  intros Hok. destruct (save_job now d) as [q | e] eqn:Hsave; [| discriminate].
  destruct (save_job_get_uuid now d q Hsave) as [uuid Hget].
  simpl. rewrite (save_job_uuid_of now d uuid Hget).
  destruct (truthy uuid) eqn:Ht; simpl.
  - destruct (save_job_rows now d uuid q Hsave Hget Ht)
      as [r [dl [dc [dg [d_o [Hjob [Hu [_ [_ [_ [_ Heff]]]]]]]]]]].
    destruct (Heff now q Hsave) as [r' [Hjob' Hs]].
    rewrite Hjob in Hjob'. injection Hjob' as <-.
    rewrite Hs. unfold job_ids. simpl. rewrite upsert_ids, Hu.
    assert (Hex : existsb (fun x => json_eqb x uuid) (map nav_uuid (nav_jobs s))
                  = existsb (fun old => json_eqb (nav_uuid old) uuid) (nav_jobs s)).
    { induction (nav_jobs s) as [| old rest IH]; simpl; [reflexivity | rewrite IH; reflexivity]. }
    rewrite Hex.
    destruct (existsb (fun old => json_eqb (nav_uuid old) uuid) (nav_jobs s)); simpl;
      [apply app_nil_r | reflexivity].
  - rewrite (save_job_no_uuid now d uuid q Hsave Hget Ht). reflexivity.
Qed.

Lemma written_ids (a : args) (s s' : store) (ds : list json) :
  written a s ds s' -> job_ids s' = ids_after (job_ids s) ds.
Proof.
  induction 1 as [| ds s' now details _ IH Hskip Hok | ds s' now next_url metadata q _ IH Hq].
  - reflexivity.
  - rewrite (save_job_ids_after now details s' Hok), IH. symmetry. apply ids_after_app.
  - apply update_feed_state_shape in Hq. destruct Hq as [r [-> _]]. exact IH.
Qed.

(** *** The rows of the saved records *)






(** X6.  All that the loop over the pages does to the database is a
    sequence of transactions of two kinds: [save_job] going through on a
    detail record that passes every test of the run (it is not empty,
    not [INACTIVE], has [ad_content], and is not dated before the
    threshold), and writes of the cursor.  The count of saved records
    grows by the number of the former.  The identities of [nav_jobs]
    after the loop are those it held before followed by the [uuid]s of
    the saved records, each once, so [nav_jobs] grows by no more rows
    than records are counted, with or without a limit. *)
Theorem run_writes_saved_records_and_cursors_only (self : client) (a : args) (fuel : nat)
    (g : generator) (st : run_state) :
  let st' := snd (sync_loop self a fuel g st) in
  exists ds : list json,
    written a (db st) ds (db st')
    /\ fetched_count st' = (fetched_count st + Z.of_nat (List.length ds))%Z
    /\ job_ids (db st') = ids_after (job_ids (db st)) ds
    /\ (List.length (nav_jobs (db st')) <= List.length (nav_jobs (db st)) + List.length ds)%nat.
Proof.
  intros st'. subst st'.
  destruct (sync_loop self a fuel g st) as [r st'] eqn:Hrun.
  destruct (sync_loop_written self a fuel g st st' r Hrun) as [ds [Hw Hf]].
  exists ds. simpl. split; [exact Hw |]. split; [exact Hf |].
  assert (Hids := written_ids a _ _ _ Hw). split; [exact Hids |].
  assert (Hlen := ids_after_length ds (job_ids (db st))).
  rewrite <- Hids in Hlen. unfold job_ids in Hlen. rewrite !length_map in Hlen. exact Hlen.
Qed.

(** X7.  From one end of the loop over the pages to the other, whatever
    the feed answers and however the loop ends: no row of [nav_jobs] is
    removed or moved (the identities held before are the beginning of
    those held after); if the identities were distinct they still are;
    and if every child row belonged to a row of [nav_jobs], every child
    row still does. *)
Theorem run_keeps_the_job_tables_consistent (self : client) (a : args) (fuel : nat)
    (g : generator) (st : run_state) :
  let s := db st in
  let s' := db (snd (sync_loop self a fuel g st)) in
  prefix_of (job_ids s) (job_ids s')
  /\ (NoDup (job_ids s) -> NoDup (job_ids s'))
  /\ (children_have_parent s -> children_have_parent s').
Proof.
  intros s s'. subst s s'.
  destruct (sync_loop self a fuel g st) as [r st'] eqn:Hrun.
  destruct (sync_loop_written self a fuel g st st' r Hrun) as [ds [Hw _]]. simpl.
  split; [| split].
  - refine (written_invariant a (fun x => prefix_of (job_ids (db st)) (job_ids x)) _ _ _ _ _ Hw _).
    + intros now details s0 _ _ H0.
      exact (prefix_of_trans _ _ _ H0 (save_job_prefix now details s0)).
    + intros s0 r0 H0. exact H0.
    + exists []. symmetry. apply app_nil_r.
  - intros Hnd.
    refine (written_invariant a (fun x => NoDup (job_ids x)) _ _ _ _ _ Hw Hnd).
    + intros now details s0 _ _ H0. exact (save_job_nodup now details s0 H0).
    + intros s0 r0 H0. exact H0.
  - intros Hch.
    refine (written_invariant a children_have_parent _ _ _ _ _ Hw Hch).
    + intros now details s0 _ _ H0. exact (save_job_children now details s0 H0).
    + intros s0 r0 H0. exact H0.
Qed.

Lemma upsert_Forall (P : job_row -> Prop) (r : job_row) (t : list job_row) :
  P r -> (forall old, P (on_conflict_update old r)) -> Forall P t -> Forall P (upsert r t).
Proof.
  intros Hr Hc Ht. induction Ht as [| old rest Hold Hrest IH]; simpl.
  - repeat constructor. exact Hr.
  - destruct (json_eqb (nav_uuid old) (nav_uuid r)); constructor; auto.
Qed.

Lemma save_job_not_inactive (a : args) (now : datetime) (details : json) (s : store) :
  skip_reason_of a details = None ->
  Forall not_inactive (nav_jobs s) ->
  Forall not_inactive (nav_jobs (transaction (save_job now details) s)).
Proof.
  intros Hskip Hall.
  destruct (save_job now details) as [q | e] eqn:Hsave; simpl; [| exact Hall].
  destruct (save_job_get_uuid now details q Hsave) as [uuid Hget].
  destruct (truthy uuid) eqn:Ht.
  - destruct (save_job_rows now details uuid q Hsave Hget Ht)
      as [r [dl [dc [dg [d_o [Hjob [Hu [_ [_ [_ [_ Heff]]]]]]]]]]].
    destruct (Heff now q Hsave) as [r' [Hjob' Hs]].
    rewrite Hjob in Hjob'. injection Hjob' as <-.
    rewrite Hs. simpl.
    destruct (upsert_nav_job_created_at now details r Hjob) as [_ [_ Hstatus]].
    assert (Hr : not_inactive r).
    { unfold not_inactive. unfold skip_reason_of in Hskip.
      destruct (negb (truthy details)); [discriminate |].
      rewrite Hstatus in Hskip.
      destruct (get details "ad_content") as [adc | e] eqn:Had.
      - destruct (eq_str (status r) "INACTIVE"); [discriminate Hskip | reflexivity].
      - destruct (get_dict _ _ _ Hget) as [kvs ->]. discriminate Had. }
    apply upsert_Forall; [exact Hr | intros old; exact Hr | exact Hall].
  - rewrite (save_job_no_uuid now details uuid q Hsave Hget Ht). exact Hall.
Qed.

(** X8.  The loop over the pages never stores a record whose status is
    [INACTIVE]: if no row of [nav_jobs] has that status when the loop is
    entered, none has it when the loop is left, whatever the feed
    holds. *)
Theorem run_stores_no_inactive_record (self : client) (a : args) (fuel : nat)
    (g : generator) (st : run_state) :
  Forall not_inactive (nav_jobs (db st)) ->
  Forall not_inactive (nav_jobs (db (snd (sync_loop self a fuel g st)))).
Proof.
  intros Hall.
  destruct (sync_loop self a fuel g st) as [r st'] eqn:Hrun.
  destruct (sync_loop_written self a fuel g st st' r Hrun) as [ds [Hw _]]. simpl.
  refine (written_invariant a (fun x => Forall not_inactive (nav_jobs x)) _ _ _ _ _ Hw Hall).
  - intros now details s0 Hskip _ H0. exact (save_job_not_inactive a now details s0 Hskip H0).
  - intros s0 r0 H0. exact H0.
Qed.

(** ** The run: the limit (C3) *)


End RunInvariants.

(** ** The run: the items handed to the thread pool *)

Section PrefilterFacts.

Context {E : Env}.

Lemma subsequence_refl {A : Type} (l : list A) : subsequence l l.
Proof.
  induction l; constructor; assumption.
Qed.

Lemma subsequence_nil_l {A : Type} (l : list A) : subsequence [] l.
Proof.
  induction l; constructor; assumption.
Qed.

Lemma subsequence_app {A : Type} (l1 l1' l2 l2' : list A) :
  subsequence l1 l1' -> subsequence l2 l2' -> subsequence (l1 ++ l2) (l1' ++ l2').
Proof.
  intros H1 H2. induction H1; simpl; [exact H2 | |]; constructor; assumption.
Qed.

(** What the pre-filter keeps, beyond [acc], is taken from [items] in
    their order; its identifiers are in [seen] at the end, so that no
    two kept items have equal identifiers. *)
Lemma prefilter_kept (a : args) (items : list json) :
  forall (seen acc out : list json) (st st' : run_state),
    prefilter a items seen acc st = (Ok out, st') ->
    exists kept,
      out = acc ++ kept
      /\ subsequence kept items
      /\ Forall (fun x => existsb (py_eq (item_id_of x)) seen = false) kept
      /\ distinct_ids kept.
Proof.
  induction items as [| item rest IH]; intros seen acc out st st' H; simpl in H.
  - unfold ret in H. injection H as <- _. exists []. rewrite app_nil_r.
    repeat split; constructor.
  - apply mbind_inv in H. destruct H as [[item_id [st1 [H1 H]]] | [e [_ ?]]]; [| discriminate].
    apply lift_inv in H1. destruct H1 as [H1 ->].
    apply mbind_inv in H. destruct H as [[dup [st1 [H2 H]]] | [e [_ ?]]]; [| discriminate].
    apply lift_inv in H2. destruct H2 as [H2 ->].
    assert (Hrest : forall seen' acc' st0,
               prefilter a rest seen' acc' st0 = (Ok out, st') ->
               (forall x, existsb (py_eq x) seen = true -> existsb (py_eq x) seen' = true) ->
               exists kept,
                 out = acc' ++ kept /\ subsequence kept (item :: rest)
                 /\ Forall (fun x => existsb (py_eq (item_id_of x)) seen' = false) kept
                 /\ distinct_ids kept).
    { intros seen' acc' st0 H0 _. destruct (IH _ _ _ _ _ H0) as [kept [Hout [Hsub [Hseen Hd]]]].
      exists kept. repeat split; try assumption. constructor. exact Hsub. }
    assert (Hweak : forall kept,
               Forall (fun x => existsb (py_eq (item_id_of x)) (item_id :: seen) = false) kept ->
               Forall (fun x => existsb (py_eq (item_id_of x)) seen = false) kept).
    { intros kept Hk. eapply Forall_impl; [| exact Hk]. simpl. intros x Hx.
      apply orb_false_iff in Hx. tauto. }
    destruct dup.
    + destruct (Hrest _ _ _ H (fun _ h => h)) as [kept [Hout [Hsub [Hseen Hd]]]].
      exists kept. auto.
    + apply mbind_inv in H. destruct H as [[older [st1 [H3 H]]] | [e [_ ?]]]; [| discriminate].
      apply lift_inv in H3. destruct H3 as [H3 ->].
      destruct older.
      * apply mbind_inv in H. destruct H as [[u [st1 [_ H]]] | [e [_ ?]]]; [| discriminate].
        destruct (Hrest _ _ _ H (fun x h => orb_true_intro _ _ (or_intror h)))
          as [kept [Hout [Hsub [Hseen Hd]]]].
        exists kept. auto.
      * destruct (IH _ _ _ _ _ H) as [kept [Hout [Hsub [Hseen Hd]]]].
        exists (item :: kept). rewrite Hout, <- app_assoc. simpl.
        assert (Hid : item_id_of item = item_id).
        { unfold item_id_of. rewrite <- H1. reflexivity. }
        split; [reflexivity |]. split; [constructor; exact Hsub |]. split.
        -- constructor; [| exact (Hweak kept Hseen)].
           rewrite Hid. unfold set_in in H2.
           destruct (hashable item_id); [| discriminate]. congruence.
        -- constructor; [| exact Hd].
           eapply Forall_impl; [| exact Hseen]. simpl. intros x Hx.
           apply orb_false_iff in Hx. destruct Hx as [Hx _].
           rewrite Hid, py_eq_sym. exact Hx.
Qed.

(** X9.  The items of a page that are handed to the thread pool are
    items of the page, in the order of the page, and no two of them have
    the same identifier: one request at most is made for an identifier
    on a page, even when the page lists it several times. *)
Theorem pool_gets_each_identifier_once (a : args) (items out : list json)
    (st st' : run_state) :
  prefilter a items [] [] st = (Ok out, st') ->
  subsequence out items /\ distinct_ids out.
Proof.
  intros H. destruct (prefilter_kept a items [] [] out st st' H) as [kept [-> [Hsub [_ Hd]]]].
  simpl. auto.
Qed.

End PrefilterFacts.

(** ** The run: every completed future is accounted for *)

Section Accounting.

Context {E : Env}.

(** The three ways a completed future can end: counted as saved, counted
    as skipped, or logged as an error. *)
Lemma process_completed_accounts (a : args) (done : list (json * result json)) :
  forall (st st' : run_state) (r : result unit),
    process_completed a done st = (r, st') ->
    (fetched_count st <= fetched_count st'
     /\ skipped_count st <= skipped_count st'
     /\ (List.length (log st) <= List.length (log st'))%nat
     /\ (fetched_count st' - fetched_count st) + (skipped_count st' - skipped_count st)
        + (Z.of_nat (List.length (log st')) - Z.of_nat (List.length (log st)))
        <= Z.of_nat (List.length done)
     /\ (limit_reached a (fetched_count st') = false ->
         (fetched_count st' - fetched_count st) + (skipped_count st' - skipped_count st)
         + (Z.of_nat (List.length (log st')) - Z.of_nat (List.length (log st)))
         = Z.of_nat (List.length done)))%Z.
Proof.
  induction done as [| [item_ref future] rest IH]; intros st st' r H.
  - simpl in H. unfold ret in H. injection H as _ <-. simpl. repeat split; lia.
  - simpl in H. assert (Hc := process_future_cases a future st).
    destruct (process_future a future st) as [[b | e] st1].
    + destruct Hc as [Hl [[Hs [Hf [_ [-> _]]]] | [Hs [Hf [Hb _]]]]].
      * apply IH in H. destruct H as [H1 [H2 [H3 [H4 H5]]]].
        rewrite Hl, Hs, Hf in *. change (List.length (_ :: rest)) with (S (List.length rest)).
        repeat split; try lia. intros Hlim. specialize (H5 Hlim). lia.
      * destruct b.
        -- injection H as _ <-. rewrite Hl, Hs, Hf.
           change (List.length (_ :: rest)) with (S (List.length rest)).
           repeat split; try lia. intros Hlim. rewrite Hf in Hb. congruence.
        -- apply IH in H. destruct H as [H1 [H2 [H3 [H4 H5]]]].
           rewrite Hl, Hs, Hf in *. change (List.length (_ :: rest)) with (S (List.length rest)).
           repeat split; try lia. intros Hlim. specialize (H5 Hlim). lia.
    + destruct Hc as [Hl [Hf [Hs _]]].
      apply IH in H. destruct H as [H1 [H2 [H3 [H4 H5]]]].
      simpl in H1, H2, H3, H4, H5. rewrite length_app in *. simpl in H3, H4, H5.
      rewrite Hl, Hs, Hf in *. change (List.length (_ :: rest)) with (S (List.length rest)).
      repeat split; try lia. intros Hlim. specialize (H5 Hlim). lia.
Qed.

(** X10.  Every completed future of a page ends in exactly one of
    three ways: its record is counted as saved, it is counted as
    skipped, or its failure is logged.  Unless the limit stops the loop,
    the three counts grow together by the number of futures; when the
    limit stops it, by no more than that. *)
Theorem every_future_is_saved_skipped_or_logged (a : args) (done : list (json * result json))
    (st : run_state) :
  let st' := snd (process_completed a done st) in
  let saved := (fetched_count st' - fetched_count st)%Z in
  let skipped := (skipped_count st' - skipped_count st)%Z in
  let failed := (Z.of_nat (List.length (log st')) - Z.of_nat (List.length (log st)))%Z in
  (0 <= saved /\ 0 <= skipped /\ 0 <= failed
   /\ saved + skipped + failed <= Z.of_nat (List.length done)
   /\ (limit_reached a (fetched_count st') = false ->
       saved + skipped + failed = Z.of_nat (List.length done)))%Z.
Proof.
  intros st' saved skipped failed. subst st' saved skipped failed.
  destruct (process_completed a done st) as [r st'] eqn:H.
  destruct (process_completed_accounts a done st st' r H) as [H1 [H2 [H3 [H4 H5]]]].
  simpl. repeat split; try lia. exact H5.
Qed.

(** X11.  A detail record that passes every test of the run but has no
    identity ([uuid] missing, null or empty) is counted as saved, and
    may end the run through the limit, although [save_job] writes
    nothing for it. *)
Theorem record_without_uuid_is_counted_as_saved (a : args) (details uuid : json)
    (st : run_state) :
  get details "uuid" = Ok uuid ->
  truthy uuid = false ->
  skip_reason_of a details = None ->
  is_ok (detail_older a details) = true ->
  let '(r, st') := process_future a (Ok details) st in
  r = Ok (limit_reached a (fetched_count st + 1))
  /\ fetched_count st' = (fetched_count st + 1)%Z
  /\ skipped_count st' = skipped_count st
  /\ db st' = db st
  /\ log st' = log st.
Proof.
  intros Hget Ht Hskip Hok.
  destruct (get_dict _ _ _ Hget) as [kvs Hd].
  assert (Hsave : forall now, save_job now details = Ok []).
  { intros now. unfold save_job. rewrite Hget. simpl. rewrite Ht. reflexivity. }
  unfold skip_reason_of in Hskip. unfold process_future, mbind, lift, ret, incr_skipped.
  destruct (negb (truthy details)); [discriminate |].
  destruct (get details "status") as [status | e] eqn:Hstatus; [| subst; discriminate].
  destruct (get details "ad_content") as [adc | e] eqn:Hadc; [| subst; discriminate].
  destruct (eq_str status "INACTIVE" || negb (truthy adc)); [discriminate |].
  destruct (detail_older a details) as [[|] | e]; try discriminate.
  unfold db_save_job. destruct (datetime_now (world st)) as [now w].
  rewrite Hsave. simpl. repeat split.
Qed.

End Accounting.

(** ** The run: leaving the page loop *)

Section LoopFacts.

Context {E : Env}.

Lemma db_update_feed_state_frame (next_url metadata : json) (st st' : run_state)
    (r : result unit) :
  db_update_feed_state next_url metadata st = (r, st') ->
  fetched_count st' = fetched_count st
  /\ skipped_count st' = skipped_count st
  /\ log st' = log st
  /\ (r = Ok tt -> get_last_feed_state (db st') = Some (next_url, JNull))
  /\ (forall e, r = Raise e -> db st' = db st).
Proof.
  unfold db_update_feed_state. destruct (datetime_now (world st)) as [now w].
  destruct (update_feed_state now next_url JNull metadata) as [q | e] eqn:Hq;
    intros H; injection H as <- <-; simpl.
  - apply update_feed_state_shape in Hq. destruct Hq as [row [-> [Hn Hl]]].
    repeat split; try discriminate.
    intros _. unfold get_last_feed_state. simpl. rewrite Hn, Hl. reflexivity.
  - repeat split; try discriminate.
Qed.

(** Splits [mbind m k st = (Ok b, st')] into the two steps. *)
Ltac step_ok H x st1 H1 :=
  apply mbind_inv in H;
  destruct H as [[x [st1 [H1 H]]] | [? [_ ?]]]; [| discriminate].




(** *** The arguments the loop depends on *)

Lemma mbind_ext {A B : Type} (m m' : M A) (k k' : A -> M B) :
  (forall st, m st = m' st) ->
  (forall x st, k x st = k' x st) ->
  forall st, mbind m k st = mbind m' k' st.
Proof.
  intros Hm Hk st. unfold mbind. rewrite Hm.
  destruct (m' st) as [[x | e] st1]; [apply Hk | reflexivity].
Qed.

Section SameTests.

Variables a a' : args.

Hypothesis same_threshold : filter_date a = filter_date a'.
Hypothesis same_limit : forall n, limit_reached a n = limit_reached a' n.

Lemma summary_older_args (item : json) : summary_older a item = summary_older a' item.
Proof.
  unfold summary_older. rewrite same_threshold. reflexivity.
Qed.

Lemma detail_older_args (details : json) : detail_older a details = detail_older a' details.
Proof.
  unfold detail_older. rewrite same_threshold. reflexivity.
Qed.

Lemma prefilter_args (items : list json) :
  forall seen acc st, prefilter a items seen acc st = prefilter a' items seen acc st.
Proof.
  induction items as [| item rest IH]; intros seen acc st; simpl; [reflexivity |].
  apply mbind_ext; [reflexivity |]. intros item_id st1.
  apply mbind_ext; [reflexivity |]. intros [|] st2; [apply IH |].
  apply mbind_ext; [intros st3; rewrite summary_older_args; reflexivity |].
  intros [|] st3; [| apply IH].
  apply mbind_ext; [reflexivity |]. intros _ st4. apply IH.
Qed.

Lemma process_future_args (future : result json) (st : run_state) :
  process_future a future st = process_future a' future st.
Proof.
  unfold process_future.
  apply mbind_ext; [reflexivity |]. intros details st1.
  destruct (negb (truthy details)); [reflexivity |].
  apply mbind_ext; [reflexivity |]. intros status st2.
  apply mbind_ext; [reflexivity |]. intros ad_content st3.
  destruct (eq_str status "INACTIVE" || negb (truthy ad_content)); [reflexivity |].
  apply mbind_ext; [intros st4; rewrite detail_older_args; reflexivity |].
  intros [|] st4; [reflexivity |].
  apply mbind_ext; [reflexivity |]. intros _ st5.
  apply mbind_ext; [reflexivity |]. intros _ st6.
  rewrite same_limit. reflexivity.
Qed.

Lemma process_completed_args (done : list (json * result json)) :
  forall st, process_completed a done st = process_completed a' done st.
Proof.
  induction done as [| [item_ref future] rest IH]; intros st; simpl; [reflexivity |].
  rewrite process_future_args.
  destruct (process_future a' future st) as [[[|] | e] st1]; auto.
Qed.

Lemma process_page_args (self : client) (page : json) (st : run_state) :
  process_page self a page st = process_page self a' page st.
Proof.
  unfold process_page.
  apply mbind_ext; [reflexivity |]. intros items st1.
  apply mbind_ext; [reflexivity |]. intros _ st2.
  apply mbind_ext; [reflexivity |]. intros entries st3.
  apply mbind_ext; [apply prefilter_args |]. intros [| i0 others] st4; [reflexivity |].
  apply mbind_ext; [reflexivity |]. intros ids st5.
  apply mbind_ext; [reflexivity |]. intros done st6.
  apply mbind_ext; [apply process_completed_args |]. intros _ st7.
  rewrite same_limit. reflexivity.
Qed.

Lemma sync_loop_args (self : client) (fuel : nat) :
  forall g st, sync_loop self a fuel g st = sync_loop self a' fuel g st.
Proof.
  induction fuel as [| k IH]; intros g st; simpl; [reflexivity |].
  apply mbind_ext; [reflexivity |]. intros [[page |] g'] st1; [| reflexivity].
  apply mbind_ext; [apply process_page_args |]. intros [|] st2; [reflexivity | apply IH].
Qed.

Hypothesis same_anchor :
  start_from_beginning a && reset a = start_from_beginning a' && reset a'.
Hypothesis same_start : start_page_id a = start_page_id a'.

Lemma resolve_start_args (state : option (json * json)) :
  resolve_start a state = resolve_start a' state.
Proof.
  unfold resolve_start. rewrite same_anchor, same_start. reflexivity.
Qed.

End SameTests.

(** X13.  [--start-from-beginning] has an effect only together with
    [--reset]: for two sets of arguments without [--reset] that agree on
    the limit, the threshold and the start page, no cursor is deleted,
    the start is resolved to the same page from the same cursor, and the
    loop over the pages does the same from the same state, whether the
    flag is given or not. *)
Theorem start_from_beginning_needs_reset (self : client) (a a' : args) (fuel : nat)
    (g : generator) (state : option (json * json)) (st : run_state) :
  reset a = false -> reset a' = false ->
  limit a = limit a' ->
  filter_date a = filter_date a' ->
  start_page_id a = start_page_id a' ->
  after_reset a (db st) = db st
  /\ after_reset a' (db st) = db st
  /\ resolve_start a state = resolve_start a' state
  /\ sync_loop self a fuel g st = sync_loop self a' fuel g st.
Proof.
  intros Hr Hr' Hl Hf Hs.
  split; [unfold after_reset; rewrite Hr; reflexivity |].
  split; [unfold after_reset; rewrite Hr'; reflexivity |].
  split.
  - apply resolve_start_args; [| exact Hs]. rewrite Hr, Hr', !andb_false_r. reflexivity.
  - apply sync_loop_args; [exact Hf |].
    intros n. unfold limit_reached. rewrite Hl. reflexivity.
Qed.

(** X14.  [--limit 0] is no limit: with [--limit 0] the test of the
    limit never holds, and the start is resolved and the loop over the
    pages runs exactly as with the same other arguments and no
    [--limit]. *)
Theorem limit_zero_is_no_limit (self : client) (a a' : args) (fuel : nat)
    (g : generator) (state : option (json * json)) (st : run_state) :
  limit a = Some 0%Z -> limit a' = None ->
  reset a = reset a' ->
  start_from_beginning a = start_from_beginning a' ->
  filter_date a = filter_date a' ->
  start_page_id a = start_page_id a' ->
  (forall n : Z, limit_reached a n = false)
  /\ resolve_start a state = resolve_start a' state
  /\ sync_loop self a fuel g st = sync_loop self a' fuel g st.
Proof.
  intros Hl Hl' Hr Hb Hf Hs.
  assert (Hlim : forall n : Z, limit_reached a n = limit_reached a' n).
  { intros n. unfold limit_reached. rewrite Hl, Hl'. reflexivity. }
  split; [intros n; unfold limit_reached; rewrite Hl; reflexivity |].
  split.
  - apply resolve_start_args; [rewrite Hr, Hb; reflexivity | exact Hs].
  - apply sync_loop_args; assumption.
Qed.

(** X15.  Under [--reset] the cursor left by earlier runs plays no part:
    the deletion of lines 60 to 65 leaves the same store from two stores
    that differ in [nav_feed_state] only, and no cursor is read back
    from it.  Unless a start page is given, the start is then resolved
    to the anchor of the feed, the first page with
    [--start-from-beginning] and the last one without. *)
Theorem reset_forgets_the_cursor (a : args) (s s' : store) :
  reset a = true ->
  nav_jobs s = nav_jobs s' ->
  nav_job_locations s = nav_job_locations s' ->
  nav_job_contacts s = nav_job_contacts s' ->
  nav_job_categories s = nav_job_categories s' ->
  nav_job_occupations s = nav_job_occupations s' ->
  after_reset a s = after_reset a s'
  /\ get_last_feed_state (after_reset a s) = None
  /\ (start_page_id a = None ->
      resolve_start a (get_last_feed_state (after_reset a s))
      = Ok (Created JNull (negb (start_from_beginning a)))).
Proof.
  intros Hr H1 H2 H3 H4 H5. split; [| split].
  - unfold after_reset. rewrite Hr. simpl. rewrite H1, H2, H3, H4, H5. reflexivity.
  - unfold after_reset. rewrite Hr. reflexivity.
  - intros Hs. unfold after_reset, resolve_start. rewrite Hr, Hs. simpl.
    destruct (start_from_beginning a); reflexivity.
Qed.

(** ** The run: the cursor after a page *)

(** X16.  When a page is done and the run goes on (the limit did not
    stop it), the cursor is the [next_url] of that page whenever the
    page has one, whether the items of the page were fetched or all
    skipped by the date of their summary. *)
Theorem cursor_moves_to_the_next_page (self : client) (a : args) (page next_url : json)
    (st st' : run_state) :
  process_page self a page st = (Ok false, st') ->
  get page "next_url" = Ok next_url ->
  truthy next_url = true ->
  get_last_feed_state (db st') = Some (next_url, JNull).
Proof.
  intros H Hget Ht. unfold process_page in H.
  step_ok H items st1 H1. step_ok H n st2 H2. step_ok H entries st3 H3.
  step_ok H items_to_fetch st4 H4. destruct items_to_fetch as [| i0 others].
  - step_ok H nu st5 H5. apply lift_inv in H5. destruct H5 as [H5 ->].
    rewrite Hget in H5. injection H5 as ->. rewrite Ht in H.
    step_ok H u st6 H6. unfold ret in H. injection H as <-.
    apply db_update_feed_state_frame in H6. destruct H6 as [_ [_ [_ [Hc _]]]].
    destruct u. exact (Hc eq_refl).
  - step_ok H ids st5 H5. step_ok H done st6 H6. step_ok H u st7 H7.
    destruct (limit_reached a (fetched_count st7)).
    + step_ok H current_id st8 H8. step_ok H u' st9 H9. unfold ret in H. discriminate H.
    + step_ok H nu st8 H8. apply lift_inv in H8. destruct H8 as [H8 ->].
      rewrite Hget in H8. injection H8 as ->.
      step_ok H current_id st9 H9. apply lift_inv in H9. destruct H9 as [_ ->].
      rewrite Ht in H. simpl in H. rewrite Ht in H.
      step_ok H u' st10 H10. unfold ret in H. injection H as <-.
      step_ok H10 metadata st11 H11. apply lift_inv in H11. destruct H11 as [_ ->].
      apply db_update_feed_state_frame in H10. destruct H10 as [_ [_ [_ [Hc _]]]].
      destruct u'. exact (Hc eq_refl).
Qed.

(** X17.  At the end of the feed (the page has no [next_url]) a page
    that is done without the limit stopping the loop leaves the cursor
    on the page itself, [/api/v1/feed/<id>], when at least one of its
    items was handed to the thread pool, so that the next run starts
    again from this page.  When none was (the pre-filter kept no item),
    nothing at all is written and no request is made: the cursor stays
    where it was. *)
Theorem cursor_stays_on_the_last_page (self : client) (a : args)
    (page next_url id items : json) (entries items_to_fetch : list json)
    (st st1 st' : run_state) :
  process_page self a page st = (Ok false, st') ->
  get page "next_url" = Ok next_url ->
  truthy next_url = false ->
  get page "id" = Ok id ->
  truthy id = true ->
  get_default page "items" (JArr []) = Ok items ->
  iter items = Ok entries ->
  prefilter a entries [] [] st = (Ok items_to_fetch, st1) ->
  (items_to_fetch <> [] ->
   get_last_feed_state (db st') = Some (JStr ("/api/v1/feed/" ++ str id)%string, JNull))
  /\ (items_to_fetch = [] ->
      st' = st1 /\ db st' = db st /\ world st' = world st
      /\ fetched_count st' = fetched_count st).
Proof.
  intros H Hget Ht Hid Htid Hitems Hiter Hpre. unfold process_page in H.
  step_ok H items0 st1' H1. apply lift_inv in H1. destruct H1 as [H1 ->].
  rewrite Hitems in H1. injection H1 as <-.
  step_ok H n st2 H2. apply lift_inv in H2. destruct H2 as [_ ->].
  step_ok H entries0 st3 H3. apply lift_inv in H3. destruct H3 as [H3 ->].
  rewrite Hiter in H3. injection H3 as <-.
  step_ok H out st4 H4. rewrite Hpre in H4. injection H4 as <- <-.
  destruct items_to_fetch as [| i0 others].
  - split; [intros Hne; contradiction Hne; reflexivity | intros _].
    apply prefilter_cases in Hpre. destruct Hpre as [Hw [Hd [Hf _]]].
    step_ok H nu st5 H5. apply lift_inv in H5. destruct H5 as [H5 ->].
    rewrite Hget in H5. injection H5 as <-. rewrite Ht in H.
    step_ok H u st6 H6. unfold ret in H, H6.
    assert (Hst : st' = st1) by congruence. rewrite Hst. auto.
  - split; [intros _ | intros Hnil; discriminate Hnil].
    step_ok H ids st5 H5. step_ok H done st6 H6. step_ok H u st7 H7.
    destruct (limit_reached a (fetched_count st7)).
    + step_ok H current_id st8 H8. step_ok H u' st9 H9. unfold ret in H. discriminate H.
    + step_ok H nu st8 H8. apply lift_inv in H8. destruct H8 as [H8 ->].
      rewrite Hget in H8. injection H8 as <-.
      step_ok H current_id st9 H9. apply lift_inv in H9. destruct H9 as [H9 ->].
      rewrite Hid in H9. injection H9 as <-.
      rewrite Ht, Htid in H. simpl in H.
      step_ok H u' st10 H10. unfold ret in H. injection H as <-.
      step_ok H10 metadata st11 H11. apply lift_inv in H11. destruct H11 as [_ ->].
      apply db_update_feed_state_frame in H10. destruct H10 as [_ [_ [_ [Hc _]]]].
      destruct u'. exact (Hc eq_refl).
Qed.

End LoopFacts.

(** ** The run: a page with a malformed item *)

Section MalformedPage.

Context {E : Env}.

Lemma prefilter_not_dict (a : args) (items : list json) :
  forall (seen acc : list json) (st : run_state),
    (exists x, In x items /\ is_dict x = false) ->
    exists e st', prefilter a items seen acc st = (Raise e, st').
Proof.
  induction items as [| item rest IH]; intros seen acc st [x [Hin Hx]]; [destruct Hin |].
  simpl. unfold mbind, lift.
  destruct (get item "id") as [id | e] eqn:Hid; [| eauto].
  assert (Hrest : exists x, In x rest /\ is_dict x = false).
  { destruct Hin as [-> | Hin]; [| eauto].
    destruct (get_dict _ _ _ Hid) as [kvs ->]. discriminate Hx. }
  destruct (set_in id seen) as [[|] | e]; [apply IH; exact Hrest | | eauto].
  destruct (summary_older a item) as [[|] | e]; [| apply IH; exact Hrest | eauto].
  unfold incr_skipped. apply IH. exact Hrest.
Qed.

(** X18.  One item that is not a JSON object stops the whole page, and
    with it the loop over the pages: the page raises before any detail
    record is requested, nothing is written, the cursor stays where it
    was, the count of saved records and the log are untouched, and the
    loop ends with that exception.  Only the count of skipped records
    can have moved, by the items the date of the summary turned away
    before the exception; it has not gone down.  (An error met while
    one record is fetched or saved, in contrast, is logged and the page
    goes on.) *)
Theorem malformed_item_stops_the_run (self : client) (a : args) (page items x : json)
    (entries : list json) (st : run_state) :
  get_default page "items" (JArr []) = Ok items ->
  iter items = Ok entries ->
  In x entries ->
  is_dict x = false ->
  exists (e : exn) (st' : run_state),
    process_page self a page st = (Raise e, st')
    /\ world st' = world st
    /\ db st' = db st
    /\ fetched_count st' = fetched_count st
    /\ log st' = log st
    /\ (skipped_count st <= skipped_count st')%Z
    /\ forall (fuel : nat) (g g' : generator) (st0 : run_state),
         next_page self g st0 = (Ok (Some page, g'), st) ->
         sync_loop self a (S fuel) g st0 = (Raise e, st').
Proof.
  intros Hitems Hiter Hin Hx.
  destruct (prefilter_not_dict a entries [] [] st (ex_intro _ x (conj Hin Hx))) as [e [st' Hp]].
  exists e, st'.
  assert (Hpage : process_page self a page st = (Raise e, st')).
  { unfold process_page, mbind, lift. rewrite Hitems.
    assert (Hlen : exists n, len items = Ok n).
    { destruct items; try discriminate Hiter; simpl; eauto. }
    destruct Hlen as [n ->]. rewrite Hiter, Hp. reflexivity. }
  destruct (prefilter_cases a entries [] [] st st' _ Hp) as [Hw [Hd [Hf [Hl [Hs _]]]]].
  repeat (split; [assumption |]).
  intros fuel g g' st0 Hnext. simpl. unfold mbind at 1. rewrite Hnext.
  unfold mbind. rewrite Hpage. reflexivity.
Qed.

End MalformedPage.

(** ** The client: retries *)

Section RetryFacts.

Context {E : Env}.

Lemma attempts_outcome (url : string) (params : list (string * string)) (retries : nat) :
  forall w : World,
    (0 < retries)%nat ->
    exists m : nat,
      (m < retries)%nat
      /\ (forall i, (i < m)%nat ->
            fst (session_request url params (after_requests url params i w))
            = Raise RequestException)
      /\ attempts url params retries w
         = session_request url params (after_requests url params m w)
      /\ (fst (attempts url params retries w) = Raise RequestException ->
          m = (retries - 1)%nat).
Proof.
  induction retries as [| k IH]; intros w Hpos; [lia |].
  simpl attempts.
  destruct (session_request url params w) as [[data | e] w'] eqn:Hreq.
  - exists O. simpl. rewrite Hreq. repeat split; try lia. discriminate.
  - assert (Hstop : forall r : result json * World,
               r = (Raise e, w') -> e <> RequestException \/ k = O ->
               exists m : nat,
                 (m < S k)%nat
                 /\ (forall i, (i < m)%nat ->
                       fst (session_request url params (after_requests url params i w))
                       = Raise RequestException)
                 /\ r = session_request url params (after_requests url params m w)
                 /\ (fst r = Raise RequestException -> m = (S k - 1)%nat)).
    { intros r -> Hor. exists O. simpl. rewrite Hreq. repeat split; try lia.
      simpl. intros He. destruct Hor as [Hne | ->]; [congruence | reflexivity]. }
    destruct e; try (apply Hstop; [reflexivity | left; discriminate]).
    destruct k as [| k']; [apply Hstop; [reflexivity | right; reflexivity] |].
    destruct (IH w' ltac:(lia)) as [m [Hm [Hbefore [Hres Hlast]]]].
    exists (S m). simpl after_requests. rewrite Hreq. simpl snd.
    split; [lia |]. split; [| split].
    + intros [| i] Hi; simpl; [rewrite Hreq; reflexivity |].
      rewrite Hreq. simpl. apply Hbefore. lia.
    + exact Hres.
    + intros He. specialize (Hlast He). lia.
Qed.

(** X19.  [_make_request] makes one request after the other until one
    does not raise [RequestException], and [retries] of them at most.
    Its outcome, response or exception, is the outcome of the last
    request it made; every request before that one raised
    [RequestException]; and it raises [RequestException] itself only
    when all the [retries] requests did.  An exception of another class
    is not retried. *)
Theorem make_request_tries_at_most_retries_times (self : client) (endpoint : string)
    (params : list (string * string)) (retries : nat) (w : World) :
  (0 < retries)%nat ->
  let url := (api_url self ++ endpoint)%string in
  exists m : nat,
    (m < retries)%nat
    /\ (forall i, (i < m)%nat ->
          fst (session_request url params (after_requests url params i w))
          = Raise RequestException)
    /\ _make_request self endpoint params retries w
       = session_request url params (after_requests url params m w)
    /\ (fst (_make_request self endpoint params retries w) = Raise RequestException ->
        m = (retries - 1)%nat).
Proof.
  intros Hpos url. unfold _make_request. apply attempts_outcome. exact Hpos.
Qed.

End RetryFacts.

(** ** The writer: the columns it makes sure of *)

Lemma has_name_In (x : string) (l : list string) : has_name x l = true <-> In x l.
Proof.
  unfold has_name. rewrite existsb_exists. split.
  - intros [y [Hin Heq]]. apply String.eqb_eq in Heq. subst. exact Hin.
  - intros Hin. exists x. split; [exact Hin | apply String.eqb_refl].
Qed.

Lemma has_name_app (x : string) (l l' : list string) :
  has_name x (l ++ l') = has_name x l || has_name x l'.
Proof.
  unfold has_name. apply existsb_app.
Qed.

Lemma add_column_ok (table_name col dtype : string) (c : catalog) (cols : columns) :
  table_columns table_name c = Some cols ->
  has_name col (map fst cols) = false ->
  exists c',
    add_column table_name col dtype c = inl c'
    /\ table_columns table_name c' = Some (cols ++ [(col, dtype)])
    /\ forall t, t <> table_name -> table_columns t c' = table_columns t c.
Proof.
  intros Ht Hnew. induction c as [| [t0 cols0] rest IH]; simpl in *; [discriminate |].
  destruct (t0 =? table_name) eqn:Heq.
  - injection Ht as ->. rewrite Hnew. eexists. split; [reflexivity |].
    simpl. rewrite Heq. split; [reflexivity |].
    intros t Hne. apply String.eqb_eq in Heq. subst t0.
    destruct (table_name =? t) eqn:Heq'; [| reflexivity].
    apply String.eqb_eq in Heq'. congruence.
  - destruct (IH Ht) as [c' [Hadd [Hcols Hother]]]. rewrite Hadd.
    eexists. split; [reflexivity |]. simpl. rewrite Heq. split; [exact Hcols |].
    intros t Hne. destruct (t0 =? t); [reflexivity | apply Hother; exact Hne].
Qed.

Lemma ensure_loop_ok (table_name : string) (existing : list string)
    (required : list (string * string)) :
  forall (c : catalog) (cols : columns),
    table_columns table_name c = Some cols ->
    NoDup (map fst required) ->
    (forall x, In x (map fst required) ->
       has_name x (map fst cols) = true -> has_name x existing = true) ->
    exists c',
      ensure_loop table_name existing required c = (c', None)
      /\ table_columns table_name c'
         = Some (cols ++ filter (fun cd => negb (has_name (fst cd) existing)) required)
      /\ forall t, t <> table_name -> table_columns t c' = table_columns t c.
Proof.
  induction required as [| [col dtype] rest IH]; intros c cols Ht Hnd Hknown; simpl.
  - exists c. rewrite app_nil_r. auto.
  - simpl in Hnd. inversion Hnd as [| x l Hnotin Hnd']. subst.
    destruct (has_name col existing) eqn:Hex; simpl.
    + apply IH; [exact Ht | exact Hnd' |].
      intros x Hx. apply Hknown. right. exact Hx.
    + assert (Hnew : has_name col (map fst cols) = false).
      { destruct (has_name col (map fst cols)) eqn:Hc; [| reflexivity].
        rewrite (Hknown col (or_introl eq_refl) Hc) in Hex. discriminate. }
      destruct (add_column_ok table_name col dtype c cols Ht Hnew) as [c1 [Hadd [Hcols Hother]]].
      rewrite Hadd.
      destruct (IH c1 (cols ++ [(col, dtype)]) Hcols Hnd') as [c' [Hloop [Hcols' Hother']]].
      { intros x Hx Hhas. rewrite map_app, has_name_app in Hhas. simpl in Hhas.
        apply orb_prop in Hhas. destruct Hhas as [Hhas | Hhas].
        - apply Hknown; [right; exact Hx | exact Hhas].
        - rewrite orb_false_r in Hhas. apply String.eqb_eq in Hhas. subst x. contradiction. }
      exists c'. split; [exact Hloop |]. split.
      * rewrite Hcols', <- app_assoc. reflexivity.
      * intros t Hne. rewrite Hother', Hother by exact Hne. reflexivity.
Qed.

Lemma ensure_columns_ok (table_name : string) (required : list (string * string))
    (c : catalog) (cols : columns) :
  table_columns table_name c = Some cols ->
  NoDup (map fst required) ->
  exists c',
    _ensure_columns table_name required c = (c', None)
    /\ table_columns table_name c' = Some (cols ++ missing cols required)
    /\ forall t, t <> table_name -> table_columns t c' = table_columns t c.
Proof.
  intros Ht Hnd. unfold _ensure_columns, existing_columns, missing. rewrite Ht.
  apply ensure_loop_ok; auto.
Qed.

Lemma missing_nil (cols : columns) (required : list (string * string)) :
  (forall cd, In cd required -> has_name (fst cd) (map fst cols) = true) ->
  missing cols required = [].
Proof.
  unfold missing. induction required as [| cd rest IH]; intros H; simpl; [reflexivity |].
  rewrite (H cd (or_introl eq_refl)). simpl. apply IH.
  intros cd' Hin. apply H. right. exact Hin.
Qed.

Lemma required_present (cols : columns) (required : list (string * string)) :
  forall cd, In cd required ->
    has_name (fst cd) (map fst (cols ++ missing cols required)) = true.
Proof.
  intros cd Hin. rewrite map_app, has_name_app.
  destruct (has_name (fst cd) (map fst cols)) eqn:Hc; [reflexivity |]. simpl.
  apply has_name_In. apply in_map. unfold missing. apply filter_In.
  split; [exact Hin |]. rewrite Hc. reflexivity.
Qed.

(** X20.  On a table that exists, [_ensure_columns] goes through and
    only adds: the columns the table had keep their place and their
    type, also a required column that was there under another type; the
    required columns the table lacked follow, in the order of the
    dictionary, with the required type; afterwards every required name
    is a column of the table; no other table is touched. *)
Theorem ensure_columns_only_adds_what_is_missing (table_name : string)
    (required : list (string * string)) (c : catalog) (cols : columns) :
  table_columns table_name c = Some cols ->
  NoDup (map fst required) ->
  exists c' : catalog,
    _ensure_columns table_name required c = (c', None)
    /\ table_columns table_name c' = Some (cols ++ missing cols required)
    /\ (forall col dtype, In (col, dtype) (missing cols required) ->
          In (col, dtype) required /\ ~ In col (map fst cols))
    /\ (forall col dtype, In (col, dtype) required ->
          In col (existing_columns table_name c'))
    /\ (forall t, t <> table_name -> table_columns t c' = table_columns t c).
Proof.
  intros Ht Hnd.
  destruct (ensure_columns_ok table_name required c cols Ht Hnd) as [c' [Hrun [Hcols Hother]]].
  exists c'. split; [exact Hrun |]. split; [exact Hcols |]. split; [| split; [| exact Hother]].
  - intros col dtype Hin. unfold missing in Hin. apply filter_In in Hin.
    destruct Hin as [Hin Hnot]. split; [exact Hin |].
    intros Hcol. apply has_name_In in Hcol. simpl in Hnot. rewrite Hcol in Hnot. discriminate.
  - intros col dtype Hin. unfold existing_columns. rewrite Hcols.
    apply has_name_In. exact (required_present cols required (col, dtype) Hin).
Qed.

Lemma ensure_loop_nothing (table_name : string) (existing : list string)
    (required : list (string * string)) (c : catalog) :
  (forall cd, In cd required -> has_name (fst cd) existing = true) ->
  ensure_loop table_name existing required c = (c, None).
Proof.
  induction required as [| [col dtype] rest IH]; intros H; simpl; [reflexivity |].
  assert (Hcol := H (col, dtype) (or_introl eq_refl)). simpl in Hcol. rewrite Hcol.
  apply IH. intros cd Hin. apply H. right. exact Hin.
Qed.

Lemma add_column_missing (table_name col dtype : string) (c : catalog) :
  table_columns table_name c = None ->
  add_column table_name col dtype c = inr UndefinedTable.
Proof.
  induction c as [| [t cols] rest IH]; simpl; [reflexivity |].
  destruct (t =? table_name); [discriminate |].
  intros H. rewrite (IH H). reflexivity.
Qed.

Lemma ensure_columns_missing_table (table_name : string) (required : list (string * string))
    (c : catalog) :
  table_columns table_name c = None ->
  required <> [] ->
  _ensure_columns table_name required c = (c, Some UndefinedTable).
Proof.
  intros Ht Hne. unfold _ensure_columns, existing_columns. rewrite Ht.
  destruct required as [| [col dtype] rest]; [contradiction |].
  simpl. rewrite (add_column_missing _ _ _ _ Ht). reflexivity.
Qed.

Lemma ensure_columns_again (table_name : string) (required : list (string * string))
    (c c' : catalog) :
  NoDup (map fst required) ->
  _ensure_columns table_name required c = (c', None) ->
  _ensure_columns table_name required c' = (c', None)
  /\ (required <> [] ->
      exists cols, table_columns table_name c = Some cols
        /\ table_columns table_name c' = Some (cols ++ missing cols required)
        /\ forall t, t <> table_name -> table_columns t c' = table_columns t c).
Proof.
  intros Hnd Hrun.
  destruct (table_columns table_name c) as [cols |] eqn:Ht.
  - destruct (ensure_columns_ok table_name required c cols Ht Hnd) as [c1 [Hrun1 [Hcols Hother]]].
    rewrite Hrun in Hrun1. injection Hrun1 as <-. split; [| eauto].
    unfold _ensure_columns, existing_columns. rewrite Hcols.
    apply ensure_loop_nothing. apply required_present.
  - destruct required as [| cd rest].
    + unfold _ensure_columns in *. simpl in *. injection Hrun as <-.
      split; [reflexivity | intros Hne; contradiction].
    + rewrite ensure_columns_missing_table in Hrun by (assumption || discriminate).
      discriminate.
Qed.

(** X21.  [_ensure_columns] is idempotent: once it has gone through,
    calling it again with the same arguments goes through as well and
    leaves the catalogue exactly as it is. *)
Theorem ensure_columns_twice_changes_nothing (table_name : string)
    (required : list (string * string)) (c c' : catalog) :
  NoDup (map fst required) ->
  _ensure_columns table_name required c = (c', None) ->
  _ensure_columns table_name required c' = (c', None).
Proof.
  intros Hnd Hrun. exact (proj1 (ensure_columns_again table_name required c c' Hnd Hrun)).
Qed.

Lemma nodup_names (l : list string) :
  (fix distinct (l : list string) : bool :=
     match l with
     | [] => true
     | x :: rest => negb (has_name x rest) && distinct rest
     end) l = true ->
  NoDup l.
Proof.
  induction l as [| x rest IH]; intros H; constructor.
  - apply andb_prop in H. destruct H as [H _]. apply negb_true_iff in H.
    intros Hin. apply has_name_In in Hin. congruence.
  - apply IH. apply andb_prop in H. tauto.
Qed.

(** X22.  The preparation of the schema at the start of [main]
    ([ensure_feed_state_schema], then [ensure_job_schema_enhancements]):
    when either table is missing the call fails on its first [ALTER
    TABLE] and the catalogue is unchanged; when both calls have gone
    through, [nav_feed_state] has the four metadata columns and
    [nav_jobs] the five enrichment columns, and doing both calls again,
    as every later run does, changes nothing. *)
Theorem schema_preparation_settles (c : catalog) :
  (table_columns "nav_feed_state" c = None ->
   ensure_feed_state_schema c = (c, Some UndefinedTable))
  /\ (table_columns "nav_jobs" c = None ->
      ensure_job_schema_enhancements c = (c, Some UndefinedTable))
  /\ forall c1 c2 : catalog,
       ensure_feed_state_schema c = (c1, None) ->
       ensure_job_schema_enhancements c1 = (c2, None) ->
       (forall col, In col ["title"; "home_page_url"; "feed_url"; "description"] ->
          In col (existing_columns "nav_feed_state" c2))
       /\ (forall col,
             In col ["published"; "job_title_official"; "employer_orgnr";
                     "employer_description"; "employer_homepage"] ->
             In col (existing_columns "nav_jobs" c2))
       /\ ensure_feed_state_schema c2 = (c2, None)
       /\ ensure_job_schema_enhancements c2 = (c2, None).
Proof.
  split; [| split].
  - intros Ht. apply ensure_columns_missing_table; [exact Ht | discriminate].
  - intros Ht. apply ensure_columns_missing_table; [exact Ht | discriminate].
  - intros c1 c2 H1 H2. unfold ensure_feed_state_schema, ensure_job_schema_enhancements in *.
    match type of H1 with
    | _ensure_columns _ ?req _ = _ =>
        assert (Hnd1 : NoDup (map fst req)) by (apply nodup_names; reflexivity);
        destruct (ensure_columns_again _ req c c1 Hnd1 H1) as [_ Hc1];
        destruct (Hc1 ltac:(discriminate)) as [colsf [_ [Hf1 _]]];
        assert (Hp1 := required_present colsf req)
    end.
    match type of H2 with
    | _ensure_columns _ ?req _ = _ =>
        assert (Hnd2 : NoDup (map fst req)) by (apply nodup_names; reflexivity);
        destruct (ensure_columns_again _ req c1 c2 Hnd2 H2) as [Hagain Hc2];
        destruct (Hc2 ltac:(discriminate)) as [colsj [_ [Hj2 Hother]]];
        assert (Hp2 := required_present colsj req)
    end.
    assert (Hf2 : table_columns "nav_feed_state" c2 = table_columns "nav_feed_state" c1).
    { apply Hother. discriminate. }
    rewrite Hf1 in Hf2.
    split; [| split; [| split; [| exact Hagain]]].
    + intros col Hin. unfold existing_columns. rewrite Hf2. apply has_name_In.
      simpl in Hin.
      repeat (destruct Hin as [<- | Hin];
              [match goal with
               | |- has_name ?n _ = true => apply (Hp1 (n, "TEXT")); simpl; tauto
               end |]).
      destruct Hin.
    + intros col Hin. unfold existing_columns. rewrite Hj2. apply has_name_In.
      simpl in Hin.
      destruct Hin as [<- | Hin]; [apply (Hp2 ("published", "TIMESTAMP")); simpl; tauto |].
      destruct Hin as [<- | Hin]; [apply (Hp2 ("job_title_official", "TEXT")); simpl; tauto |].
      destruct Hin as [<- | Hin]; [apply (Hp2 ("employer_orgnr", "VARCHAR(50)")); simpl; tauto |].
      destruct Hin as [<- | Hin]; [apply (Hp2 ("employer_description", "TEXT")); simpl; tauto |].
      destruct Hin as [<- | Hin]; [apply (Hp2 ("employer_homepage", "TEXT")); simpl; tauto |].
      destruct Hin.
    + unfold _ensure_columns, existing_columns. rewrite Hf2.
      apply ensure_loop_nothing. exact Hp1.
Qed.

(** ** The writer: dates that are not text *)

Section DateTypeFacts.

Context {E : Env}.

Lemma parse_dt_not_text (v : json) :
  truthy v = true -> (forall s, v <> JStr s) -> exists e, parse_dt v = Raise e.
Proof.
  intros Ht Hv. unfold parse_dt. rewrite Ht. simpl.
  destruct v; eauto. exfalso. exact (Hv s eq_refl).
Qed.

Lemma upsert_fails_on_date (now : datetime) (job : json) (ad : list (string * json))
    (f : string) (v : json) :
  get job "ad_content" = Ok (JObj ad) ->
  f = "published" \/ f = "expires" ->
  assoc f ad = Some v ->
  truthy v = true ->
  (forall s, v <> JStr s) ->
  is_ok (_upsert_nav_job now job) = false.
Proof.
  intros Had Hf Hs Ht Hv.
  destruct (parse_dt_not_text v Ht Hv) as [e He].
  destruct (_upsert_nav_job now job) as [q | e'] eqn:Hq; [| reflexivity].
  exfalso. unfold _upsert_nav_job in Hq.
  do 5 bind_inv Hq. rewrite Had in Hx3. injection Hx3 as <-.
  assert (Hor : py_or (JObj ad) (JObj []) = JObj ad).
  { unfold py_or. destruct ad; [discriminate | reflexivity]. }
  rewrite Hor in Hq. do 2 bind_inv Hq.
  destruct x4 as [[[employer_name orgnr] desc] homepage].
  repeat bind_inv Hq.
  repeat match goal with
         | H : get (JObj ad) _ = Ok _ |- _ =>
             unfold get, get_default in H; injection H as <-
         end.
  destruct Hf as [-> | ->]; rewrite Hs in *; congruence.
Qed.

Lemma upsert_without_application_due (now : datetime) (job : json)
    (ad : list (string * json)) (v : json) :
  get job "ad_content" = Ok (JObj ad) ->
  assoc "applicationDue" ad = Some v ->
  (forall s, v <> JStr s) ->
  _upsert_nav_job now (without_field job "applicationDue") = _upsert_nav_job now job.
Proof.
  intros Had Hs Hv.
  destruct job as [| | | | | kvs]; try discriminate.
  assert (Hassoc := ad_content_binding kvs ad Had).
  assert (Hne : truthy (JObj ad) = true) by (destruct ad; [discriminate | reflexivity]).
  unfold without_field. rewrite Hassoc.
  unfold _upsert_nav_job, get.
  cbn [get_default bind].
  rewrite !assoc_set_key. eval_string_eqb. rewrite Hassoc.
  unfold py_or. rewrite truthy_set_key, Hne.
  cbn [get_default bind].
  rewrite !assoc_set_key. eval_string_eqb. rewrite !Hs.
  assert (Hdue : parse_application_due v = parse_application_due JNull).
  { destruct v; try reflexivity. exfalso. exact (Hv s eq_refl). }
  rewrite Hdue. reflexivity.
Qed.

Lemma save_job_without_application_due (now : datetime) (job : json)
    (ad : list (string * json)) (v : json) :
  get job "ad_content" = Ok (JObj ad) ->
  assoc "applicationDue" ad = Some v ->
  (forall s, v <> JStr s) ->
  save_job now (without_field job "applicationDue") = save_job now job.
Proof.
  intros Had Hs Hv.
  unfold save_job. rewrite (upsert_without_application_due now job ad v Had Hs Hv).
  destruct job as [| | | | | kvs]; try discriminate.
  assert (Hassoc := ad_content_binding kvs ad Had).
  unfold without_field. rewrite Hassoc.
  unfold get.
  cbn [get_default bind].
  rewrite !assoc_set_key. eval_string_eqb. rewrite Hassoc.
  cbn [get_default bind].
  rewrite !assoc_set_key. eval_string_eqb. reflexivity.
Qed.

(** X23.  A date of [ad_content] that is not text (a number, a list, an
    object, [true]).  In [published] or [expires] it makes
    [_upsert_nav_job] raise, so that the record is never stored: the
    transaction of [save_job] leaves every table as it was.  In
    [applicationDue] it is read as an absent date: [save_job] does what
    it does on the same record with that field null. *)
Theorem date_that_is_not_text (now : datetime) (job : json) (ad : list (string * json))
    (f : string) (v : json) :
  get job "ad_content" = Ok (JObj ad) ->
  assoc f ad = Some v ->
  (forall s, v <> JStr s) ->
  (f = "published" \/ f = "expires" ->
   truthy v = true ->
   is_ok (_upsert_nav_job now job) = false
   /\ forall s : store, transaction (save_job now job) s = s)
  /\ (f = "applicationDue" ->
      save_job now job = save_job now (without_field job "applicationDue")).
Proof.
  intros Had Hs Hv. split.
  - intros Hf Ht.
    assert (Hfail := upsert_fails_on_date now job ad f v Had Hf Hs Ht Hv).
    split; [exact Hfail |]. intros s.
    unfold save_job. destruct (get job "uuid") as [uuid | e]; [| reflexivity]. simpl.
    destruct (truthy uuid); simpl; [| reflexivity].
    destruct (_upsert_nav_job now job); [discriminate | reflexivity].
  - intros ->. symmetry. exact (save_job_without_application_due now job ad v Had Hs Hv).
Qed.

End DateTypeFacts.

(** ** The writer: the place of a job *)

Section PlaceFacts.

Context {E : Env}.

Lemma insert_unique_extends {R : Type} (key_of : json -> result (list json))
    (row_of : json -> result R) (entries : list json) :
  forall seen data out,
    insert_unique key_of row_of entries seen data = Ok out ->
    exists more, out = data ++ more.
Proof.
  induction entries as [| x rest IH]; intros seen data out H; simpl in H.
  - injection H as <-. exists []. symmetry. apply app_nil_r.
  - bind_inv H. bind_inv H. destruct (tuple_in x0 seen).
    + exact (IH _ _ _ H).
    + bind_inv H. destruct (IH _ _ _ H) as [more ->].
      exists (x2 :: more). rewrite <- app_assoc. reflexivity.
Qed.

Lemma first_location (uuid x : json) (rest : list json) (out : list location_row) :
  insert_unique location_key (location_row_of uuid) (x :: rest) [] [] = Ok out ->
  exists l more, out = l :: more /\ location_row_of uuid x = Ok l.
Proof.
  intros H. simpl in H. bind_inv H. bind_inv H. simpl in H. bind_inv H.
  destruct (insert_unique_extends _ _ _ _ _ _ H) as [more ->].
  exists x2, more. split; [reflexivity | assumption].
Qed.

Ltac bind_as H x Hx := apply bind_ok in H; destruct H as [x [Hx H]].

(** X24.  The place written on the job row is that of the first stored
    location: after a [save_job] that goes through, [kommune] and [fylke]
    of the row of [nav_jobs] computed from the record are the [municipal]
    and [county] of the first row the record has in
    [nav_job_locations], and both are null when the record has no
    location row. *)
Theorem job_row_has_the_place_of_its_first_location (now : datetime) (job uuid : json)
    (q : list stmt) (r : job_row) (s : store) :
  save_job now job = Ok q ->
  get job "uuid" = Ok uuid ->
  truthy uuid = true ->
  _upsert_nav_job now job = Ok [UpsertJob r] ->
  match rows_for loc_nav_uuid uuid (nav_job_locations (transaction (Ok q) s)) with
  | l :: _ => kommune r = loc_municipal l /\ fylke r = loc_county l
  | [] => kommune r = JNull /\ fylke r = JNull
  end.
Proof.
  intros Hsave Hget Ht Hjob.
  destruct (save_job_rows now job uuid q Hsave Hget Ht)
    as [r0 [dl [dc [dg [d_o [Hjob0 [Hu [Fl [_ [_ [_ Heff]]]]]]]]]]].
  destruct (Heff now q Hsave) as [r' [Hjob' Hs]].
  destruct (save_job_effect now job uuid q Hsave Hget Ht)
    as [r1 [dl1 [dc1 [dg1 [do1 [_ [Hdl1 [Hdc1 [Hdg1 [Hdo1 Heff1]]]]]]]]]].
  assert (Hsame : dl1 = dl).
  { assert (H := Heff1 s). rewrite Hs in H. injection H as _ Hl _ _ _.
    apply app_inv_head in Hl. congruence. }
  subst dl1.
  simpl. rewrite Hs. simpl. rewrite (rows_for_after_replace loc_nav_uuid uuid _ dl Fl).
  (* the locations [save_job] goes through *)
  unfold save_job in Hsave. rewrite Hget in Hsave. simpl in Hsave. rewrite Ht in Hsave.
  simpl in Hsave.
  bind_as Hsave qj Hqj. bind_as Hsave adc Hadc. bind_as Hsave wl Hwl. clear Hsave.
  unfold child_entries in Hdl1. rewrite Hadc in Hdl1. simpl in Hdl1. rewrite Hwl in Hdl1.
  (* the location [_upsert_nav_job] reads *)
  unfold _upsert_nav_job in Hjob.
  bind_as Hjob adc' Hadc'. rewrite Hadc in Hadc'. injection Hadc' as <-.
  bind_as Hjob uuid' Huuid'. bind_as Hjob status' Hstatus'. bind_as Hjob sist Hsist.
  bind_as Hjob adc2 Hadc2.
  assert (Had : py_or adc2 (JObj []) = adc).
  { destruct (get_dict _ _ _ Hget) as [kvs ->]. simpl in Hadc, Hadc2.
    injection Hadc as <-. injection Hadc2 as <-.
    destruct (assoc "ad_content" kvs) as [v |]; [| reflexivity].
    destruct (get_default_dict _ _ _ _ Hwl) as [adl ->].
    unfold py_or. destruct adl; reflexivity. }
  rewrite Had in Hjob.
  bind_as Hjob employer Hemployer. bind_as Hjob emp Hemp.
  destruct emp as [[[employer_name orgnr] desc] homepage].
  bind_as Hjob locations Hlocations. rewrite Hwl in Hlocations. injection Hlocations as <-.
  bind_as Hjob loc Hloc.
  bind_as Hjob link Hlink. bind_as Hjob title Htitle. bind_as Hjob description Hdescription.
  bind_as Hjob municipal Hmunicipal. bind_as Hjob county Hcounty.
  repeat bind_inv Hjob. injection Hjob as <-. simpl.
  unfold entries_of in Hdl1.
  destruct (truthy wl) eqn:Hwlt.
  - assert (Hlist : exists rest, wl = JArr (loc :: rest)).
    { destruct wl as [| | | [| c t] | [| v rest] | kvs]; simpl in Hloc; try discriminate Hloc.
      - injection Hloc as <-. discriminate Hmunicipal.
      - injection Hloc as <-. eauto. }
    destruct Hlist as [rest ->]. simpl in Hdl1.
    destruct (first_location uuid loc rest dl Hdl1) as [l [more [-> Hl]]].
    unfold location_row_of in Hl. repeat bind_inv Hl. injection Hl as <-. simpl.
    split; congruence.
  - simpl in Hdl1. injection Hdl1 as <-. injection Hloc as <-.
    simpl in Hmunicipal, Hcounty. split; congruence.
Qed.

End PlaceFacts.

(** ** [fast_forward.py]: the search for a date *)

Section SeekFacts.

Context {E : Env}.

Import FastForward.

Lemma page_reached_dict (target : string) (p : json) (b : bool) :
  page_reached target p = Ok b -> exists kvs, p = JObj kvs.
Proof.
  unfold page_reached. intros H. bind_inv H. exact (get_default_dict _ _ _ _ Hx).
Qed.

Lemma turn_not_reached (self : client) (target : string) (l : locals) (w w1 : World)
    (p next_id : json) :
  turn_page self l w = (Ok p, w1) ->
  page_reached target p = Ok false ->
  get p "next_id" = Ok next_id ->
  turn_body self target l w
  = (if negb (truthy next_id)
     then (Ok Break, mk_locals p (current_id l) (page_count l), w1)
     else (Ok Continue, mk_locals p next_id (page_count l + 1)%Z, w1)).
Proof.
  intros Hpage Hreached Hnext. unfold turn_body. rewrite Hpage.
  unfold page_reached in Hreached. bind_inv Hreached.
  rewrite Hx. simpl. rewrite Hnext. simpl. rewrite Hreached. simpl.
  destruct (negb (truthy next_id)); reflexivity.
Qed.

Lemma turn_reached (self : client) (target : string) (l : locals) (w w1 : World)
    (p id : json) :
  turn_page self l w = (Ok p, w1) ->
  page_reached target p = Ok true ->
  get p "id" = Ok id ->
  turn_body self target l w = (Ok (Return id), mk_locals p (current_id l) (page_count l), w1).
Proof.
  intros Hpage Hreached Hid. unfold turn_body. rewrite Hpage.
  unfold page_reached in Hreached. bind_inv Hreached.
  rewrite Hx. simpl.
  destruct (get_dict _ _ _ Hid) as [kvs ->]. simpl in *.
  rewrite Hreached. simpl. injection Hid as ->. reflexivity.
Qed.

Lemma seek_along_the_chain (self : client) (target : string) (rest : list json) :
  forall (p : json) (l : locals) (w : World) (fuel : nat),
    (forall w, exists w1, turn_page self l w = (Ok p, w1)) ->
    (0 <= page_count l)%Z ->
    chain self p rest ->
    Forall (fun x => page_reached target x = Ok false) (removelast (p :: rest)) ->
    (List.length rest < fuel)%nat ->
    (forall id,
        page_reached target (List.last rest p) = Ok true ->
        get (List.last rest p) "id" = Ok id ->
        fst (seek self target fuel l w) = Found id)
    /\ (forall next_id,
          page_reached target (List.last rest p) = Ok false ->
          get (List.last rest p) "next_id" = Ok next_id ->
          truthy next_id = false ->
          fst (seek self target fuel l w) = EndOfFeed).
Proof.
  induction rest as [| q rest' IH]; intros p l w fuel Hpage Hcount Hchain Hnot Hfuel;
    (destruct fuel as [| k]; [simpl in Hfuel; lia |]);
    destruct (Hpage w) as [w1 Hw1].
  - simpl. split.
    + intros id Hreached Hid. rewrite (turn_reached _ _ _ _ _ _ _ Hw1 Hreached Hid). reflexivity.
    + intros next_id Hreached Hnext Hfalse.
      rewrite (turn_not_reached _ _ _ _ _ _ _ Hw1 Hreached Hnext), Hfalse. reflexivity.
  - destruct Hchain as [next_id [Hnext [Htrue [Hanswers Hchain]]]].
    change (removelast (p :: q :: rest')) with (p :: removelast (q :: rest')) in Hnot.
    inversion Hnot as [| x xs Hp Hnot']. subst.
    assert (Hlast : forall d, List.last (q :: rest') d = List.last rest' q).
    { intros d. apply last_cons. }
    rewrite !Hlast.
    cbn [seek]. rewrite (turn_not_reached _ _ _ _ _ _ _ Hw1 Hp Hnext), Htrue. cbn [negb].
    apply IH.
    + intros w'. unfold turn_page. simpl.
      destruct (0 <? page_count l + 1)%Z eqn:Hpos; [apply Hanswers |].
      apply Z.ltb_ge in Hpos. lia.
    + simpl. lia.
    + exact Hchain.
    + exact Hnot'.
    + simpl in Hfuel. lia.
Qed.

(** X25.  On a feed that answers, [fast_forward] finds the first page
    dated at or after the target.  Let the pages of the feed from its
    first one be [p0], then [rest], each under the [next_id] of the one
    before, and let no page before the last of them have a last item
    dated at or after the target.  If the last page has such an item,
    the search ends with the [id] of that page; if it has not, and has no
    [next_id], the search ends with the end of the feed.  One turn of the
    loop per page is enough.  Dates are compared as text with the target
    followed by [T00:00:00]. *)
Theorem fast_forward_stops_at_the_first_page_at_or_after_the_target (target_date : string)
    (p0 : json) (rest : list json) (fuel : nat) (w : World) :
  always_answers (new_client None) JNull p0 ->
  chain (new_client None) p0 rest ->
  Forall (fun x => page_reached (target_date ++ "T00:00:00")%string x = Ok false)
         (removelast (p0 :: rest)) ->
  (List.length rest < fuel)%nat ->
  (forall id,
      page_reached (target_date ++ "T00:00:00")%string (List.last rest p0) = Ok true ->
      get (List.last rest p0) "id" = Ok id ->
      fst (FastForward.main target_date fuel w) = Ok (Found id))
  /\ (forall next_id,
        page_reached (target_date ++ "T00:00:00")%string (List.last rest p0) = Ok false ->
        get (List.last rest p0) "next_id" = Ok next_id ->
        truthy next_id = false ->
        fst (FastForward.main target_date fuel w) = Ok EndOfFeed).
Proof.
  intros Hfirst Hchain Hnot Hfuel.
  assert (Hdict : forall b,
             page_reached (target_date ++ "T00:00:00")%string (List.last rest p0) = Ok b ->
             exists kvs, p0 = JObj kvs).
  { intros b Hb. destruct rest as [| q rest'].
    - exact (page_reached_dict _ _ _ Hb).
    - change (removelast (p0 :: q :: rest')) with (p0 :: removelast (q :: rest')) in Hnot.
      inversion Hnot as [| x xs Hp _]. exact (page_reached_dict _ _ _ Hp). }
  assert (Hrun : forall kvs o,
             p0 = JObj kvs ->
             (forall l w1,
                 l = mk_locals p0 (match assoc "id" kvs with Some v => v | None => JNull end) 0 ->
                 fst (seek (new_client None) (target_date ++ "T00:00:00")%string fuel l w1) = o) ->
             fst (FastForward.main target_date fuel w) = Ok o).
  { intros kvs o -> Hseek. unfold FastForward.main.
    destruct (Hfirst w) as [w1 Hw1]. rewrite Hw1. cbn [get get_default].
    match goal with
    | |- context [seek ?c ?t ?f ?l ?w0] =>
        specialize (Hseek l w0 eq_refl); destruct (seek c t f l w0) as [o' w2]
    end.
    simpl in Hseek. subst o'. reflexivity. }
  split.
  - intros id Hreached Hid. destruct (Hdict _ Hreached) as [kvs Hkvs].
    apply (Hrun kvs _ Hkvs). intros l w1 ->.
    refine (proj1 (seek_along_the_chain _ _ rest p0 _ w1 fuel _ _ Hchain Hnot Hfuel)
              id Hreached Hid).
    + intros w'. exists w'. reflexivity.
    + simpl. lia.
  - intros next_id Hreached Hnext Hfalse. destruct (Hdict _ Hreached) as [kvs Hkvs].
    apply (Hrun kvs _ Hkvs). intros l w1 ->.
    refine (proj2 (seek_along_the_chain _ _ rest p0 _ w1 fuel _ _ Hchain Hnot Hfuel)
              next_id Hreached Hnext Hfalse).
    + intros w'. exists w'. reflexivity.
    + simpl. lia.
Qed.

Lemma seek_never_gives_up (self : client) (target : string) (l : locals) (fuel : nat) :
  (0 < page_count l)%Z ->
  (forall w, is_ok (fst (get_feed_page self (current_id l) false w)) = false) ->
  forall w, fst (seek self target fuel l w) = OutOfFuel.
Proof.
  intros Hcount Hfail. induction fuel as [| k IH]; intros w; [reflexivity |].
  simpl. unfold turn_body, turn_page.
  apply Z.ltb_lt in Hcount. rewrite Hcount.
  specialize (Hfail w).
  destruct (get_feed_page self (current_id l) false w) as [[p | e] w1]; [discriminate |].
  apply IH.
Qed.

(** X26.  [fast_forward] never gives up on a page: while the request
    for the page it is at fails, whatever the exception, the loop waits a
    second and asks again, without end.  With a server that refuses that
    page for good the search does not terminate, however many turns it
    is given. *)
Theorem fast_forward_retries_a_failing_page_for_ever (self : client) (target : string)
    (l : locals) (fuel : nat) (w : World) :
  (0 < page_count l)%Z ->
  (forall w', is_ok (fst (get_feed_page self (current_id l) false w')) = false) ->
  fst (seek self target fuel l w) = OutOfFuel.
Proof.
  intros Hcount Hfail. exact (seek_never_gives_up self target l fuel Hcount Hfail w).
Qed.

End SeekFacts.

(* ================================================================== *)
(** * Part V: the further properties on the sample environment *)
(* ================================================================== *)

Import Cases.

(** ** The limit (C3) *)



(** ** The further properties *)

(** X1 on a store that holds the record [c]: saving [a] leaves the rows
    of [c] alone. *)
Lemma save_job_leaves_other_records_alone_witness :
  get job_a "uuid" = Ok (JStr "a")
  /\ JStr "c" <> JStr "a"
  /\ rows_for nav_uuid (JStr "c") (nav_jobs (transaction (save_job (E := env) noon job_a) store_c))
     = rows_for nav_uuid (JStr "c") (nav_jobs store_c).
Proof.
  split; [reflexivity |]. split; [discriminate |].
  exact (proj1 (save_job_leaves_other_records_alone (E := env) noon job_a (JStr "a") (JStr "c")
                  store_c eq_refl ltac:(discriminate))).
Defined.


(** X4 on the empty store. *)
Lemma save_job_keeps_children_with_their_parent_witness :
  children_have_parent empty_store
  /\ children_have_parent (transaction (save_job (E := env) noon job_a) empty_store).
Proof.
  assert (H0 : children_have_parent empty_store).
  { repeat split; intros r []. }
  split; [exact H0 |].
  exact (save_job_keeps_children_with_their_parent (E := env) noon job_a empty_store H0).
Defined.

(** X5 on the record [a]: its later version, saved in the evening,
    replaces the version saved at noon. *)
Lemma later_version_replaces_the_earlier_witness :
  get job_a "uuid" = Ok (JStr "a")
  /\ get job_a_later "uuid" = Ok (JStr "a")
  /\ truthy (JStr "a") = true
  /\ is_ok (save_job (E := env) noon job_a) = true
  /\ is_ok (save_job (E := env) evening job_a_later) = true
  /\ transaction (save_job (E := env) evening job_a_later)
       (transaction (save_job (E := env) noon job_a) empty_store)
     = transaction (save_job (E := env) noon job_a_later) empty_store.
Proof.
  do 5 (split; [reflexivity |]).
  exact (later_version_replaces_the_earlier (E := env) noon evening job_a job_a_later (JStr "a")
           empty_store eq_refl eq_refl eq_refl eq_refl eq_refl).
Defined.

(** X8 on the sample feed, whose record [b] is inactive. *)
Lemma run_stores_no_inactive_record_witness :
  Forall not_inactive (nav_jobs empty_store)
  /\ Forall not_inactive
       (nav_jobs (db (snd (sync_loop (E := env) (new_client None) args_p1 5
                             (Created (JStr "p1") false)
                             (initial_state (O : @World env) empty_store))))).
Proof.
  split; [constructor |].
  exact (run_stores_no_inactive_record (E := env) (new_client None) args_p1 5
           (Created (JStr "p1") false) (initial_state (O : @World env) empty_store)
           (Forall_nil _)).
Defined.

(** X9 on a page that lists the item [a] twice. *)
Lemma pool_gets_each_identifier_once_witness :
  prefilter (E := env) no_args [item_a; item_a; item_b] [] []
    (initial_state (O : @World env) empty_store)
  = (Ok [item_a; item_b], initial_state (O : @World env) empty_store)
  /\ subsequence [item_a; item_b] [item_a; item_a; item_b]
  /\ distinct_ids [item_a; item_b].
Proof.
  split; [reflexivity |].
  exact (pool_gets_each_identifier_once (E := env) no_args [item_a; item_a; item_b]
           [item_a; item_b]
           (initial_state (O : @World env) empty_store)
           (initial_state (O : @World env) empty_store) eq_refl).
Defined.

(** X11 on a record whose [uuid] is the empty string. *)
Lemma record_without_uuid_is_counted_as_saved_witness :
  get job_without_uuid "uuid" = Ok (JStr "")
  /\ truthy (JStr "") = false
  /\ skip_reason_of (E := env) no_args job_without_uuid = None
  /\ is_ok (detail_older (E := env) no_args job_without_uuid) = true
  /\ fetched_count (snd (process_future (E := env) no_args (Ok job_without_uuid)
                           (initial_state (O : @World env) empty_store))) = 1%Z
  /\ db (snd (process_future (E := env) no_args (Ok job_without_uuid)
                (initial_state (O : @World env) empty_store))) = empty_store.
Proof.
  do 4 (split; [reflexivity |]).
  assert (H := record_without_uuid_is_counted_as_saved (E := env) no_args job_without_uuid
                 (JStr "") (initial_state (O : @World env) empty_store)
                 eq_refl eq_refl eq_refl eq_refl).
  destruct (process_future (E := env) no_args (Ok job_without_uuid)
              (initial_state (O : @World env) empty_store)) as [r st'].
  destruct H as [_ [Hf [_ [Hd _]]]]. cbn [snd]. split; [exact Hf | exact Hd].
Defined.


(** X13 on the sample feed, with no cursor in the database: without
    [--reset] the flag changes nothing. *)
Lemma start_from_beginning_needs_reset_witness :
  reset args_beginning = false
  /\ reset no_args = false
  /\ start_from_beginning args_beginning = true
  /\ start_from_beginning no_args = false
  /\ resolve_start args_beginning None = resolve_start no_args None
  /\ sync_loop (E := env) (new_client None) args_beginning 5 (Created JNull true)
       (initial_state (O : @World env) empty_store)
     = sync_loop (E := env) (new_client None) no_args 5 (Created JNull true)
         (initial_state (O : @World env) empty_store).
Proof.
  do 4 (split; [reflexivity |]).
  exact (proj2 (proj2
           (start_from_beginning_needs_reset (E := env) (new_client None) args_beginning no_args
              5 (Created JNull true) None (initial_state (O : @World env) empty_store)
              eq_refl eq_refl eq_refl eq_refl eq_refl))).
Defined.

(** X14 on the sample feed. *)
Lemma limit_zero_is_no_limit_witness :
  limit args_limit_0 = Some 0%Z
  /\ limit args_p1 = None
  /\ (forall n : Z, limit_reached args_limit_0 n = false)
  /\ sync_loop (E := env) (new_client None) args_limit_0 5 (Created (JStr "p1") false)
       (initial_state (O : @World env) empty_store)
     = sync_loop (E := env) (new_client None) args_p1 5 (Created (JStr "p1") false)
         (initial_state (O : @World env) empty_store).
Proof.
  do 2 (split; [reflexivity |]).
  assert (H := limit_zero_is_no_limit (E := env) (new_client None) args_limit_0 args_p1 5
                 (Created (JStr "p1") false) None (initial_state (O : @World env) empty_store)
                 eq_refl eq_refl eq_refl eq_refl eq_refl eq_refl).
  exact (conj (proj1 H) (proj2 (proj2 H))).
Defined.

(** X15 on a store that holds a cursor for [p2]: under [--reset] the
    cursor is gone and the walk starts from the last page. *)
Lemma reset_forgets_the_cursor_witness :
  reset args_reset = true
  /\ get_last_feed_state store_with_cursor = Some (JStr "/api/v1/feed/p2", JNull)
  /\ after_reset args_reset store_with_cursor = after_reset args_reset empty_store
  /\ get_last_feed_state (after_reset args_reset store_with_cursor) = None
  /\ resolve_start args_reset (get_last_feed_state (after_reset args_reset store_with_cursor))
     = Ok (Created JNull true).
Proof.
  do 2 (split; [reflexivity |]).
  assert (H := reset_forgets_the_cursor args_reset store_with_cursor empty_store
                 eq_refl eq_refl eq_refl eq_refl eq_refl eq_refl).
  exact (conj (proj1 H) (conj (proj1 (proj2 H)) (proj2 (proj2 H) eq_refl))).
Defined.

(** X16 on the page [p1] of the sample feed. *)
Lemma cursor_moves_to_the_next_page_witness :
  fst (process_page (E := env) (new_client None) no_args page_1
         (initial_state (O : @World env) empty_store)) = Ok false
  /\ get page_1 "next_url" = Ok (JStr "/api/v1/feed/p2")
  /\ truthy (JStr "/api/v1/feed/p2") = true
  /\ get_last_feed_state
       (db (snd (process_page (E := env) (new_client None) no_args page_1
                   (initial_state (O : @World env) empty_store))))
     = Some (JStr "/api/v1/feed/p2", JNull).
Proof.
  do 3 (split; [reflexivity |]).
  refine (cursor_moves_to_the_next_page (E := env) (new_client None) no_args page_1
            (JStr "/api/v1/feed/p2")
            (initial_state (O : @World env) empty_store) _ _ eq_refl eq_refl).
  vm_compute. reflexivity.
Defined.

(** X17 on the page [p2], the last of the sample feed: its one item is
    handed to the thread pool and the cursor is left on [p2]. *)
Lemma cursor_stays_on_the_last_page_witness :
  fst (process_page (E := env) (new_client None) no_args page_2
         (initial_state (O : @World env) empty_store)) = Ok false
  /\ get page_2 "next_url" = Ok JNull
  /\ truthy JNull = false
  /\ get page_2 "id" = Ok (JStr "p2")
  /\ truthy (JStr "p2") = true
  /\ prefilter (E := env) no_args
       [JObj [("id", JStr "c"); ("date_modified", JStr "2024-08-01")]] [] []
       (initial_state (O : @World env) empty_store)
     = (Ok [JObj [("id", JStr "c"); ("date_modified", JStr "2024-08-01")]],
        initial_state (O : @World env) empty_store)
  /\ get_last_feed_state
       (db (snd (process_page (E := env) (new_client None) no_args page_2
                   (initial_state (O : @World env) empty_store))))
     = Some (JStr "/api/v1/feed/p2", JNull).
Proof.
  do 6 (split; [reflexivity |]).
  refine (proj1 (cursor_stays_on_the_last_page (E := env) (new_client None) no_args page_2
                   JNull (JStr "p2")
                   (JArr [JObj [("id", JStr "c"); ("date_modified", JStr "2024-08-01")]])
                   [JObj [("id", JStr "c"); ("date_modified", JStr "2024-08-01")]]
                   [JObj [("id", JStr "c"); ("date_modified", JStr "2024-08-01")]]
                   (initial_state (O : @World env) empty_store)
                   (initial_state (O : @World env) empty_store)
                   (snd (process_page (E := env) (new_client None) no_args page_2
                           (initial_state (O : @World env) empty_store)))
                   _ eq_refl eq_refl eq_refl eq_refl eq_refl eq_refl eq_refl) _).
  - vm_compute. reflexivity.
  - discriminate.
Defined.

(** X18 on a page whose second item is a string, under the threshold of
    1 June 2024: the first item is skipped by the date of its summary,
    then the page raises. *)
Lemma malformed_item_stops_the_run_witness :
  get_default page_bad "items" (JArr []) = Ok (JArr [item_a; JStr "oops"])
  /\ iter (JArr [item_a; JStr "oops"]) = Ok [item_a; JStr "oops"]
  /\ In (JStr "oops") [item_a; JStr "oops"]
  /\ is_dict (JStr "oops") = false
  /\ process_page (E := env) (new_client None) args_since_june page_bad
       (initial_state (O : @World env) empty_store)
     = (Raise AttributeError, mk_run_state (O : @World env) empty_store 0 1 [])
  /\ exists (e : exn) (st' : run_state (E := env)),
       process_page (E := env) (new_client None) args_since_june page_bad
         (initial_state (O : @World env) empty_store) = (Raise e, st')
       /\ db st' = empty_store
       /\ fetched_count st' = 0%Z
       /\ log st' = []
       /\ (0 <= skipped_count st')%Z.
Proof.
  split; [reflexivity |]. split; [reflexivity |].
  split; [right; left; reflexivity |]. split; [reflexivity |].
  split; [vm_compute; reflexivity |].
  destruct (malformed_item_stops_the_run (E := env) (new_client None) args_since_june page_bad
              (JArr [item_a; JStr "oops"]) (JStr "oops") [item_a; JStr "oops"]
              (initial_state (O : @World env) empty_store)
              eq_refl eq_refl (or_intror (or_introl eq_refl)) eq_refl)
    as [e [st' [Hpage [_ [Hd [Hf [Hl [Hs _]]]]]]]].
  exists e, st'. split; [exact Hpage |]. split; [exact Hd |]. split; [exact Hf |].
  split; [exact Hl | exact Hs].
Defined.

(** X19 on the sample server, which does not have the record [x]. *)
Lemma make_request_tries_at_most_retries_times_witness :
  (0 < 3)%nat
  /\ exists m : nat,
       (m < 3)%nat
       /\ _make_request (E := env_x) (new_client None) "/api/v1/feedentry/x" [] 3 (O : @World env_x)
          = session_request (Env := env_x) (api_url (new_client None) ++ "/api/v1/feedentry/x")%string []
              (after_requests (E := env_x)
                 (api_url (new_client None) ++ "/api/v1/feedentry/x")%string [] m
                 (O : @World env_x)).
Proof.
  split; [exact (Nat.lt_0_succ 2) |].
  destruct (make_request_tries_at_most_retries_times (E := env_x) (new_client None)
              "/api/v1/feedentry/x" [] 3 (O : @World env_x) (Nat.lt_0_succ 2))
    as [m [Hm [_ [Hres _]]]].
  exists m. split; [exact Hm | exact Hres].
Defined.

(** X20 on a [nav_jobs] that has [published] as text: the column keeps
    its type and the four others are added. *)
Lemma ensure_columns_only_adds_what_is_missing_witness :
  table_columns "nav_jobs" old_catalog = Some [("nav_uuid", "TEXT"); ("published", "TEXT")]
  /\ NoDup (map fst [("published", "TIMESTAMP"); ("job_title_official", "TEXT")])
  /\ exists c' : catalog,
       _ensure_columns "nav_jobs" [("published", "TIMESTAMP"); ("job_title_official", "TEXT")]
         old_catalog = (c', None)
       /\ table_columns "nav_jobs" c'
          = Some [("nav_uuid", "TEXT"); ("published", "TEXT"); ("job_title_official", "TEXT")].
Proof.
  assert (Hnd : NoDup (map fst [("published", "TIMESTAMP"); ("job_title_official", "TEXT")])).
  { repeat constructor; simpl; intuition discriminate. }
  split; [reflexivity |]. split; [exact Hnd |].
  destruct (ensure_columns_only_adds_what_is_missing "nav_jobs"
              [("published", "TIMESTAMP"); ("job_title_official", "TEXT")] old_catalog
              [("nav_uuid", "TEXT"); ("published", "TEXT")] eq_refl Hnd)
    as [c' [Hrun [Hcols _]]].
  exists c'. split; [exact Hrun | exact Hcols].
Defined.

(** X21 on the same catalogue. *)
Lemma ensure_columns_twice_changes_nothing_witness :
  NoDup (map fst [("published", "TIMESTAMP"); ("job_title_official", "TEXT")])
  /\ _ensure_columns "nav_jobs" [("published", "TIMESTAMP"); ("job_title_official", "TEXT")]
       (fst (_ensure_columns "nav_jobs"
               [("published", "TIMESTAMP"); ("job_title_official", "TEXT")] old_catalog))
     = (fst (_ensure_columns "nav_jobs"
               [("published", "TIMESTAMP"); ("job_title_official", "TEXT")] old_catalog), None).
Proof.
  assert (Hnd : NoDup (map fst [("published", "TIMESTAMP"); ("job_title_official", "TEXT")])).
  { repeat constructor; simpl; intuition discriminate. }
  split; [exact Hnd |].
  exact (ensure_columns_twice_changes_nothing "nav_jobs"
           [("published", "TIMESTAMP"); ("job_title_official", "TEXT")] old_catalog _ Hnd eq_refl).
Defined.

(** X23 on a record published at a number. *)
Lemma date_that_is_not_text_witness :
  get job_f "ad_content" = Ok (JObj ad_f)
  /\ assoc "published" ad_f = Some (JInt 1700000000)
  /\ (forall s, JInt 1700000000 <> JStr s)
  /\ truthy (JInt 1700000000) = true
  /\ is_ok (_upsert_nav_job (E := env) noon job_f) = false
  /\ transaction (save_job (E := env) noon job_f) empty_store = empty_store.
Proof.
  split; [reflexivity |]. split; [reflexivity |].
  split; [intros s; discriminate |]. split; [reflexivity |].
  destruct (proj1 (date_that_is_not_text (E := env) noon job_f ad_f "published" (JInt 1700000000)
                     eq_refl eq_refl (fun s => ltac:(discriminate)))
              (or_introl eq_refl) eq_refl)
    as [Hfail Hsame].
  split; [exact Hfail | exact (Hsame empty_store)].
Defined.

(** X24 on the later version of the record [a], located in Bergen. *)
Lemma job_row_has_the_place_of_its_first_location_witness :
  exists (q : list stmt) (r : job_row),
    save_job (E := env) noon job_a_later = Ok q
    /\ get job_a_later "uuid" = Ok (JStr "a")
    /\ truthy (JStr "a") = true
    /\ _upsert_nav_job (E := env) noon job_a_later = Ok [UpsertJob r]
    /\ kommune r = JStr "BERGEN"
    /\ match rows_for loc_nav_uuid (JStr "a") (nav_job_locations (transaction (Ok q) empty_store)) with
       | l :: _ => kommune r = loc_municipal l /\ fylke r = loc_county l
       | [] => kommune r = JNull /\ fylke r = JNull
       end.
Proof.
  refine (ex_intro _ _ (ex_intro _ _
            (conj eq_refl (conj eq_refl (conj eq_refl (conj eq_refl (conj eq_refl _))))))).
  exact (job_row_has_the_place_of_its_first_location (E := env) noon job_a_later (JStr "a") _ _
           empty_store eq_refl eq_refl eq_refl eq_refl).
Defined.

(** X25 on the sample feed: the search for 15 July 2024 passes [p1],
    whose last item is of 3 July, and stops at [p2]. *)
Lemma fast_forward_stops_at_the_first_page_witness :
  FastForward.always_answers (E := env) (new_client None) JNull page_1
  /\ FastForward.chain (E := env) (new_client None) page_1 [page_2]
  /\ FastForward.page_reached "2024-07-15T00:00:00" page_1 = Ok false
  /\ FastForward.page_reached "2024-07-15T00:00:00" page_2 = Ok true
  /\ fst (FastForward.main (E := env) "2024-07-15" 2 (O : @World env))
     = Ok (FastForward.Found (JStr "p2")).
Proof.
  assert (H1 : FastForward.always_answers (E := env) (new_client None) JNull page_1).
  { intros w. eexists. reflexivity. }
  assert (H2 : FastForward.chain (E := env) (new_client None) page_1 [page_2]).
  { exists (JStr "p2"). split; [reflexivity |]. split; [reflexivity |].
    split; [| exact I]. intros w. eexists. reflexivity. }
  assert (H3 : Forall (fun x => FastForward.page_reached ("2024-07-15" ++ "T00:00:00")%string x
                                = Ok false)
                      (removelast [page_1; page_2])).
  { constructor; [reflexivity | constructor]. }
  split; [exact H1 |]. split; [exact H2 |]. split; [reflexivity |]. split; [reflexivity |].
  exact (proj1 (fast_forward_stops_at_the_first_page_at_or_after_the_target (E := env)
                  "2024-07-15" page_1 [page_2] 2 (O : @World env) H1 H2 H3
                  (le_n 2))
               (JStr "p2") eq_refl eq_refl).
Defined.

(** X26 on the sample server, which has no page [zz]. *)
Lemma fast_forward_retries_a_failing_page_for_ever_witness :
  (0 < FastForward.page_count at_missing_page)%Z
  /\ (forall w' : @World env,
        is_ok (fst (get_feed_page (E := env) (new_client None)
                      (FastForward.current_id at_missing_page) false w')) = false)
  /\ fst (FastForward.seek (E := env) (new_client None) "2024-07-15T00:00:00" 1000
            at_missing_page (O : @World env))
     = FastForward.OutOfFuel.
Proof.
  assert (Hfail : forall w' : @World env,
             is_ok (fst (get_feed_page (E := env) (new_client None)
                           (FastForward.current_id at_missing_page) false w')) = false).
  { intros w'. reflexivity. }
  split; [reflexivity |]. split; [exact Hfail |].
  exact (fast_forward_retries_a_failing_page_for_ever (E := env) (new_client None)
           "2024-07-15T00:00:00" at_missing_page 1000 (O : @World env) eq_refl Hfail).
Defined.
